(** * An audit-and-rollback engine for in-memory objects

    A shallow embedding of the Go package [audit] (auditor identities,
    signatures, the audit history with its diff, rollback and binary codec)
    together with the properties its specification states about it.

    Conventions of the embedding:
    - a Go [int], [int64], [int8] or [byte] is a [Z]; conversions between
      widths are written out where the source performs them;
    - a [float64] is the [Z] holding its 64 bit IEEE 754 pattern, and the Go
      operator [==] on floats is [f64_eq];
    - a Go [string] is a [string] (a sequence of 8 bit characters);
    - a slice is a [list]; where the source tests a slice against [nil] the
      slice is an [option (list _)] with [None] for [nil];
    - a function that may panic returns a [run], an [error] result is an
      [option error] next to the other results, as in the source;
    - the receiver a method mutates is returned next to the results. *)

From Stdlib Require Import ZArith String Ascii List Lia Bool.
From stdpp Require Import base tactics option numbers list sorting strings gmap fin_maps.

Local Open Scope string_scope.
Local Open Scope list_scope.
Local Open Scope Z_scope.

(** ** Go runtime: results of a call *)

(** A call either returns or panics with a message. *)
Inductive run (A : Type) : Type :=
| Returns (a : A)
| Panics (msg : string).
Arguments Returns {A} a.
Arguments Panics {A} msg.

#[export] Instance run_bind : MBind run := fun A B k m =>
  match m with
  | Returns a => k a
  | Panics msg => Panics msg
  end.
#[export] Instance run_ret : MRet run := @Returns.

(** ** package time *)

(** A [time.Time] is an instant and the offset of its location. The instant
    is counted in nanoseconds from the Unix epoch; a location is represented
    by its offset in seconds east of UTC, the only attribute of a location
    the package computes with. *)
Record Time : Type := mkTime { instant : Z; offset : Z }.

#[export] Instance Time_eq_dec : EqDecision Time.
Proof. solve_decision. Defined.

Module Time.

Definition nanosPerSecond : Z := 1000000000.

(** Days from 1970-01-01 to the given day of the proleptic Gregorian
    calendar. *)
Definition daysFromCivil (year month day : Z) : Z :=
  let y := if month <=? 2 then year - 1 else year in
  let era := y / 400 in
  let yoe := y - era * 400 in
  let mp := if month >? 2 then month - 3 else month + 9 in
  let doy := (153 * mp + 2) / 5 + day - 1 in
  let doe := yoe * 365 + yoe / 4 - yoe / 100 + doy in
  era * 146097 + doe - 719468.

(** [time.Date(year, month, day, hour, min, sec, nsec, time.UTC)], for
    arguments in their normal ranges. *)
Definition Date (year month day hour min sec nsec : Z) : Time :=
  mkTime ((((daysFromCivil year month day * 24 + hour) * 60 + min) * 60 + sec)
            * nanosPerSecond + nsec) 0.

(** [time.Time{}]: January 1, year 1, 00:00:00 UTC. *)
Definition zero : Time := Date 1 1 1 0 0 0 0.

Definition IsZero (t : Time) : bool := instant t =? instant zero.
Definition After (t u : Time) : bool := instant u <? instant t.
Definition Before (t u : Time) : bool := instant t <? instant u.
Definition Equal (t u : Time) : bool := instant t =? instant u.

(** [t.Zone()]: the offset; the name of the zone is not represented. *)
Definition Zone (t : Time) : Z := offset t.

Definition wrap64 (n : Z) : Z := (n + 2 ^ 63) mod 2 ^ 64 - 2 ^ 63.

(** [t.UnixNano()]: an [int64], wrapping outside its range. *)
Definition UnixNano (t : Time) : Z := wrap64 (instant t).

(** [time.Unix(0, nsec).In(time.UTC)]. *)
Definition UnixUTC (nsec : Z) : Time := mkTime nsec 0.

(** [t.Add(d)] for a duration in nanoseconds. *)
Definition Add (t : Time) (d : Z) : Time := mkTime (instant t + d) (offset t).

End Time.

(** ** Errors *)

(** An argument of a formatted message. [ArgZone t] stands for the name of
    the zone of [t]. *)
Inductive fmtArg : Type :=
| ArgTime (t : Time)
| ArgZone (t : Time)
| ArgInt (n : Z)
| ArgString (s : string)
| ArgType (type : string).

(** An [error]. [ErrDidNotExist] is the package level variable, which
    callers compare by identity; [Errorf] is a value made by
    [fmt.Errorf(format, args...)] at the point of failure, kept as its format
    and arguments; [Wrapf] is [fmt.Errorf] with the verb [%w]; [Foreign] is
    an error made outside the package (by an object or by the byte buffer). *)
Inductive error : Type :=
| ErrDidNotExist
| Errorf (format : string) (args : list fmtArg)
| Wrapf (format : string) (cause : error)
| Foreign (msg : string).

#[export] Instance fmtArg_eq_dec : EqDecision fmtArg.
Proof. solve_decision. Defined.
#[export] Instance error_eq_dec : EqDecision error.
Proof. solve_decision. Defined.

(** The text an error was made from, with the verbs of a format left in
    place. *)
Definition errorText (e : error) : string :=
  match e with
  | ErrDidNotExist => "the object did not exist at the given time"
  | Errorf format _ => format
  | Wrapf format _ => format
  | Foreign msg => msg
  end.

(** ** The byte buffer *)

(** Modelled from the spec: the package [bufrw] is a dependency of the
    repository and is taken, as the specification does, as a given reader and
    writer of primitive values in which a read returns what the matching
    write stored. A stream is the sequence of primitive values written; a
    write to the in-memory buffer appends one and does not fail; a read takes
    the first one and fails, leaving the stream as it is and returning the
    zero value, when the stream is exhausted or holds another kind of value
    there. *)
Inductive token : Type :=
| TByte (b : Z)
| TBool (b : bool)
| TInt (n : Z)
| TInt64 (n : Z)
| TFloat64 (x : Z)
| TString (s : string)
| TStrings (l : list string)
| TBools (l : list bool)
| TInts (l : list Z)
| TInt64s (l : list Z)
| TFloat64s (l : list Z)
| TBytes (l : list Z).

#[export] Instance token_eq_dec : EqDecision token.
Proof. solve_decision. Defined.

Module bufrw.

Definition Writer : Type := list token.
Definition Reader : Type := list token.

Definition write (w : Writer) (t : token) : Writer := w ++ [t].

Definition errRead : error := Foreign "bufrw: cannot read the value".

Definition ReadByteValue (r : Reader) : Z * option error * Reader :=
  match r with TByte b :: r' => (b, None, r') | _ => (0, Some errRead, r) end.
Definition ReadBool (r : Reader) : bool * option error * Reader :=
  match r with TBool b :: r' => (b, None, r') | _ => (false, Some errRead, r) end.
Definition ReadInt (r : Reader) : Z * option error * Reader :=
  match r with TInt n :: r' => (n, None, r') | _ => (0, Some errRead, r) end.
Definition ReadInt64 (r : Reader) : Z * option error * Reader :=
  match r with TInt64 n :: r' => (n, None, r') | _ => (0, Some errRead, r) end.
Definition ReadFloat64 (r : Reader) : Z * option error * Reader :=
  match r with TFloat64 x :: r' => (x, None, r') | _ => (0, Some errRead, r) end.
Definition ReadString (r : Reader) : string * option error * Reader :=
  match r with TString s :: r' => (s, None, r') | _ => ("", Some errRead, r) end.
Definition ReadStrings (r : Reader) : list string * option error * Reader :=
  match r with TStrings l :: r' => (l, None, r') | _ => ([], Some errRead, r) end.
Definition ReadBools (r : Reader) : list bool * option error * Reader :=
  match r with TBools l :: r' => (l, None, r') | _ => ([], Some errRead, r) end.
Definition ReadInts (r : Reader) : list Z * option error * Reader :=
  match r with TInts l :: r' => (l, None, r') | _ => ([], Some errRead, r) end.
Definition ReadInt64s (r : Reader) : list Z * option error * Reader :=
  match r with TInt64s l :: r' => (l, None, r') | _ => ([], Some errRead, r) end.
Definition ReadFloat64s (r : Reader) : list Z * option error * Reader :=
  match r with TFloat64s l :: r' => (l, None, r') | _ => ([], Some errRead, r) end.
Definition ReadByteValues (r : Reader) : list Z * option error * Reader :=
  match r with TBytes l :: r' => (l, None, r') | _ => ([], Some errRead, r) end.

End bufrw.

(** ** auditor.go *)

Record Auditor : Type := mkAuditor { kind : string; id : string }.

#[export] Instance Auditor_eq_dec : EqDecision Auditor.
Proof. solve_decision. Defined.

Definition slash : ascii := "/"%char.

(** [strings.Contains(s, "/")]. *)
Fixpoint containsSlash (s : string) : bool :=
  match s with
  | EmptyString => false
  | String c s' => if Ascii.eqb c slash then true else containsSlash s'
  end.

(** [strings.Split(s, "/")]: the pieces between the separators, one more
    than there are separators. *)
Fixpoint Split (s : string) : list string :=
  match s with
  | EmptyString => [EmptyString]
  | String c s' =>
      if Ascii.eqb c slash then EmptyString :: Split s'
      else match Split s' with
           | piece :: rest => String c piece :: rest
           | [] => [String c EmptyString]
           end
  end.

Definition NewAuditor (k i : string) : run Auditor :=
  if containsSlash k || containsSlash i then Panics "No slashes"
  else Returns (mkAuditor k i).

Module Auditor.

Definition zero : Auditor := mkAuditor "" "".

Definition Kind (a : Auditor) : string := kind a.

Definition ID (a : Auditor) : string := id a.

Definition IsZero (a : Auditor) : bool := bool_decide (a = zero).

Definition Equal (a b : Auditor) : bool :=
  bool_decide (kind a = kind b) && bool_decide (id a = id b).

Definition Encode (a : Auditor) : string := kind a +:+ "/" +:+ id a.

(** [Decode] assigns to the receiver only when it succeeds. *)
Definition Decode (a : Auditor) (src : string) : Auditor * option error :=
  match Split src with
  | [k; i] => (mkAuditor k i, None)
  | _ => (a, Some (Errorf "invalid encoded actor: %s" [ArgString src]))
  end.

Definition String (a : Auditor) : string := Encode a.

End Auditor.

(** ** Signatures *)

Record Signature : Type := mkSignature { auditor : Auditor; timestamp : Time }.

#[export] Instance Signature_eq_dec : EqDecision Signature.
Proof. solve_decision. Defined.

Definition NewSignature (a : Auditor) (t : Time) : Signature := mkSignature a t.

Module Signature.

(** [Signature{}]. *)
Definition zero : Signature := mkSignature Auditor.zero Time.zero.

Definition Equal (sig other : Signature) : bool :=
  Auditor.Equal (auditor sig) (auditor other)
  && Time.Equal (timestamp sig) (timestamp other).

Definition minAllowed : Time := Time.Date 1970 1 1 0 0 0 1.
Definition maxAllowed : Time := Time.Date 2200 1 1 0 0 0 0.

(** [SerializeToBufRW]: the error and the writer as the call leaves it. *)
Definition SerializeToBufRW (sig : Signature) (w : bufrw.Writer)
  : option error * bufrw.Writer :=
  if negb (Time.Zone (timestamp sig) =? 0) then
    (Some (Errorf "invalid signature timestamp: must be in zone with offset = 0, was %s (%d)"
             [ArgZone (timestamp sig); ArgInt (Time.Zone (timestamp sig))]), w)
  else
    let w := bufrw.write w (TInt 1) in
    let w := bufrw.write w (TString (Auditor.Encode (auditor sig))) in
    let t := timestamp sig in
    if negb (Time.IsZero t) && (Time.Before t minAllowed || Time.After t maxAllowed) then
      (Some (Errorf "signature timestamp %s is out of bounds" [ArgTime (timestamp sig)]), w)
    else
      let unixNano := if negb (Time.IsZero t) then Time.UnixNano t else 0 in
      (None, bufrw.write w (TInt64 unixNano)).

(** [Serialize]: into a fresh buffer; the bytes are dropped on an error. *)
Definition Serialize (sig : Signature) : option (list token) * option error :=
  match SerializeToBufRW sig [] with
  | (Some e, _) => (None, Some e)
  | (None, b) => (Some b, None)
  end.

(** [DeserializeFromBufRW]: the receiver, the error and the reader as the
    call leaves them. *)
Definition DeserializeFromBufRW (sig : Signature) (r : bufrw.Reader)
  : Signature * option error * bufrw.Reader :=
  let '(version, err, r) := bufrw.ReadInt r in
  match err with Some e => (sig, Some e, r) | None =>
  if negb (version =? 1) then
    (sig, Some (Errorf "unsupported version number: %d" [ArgInt version]), r)
  else
  let '(auditorString, err, r) := bufrw.ReadString r in
  match err with Some e => (sig, Some e, r) | None =>
  let '(auditor, err) := Auditor.Decode Auditor.zero auditorString in
  match err with Some e => (sig, Some e, r) | None =>
  let '(unixNano, err, r) := bufrw.ReadInt64 r in
  match err with Some e => (sig, Some e, r) | None =>
  if unixNano <? 0 then
    (sig, Some (Errorf "invalid unix nano value found: %d" [ArgInt unixNano]), r)
  else
    let timestamp := if unixNano >? 0 then Time.UnixUTC unixNano else Time.zero in
    (mkSignature auditor timestamp, None, r)
  end end end end.

Definition Deserialize (sig : Signature) (b : list token) : Signature * option error :=
  let '(sig, err, _) := DeserializeFromBufRW sig b in (sig, err).

Definition Timestamp (sig : Signature) : Time := timestamp sig.

Definition Auditor (sig : Signature) : Auditor := auditor sig.

End Signature.

(** [SignatureSlice.Timestamps]. *)
Definition Timestamps (s : list Signature) : list Time := map timestamp s.

Module SignatureSlice.

(** The loop [for i := range s { reversed[i] = s[n-1-i] }] of [Reversed],
    entered with [i] and with [count] rounds left. *)
Fixpoint reverseFrom (s reversed : list Signature) (n i count : nat) : list Signature :=
  match count with
  | O => reversed
  | S count =>
      reverseFrom s (<[i := nth (n - 1 - i) s Signature.zero]> reversed) n (S i) count
  end.

(** [Reversed]: a [nil] slice stays [nil]. *)
Definition Reversed (s : option (list Signature)) : option (list Signature) :=
  match s with
  | None => None
  | Some s =>
      let n := length s in
      Some (reverseFrom s (replicate n Signature.zero) n 0 n)
  end.

End SignatureSlice.

(** ** Field values *)

(** Comparison of two [float64] by the operator [==], on their bit patterns:
    a NaN differs from everything, the two zeros are equal, and any other
    two numbers are equal when their patterns are. *)
Module float64.

Definition exponent (x : Z) : Z := Z.land (Z.shiftr x 52) 2047.
Definition fraction (x : Z) : Z := Z.land x (2 ^ 52 - 1).
Definition isNaN (x : Z) : bool := (exponent x =? 2047) && negb (fraction x =? 0).
Definition isZero (x : Z) : bool := Z.land x (2 ^ 63 - 1) =? 0.
Definition eq (x y : Z) : bool :=
  negb (isNaN x) && negb (isNaN y) && ((x =? y) || (isZero x && isZero y)).

End float64.

(** [type magicValue int8]. *)
Definition magicValue : Type := Z.
Definition magicValueHistoryCreation : magicValue := 0.
Definition magicValueFieldRemoved : magicValue := 1.

(** What a [Field.Value] of type [interface{}] can hold: a value of one of
    the twelve dynamic types the package handles, or anything else
    ([VUnsupported] with the name of its type, [<nil>] for the nil
    interface). *)
Inductive value : Type :=
| VMagic (v : magicValue)
| VString (v : string)
| VBool (v : bool)
| VInt (v : Z)
| VInt64 (v : Z)
| VFloat64 (v : Z)
| VStrings (v : list string)
| VBools (v : list bool)
| VInts (v : list Z)
| VInt64s (v : list Z)
| VFloat64s (v : list Z)
| VBytes (v : list Z)
| VUnsupported (type : string).

#[export] Instance value_eq_dec : EqDecision value.
Proof. solve_decision. Defined.

(** The loop [for i := range v1 { if v1[i] != v2[i] { return false } }]
    followed by [return true], for slices of one length. *)
Fixpoint sameElements {A : Type} (eqb : A -> A -> bool) (v1 v2 : list A) : bool :=
  match v1, v2 with
  | x :: v1', y :: v2' => if negb (eqb x y) then false else sameElements eqb v1' v2'
  | _, _ => true
  end.

Definition sliceEquals {A : Type} (eqb : A -> A -> bool) (v1 v2 : list A) : bool :=
  if negb (length v1 =? length v2)%nat then false else sameElements eqb v1 v2.

Definition eqb_of (A : Type) `{EqDecision A} (x y : A) : bool := bool_decide (x = y).

Definition equals (value1 value2 : value) : run bool :=
  match value1 with
  | VString v1 =>
      Returns (match value2 with VString v2 => eqb_of string v1 v2 | _ => false end)
  | VBool v1 =>
      Returns (match value2 with VBool v2 => eqb_of bool v1 v2 | _ => false end)
  | VInt v1 =>
      Returns (match value2 with VInt v2 => v1 =? v2 | _ => false end)
  | VInt64 v1 =>
      Returns (match value2 with VInt64 v2 => v1 =? v2 | _ => false end)
  | VFloat64 v1 =>
      Returns (match value2 with VFloat64 v2 => float64.eq v1 v2 | _ => false end)
  | VStrings v1 =>
      Returns (match value2 with
               | VStrings v2 => sliceEquals (eqb_of string) v1 v2 | _ => false end)
  | VBools v1 =>
      Returns (match value2 with
               | VBools v2 => sliceEquals (eqb_of bool) v1 v2 | _ => false end)
  | VInts v1 =>
      Returns (match value2 with VInts v2 => sliceEquals Z.eqb v1 v2 | _ => false end)
  | VInt64s v1 =>
      Returns (match value2 with VInt64s v2 => sliceEquals Z.eqb v1 v2 | _ => false end)
  | VFloat64s v1 =>
      Returns (match value2 with
               | VFloat64s v2 => sliceEquals float64.eq v1 v2 | _ => false end)
  | VBytes v1 =>
      Returns (match value2 with VBytes v2 => sliceEquals Z.eqb v1 v2 | _ => false end)
  | VMagic _ => Panics "Unsupported value type: audit.magicValue"
  | VUnsupported type => Panics ("Unsupported value type: " +:+ type)
  end.

Module stringSlice.

Fixpoint indexFrom (i : Z) (slice : list string) (s : string) : Z :=
  match slice with
  | [] => -1
  | x :: rest => if bool_decide (x = s) then i else indexFrom (i + 1) rest s
  end.

Definition IndexOf (slice : list string) (s : string) : Z := indexFrom 0 slice s.

Fixpoint Contains (slice : list string) (s : string) : bool :=
  match slice with
  | [] => false
  | x :: rest => if bool_decide (x = s) then true else Contains rest s
  end.

End stringSlice.

(** ** Fields and field slices *)

Record Field : Type := mkField { Name : string; Value : value }.

#[export] Instance Field_eq_dec : EqDecision Field.
Proof. solve_decision. Defined.

(** [Field{}]. *)
Definition zeroField : Field := mkField "" (VUnsupported "<nil>").

(** The elements of a slice that may be [nil]. *)
Definition elems {A : Type} (s : option (list A)) : list A := default [] s.

Module fieldSlice.

Fixpoint indexFrom (i : Z) (s : list Field) (name : string) : Z :=
  match s with
  | [] => -1
  | field :: rest =>
      if bool_decide (Name field = name) then i else indexFrom (i + 1) rest name
  end.

Definition IndexOf (s : list Field) (name : string) : Z := indexFrom 0 s name.

Definition Contains (s : list Field) (name : string) : bool :=
  negb (IndexOf s name =? -1).

Fixpoint TryGet (s : list Field) (name : string) : Field * bool :=
  match s with
  | [] => (zeroField, false)
  | field :: rest =>
      if bool_decide (Name field = name) then (field, true) else TryGet rest name
  end.

(** [Remove]: the element found is exchanged with the last one and the slice
    is cut by one. *)
Definition Remove (s : list Field) (name : string) : list Field :=
  let index := IndexOf s name in
  if index =? -1 then s
  else
    let n := Z.of_nat (length s) in
    let atLast := nth (Z.to_nat (n - 1)) s zeroField in
    let atIndex := nth (Z.to_nat index) s zeroField in
    let _s := <[Z.to_nat index := atLast]> (<[Z.to_nat (n - 1) := atIndex]> s) in
    take (Z.to_nat (n - 1)) _s.

Definition Set_ (s : list Field) (name : string) (v : value) : list Field :=
  let field := mkField name v in
  let index := IndexOf s name in
  if index =? -1 then s ++ [field] else <[Z.to_nat index := field]> s.

End fieldSlice.

(** ** Auditable objects *)

(** The interface [AuditableObject]. [GetFields] returns the fields (a slice
    that may be [nil]), the rollback timestamp and an error; [SetFields]
    returns the object as the call leaves it and an error. *)
Class AuditableObject (O : Type) : Type := {
  GetFields : O -> option (list Field) * Time * option error;
  SetFields : O -> list Field -> Time -> O * option error
}.

(** An object that keeps the slice it is given: [GetFields] reports the
    stored slice and rollback timestamp, [SetFields] replaces both; each of
    the two fails, changing nothing, when its error is set. *)
Record storedObject : Type := mkStored {
  Values : option (list Field);
  tRollback : Time;
  getError : option error;
  setError : option error
}.

#[export] Instance storedObject_auditable : AuditableObject storedObject := {
  GetFields obj := (Values obj, tRollback obj, getError obj);
  SetFields obj fields t :=
    match setError obj with
    | Some e => (obj, Some e)
    | None => (mkStored (Some fields) t (getError obj) None, None)
    end
}.

(** A live object with the given fields. *)
Definition liveObject (fields : list Field) : storedObject :=
  mkStored (Some fields) Time.zero None None.

(** ** The audit history *)

Record auditHistory : Type := mkHistory { fields : list Field; signature : Signature }.

#[export] Instance auditHistory_eq_dec : EqDecision auditHistory.
Proof. solve_decision. Defined.

(** [auditHistory{}]. *)
Definition zeroHistory : auditHistory := mkHistory [] Signature.zero.

Record AuditableValues : Type := mkValues { history : list auditHistory }.

#[export] Instance AuditableValues_eq_dec : EqDecision AuditableValues.
Proof. solve_decision. Defined.

Definition isFieldRemoved (v : value) : bool :=
  match v with VMagic m => m =? magicValueFieldRemoved | _ => false end.

Module AuditableValues.

Definition addHistory (values : AuditableValues) (sig : Signature) (fields : list Field)
  : AuditableValues :=
  mkValues (history values ++ [mkHistory fields sig]).

Definition IsZero (values : AuditableValues) : bool :=
  (length (history values) =? 0)%nat.

Definition CreationSignature (values : AuditableValues) : Signature :=
  if IsZero values then Signature.zero
  else signature (nth 0 (history values) zeroHistory).

Definition LatestSignature (values : AuditableValues) : Signature :=
  let n := length (history values) in
  if (n =? 0)%nat then Signature.zero
  else signature (nth (n - 1) (history values) zeroHistory).

Definition Signatures (values : AuditableValues) : list Signature :=
  map signature (history values).

(** Whether the inner loop over the fields of an entry meets the name. *)
Fixpoint mentions (fields : list Field) (fieldName : string) : bool :=
  match fields with
  | [] => false
  | field :: rest =>
      if bool_decide (Name field = fieldName) then true else mentions rest fieldName
  end.

(** The loop [for i := len(values.history) - 1; i > 0; i--] of
    [LatestSignatureForField], entered with [i]. *)
Fixpoint latestFrom (values : AuditableValues) (fieldName : string) (i : nat) : Signature :=
  match i with
  | O => CreationSignature values
  | S j =>
      if mentions (fields (nth i (history values) zeroHistory)) fieldName
      then signature (nth i (history values) zeroHistory)
      else latestFrom values fieldName j
  end.

Definition LatestSignatureForField (values : AuditableValues) (fieldName : string)
  : Signature :=
  latestFrom values fieldName (length (history values) - 1).

Definition SignaturesForField (values : AuditableValues) (fieldName : string)
  : list Signature :=
  fold_left
    (fun signatures h =>
       if mentions (fields h) fieldName then signatures ++ [signature h]
       else signatures)
    (history values)
    [CreationSignature values].

(** The second loop of [getHistoryFields], over the new fields. *)
Fixpoint addedOrUpdated (oldFields newFields history : list Field) : run (list Field) :=
  match newFields with
  | [] => Returns history
  | newField :: rest =>
      let '(oldField, hasOldField) := fieldSlice.TryGet oldFields (Name newField) in
      if hasOldField then
        same ← equals (Value oldField) (Value newField);
        if negb same then addedOrUpdated oldFields rest (history ++ [oldField])
        else addedOrUpdated oldFields rest history
      else
        addedOrUpdated oldFields rest
          (history ++ [mkField (Name newField) (VMagic magicValueFieldRemoved)])
  end.

Definition getHistoryFields (oldFields newFields : option (list Field))
  : run (list Field * option error) :=
  match oldFields with
  | None => Returns ([mkField "" (VMagic magicValueHistoryCreation)], None)
  | Some oldFields =>
      let history :=
        List.filter
          (fun field => negb (fieldSlice.Contains (elems newFields) (Name field)))
          oldFields in
      history ← addedOrUpdated oldFields (elems newFields) history;
      Returns (history, None)
  end.

Definition errOldObjNil : error :=
  Errorf "oldObj cannot be nil when there is an audit history. Only allowed on initial audit" [].

Definition errTimestamp (sig latest : Time) : error :=
  Errorf "invalid signature timestamp: must be after latest audit timestamp (signature: %v, latest audit: %v)"
    [ArgTime sig; ArgTime latest].

Definition errRolledBack : error :=
  Errorf "cannot audit based on a rolled back object" [].

Section Engine.
Context {Obj : Type} `{AuditableObject Obj}.

(** What [Audit] does once the checks on the history have passed. *)
Definition auditFields (values : AuditableValues) (oldObj : option Obj) (newObj : Obj)
    (sig : Signature) : run (AuditableValues * bool * option error) :=
  let old : option (list Field) * option error :=
    match oldObj with
    | None => (None, None)
    | Some oldObj =>
        let '(fields, tRollback, err) := GetFields oldObj in
        match err with
        | Some e => (None, Some e)
        | None =>
            if negb (Time.IsZero tRollback) then (None, Some errRolledBack)
            else (fields, None)
        end
    end in
  match old with
  | (_, Some e) => Returns (values, false, Some e)
  | (oldFields, None) =>
      let '(newFields, tRollback, err) := GetFields newObj in
      match err with
      | Some e => Returns (values, false, Some e)
      | None =>
          if negb (Time.IsZero tRollback) then Returns (values, false, Some errRolledBack)
          else
            '(changedFields, err) ← getHistoryFields oldFields newFields;
            match err with
            | Some e => Returns (values, false, Some e)
            | None =>
                let n := length changedFields in
                if (n =? 0)%nat then Returns (values, false, None)
                else Returns (addHistory values sig changedFields, true, None)
            end
      end
  end.

Definition Audit (values : AuditableValues) (oldObj : option Obj) (newObj : Obj)
    (sig : Signature) : run (AuditableValues * bool * option error) :=
  let n := length (history values) in
  if (0 <? n)%nat && negb (bool_decide (is_Some oldObj)) then
    Returns (values, false, Some errOldObjNil)
  else
    let tLatestAudit := timestamp (signature (nth (n - 1) (history values) zeroHistory)) in
    if (0 <? n)%nat && negb (Time.After (timestamp sig) tLatestAudit) then
      Returns (values, false, Some (errTimestamp (timestamp sig) tLatestAudit))
    else auditFields values oldObj newObj sig.

(** The loop over the fields of one entry in [RollbackTo]. *)
Definition undoFields (entry : list Field) (currentFields : list Field) : list Field :=
  fold_left
    (fun currentFields field =>
       if isFieldRemoved (Value field)
       then fieldSlice.Remove currentFields (Name field)
       else fieldSlice.Set_ currentFields (Name field) (Value field))
    entry currentFields.

(** The loop [for i := len(values.history) - 1; i > 0; i--] of [RollbackTo],
    entered with [i]. *)
Fixpoint rollbackFrom (values : AuditableValues) (isRolledBack : bool)
    (tRollback t : Time) (i : nat) (currentFields : list Field) : list Field :=
  match i with
  | O => currentFields
  | S j =>
      let history := nth i (history values) zeroHistory in
      let tHistory := timestamp (signature history) in
      if isRolledBack && Time.After tHistory tRollback then
        rollbackFrom values isRolledBack tRollback t j currentFields
      else if negb (Time.After tHistory t) then
        rollbackFrom values isRolledBack tRollback t j currentFields
      else
        rollbackFrom values isRolledBack tRollback t j
          (undoFields (fields history) currentFields)
  end.

Definition errEmptyHistory : error := Errorf "invalid state: empty history" [].

Definition errRollbackOrder (tRollback t : Time) : error :=
  Errorf "object is already rolled back to a timestamp earlier than t (tRollback: %s, t: %s)"
    [ArgTime tRollback; ArgTime t].

(** [RollbackTo]: the object as the call leaves it, and the error. *)
Definition RollbackTo (values : AuditableValues) (obj : Obj) (t : Time) : Obj * option error :=
  if (length (history values) =? 0)%nat then (obj, Some errEmptyHistory)
  else
    let tCreation := timestamp (signature (nth 0 (history values) zeroHistory)) in
    if Time.Before t tCreation then (obj, Some ErrDidNotExist)
    else
      let '(_currentFields, tRollback, err) := GetFields obj in
      match err with
      | Some e => (obj, Some (Wrapf "error rolling back object: %w" e))
      | None =>
          let currentFields := elems _currentFields in
          let isRolledBack := negb (Time.IsZero tRollback) in
          if isRolledBack && Time.Before tRollback t then
            (obj, Some (errRollbackOrder tRollback t))
          else
            let currentFields :=
              rollbackFrom values isRolledBack tRollback t
                (length (history values) - 1) currentFields in
            SetFields obj currentFields t
      end.

End Engine.

(** *** The codec of the history *)

(** The conversions [byte(v)] of a [magicValue] and [magicValue(v)] of a
    byte. *)
Definition byteOfMagic (v : magicValue) : Z := v mod 256.
Definition magicOfByte (v : Z) : magicValue := if v <? 128 then v else v - 256.

(** The names of the fields of the history, each once, collected by the two
    loops at the head of [SerializeTo]. *)
Definition collectNames (entries : list auditHistory) : list string :=
  fold_left
    (fun fieldNames obj =>
       fold_left
         (fun fieldNames field =>
            if negb (stringSlice.Contains fieldNames (Name field))
            then fieldNames ++ [Name field] else fieldNames)
         (fields obj) fieldNames)
    entries [].

(** The type switch of [SerializeTo] on the value of a field. A write to the
    buffer does not fail, so the errors of the writes, which some cases of
    the switch assign to a variable of their own, are not represented; the
    one error is that of a value of no supported type. *)
Definition writeValue (w : bufrw.Writer) (v : value) : option error * bufrw.Writer :=
  match v with
  | VMagic v => (None, bufrw.write (bufrw.write w (TByte 0)) (TByte (byteOfMagic v)))
  | VString v => (None, bufrw.write (bufrw.write w (TByte 1)) (TString v))
  | VBool v => (None, bufrw.write (bufrw.write w (TByte 2)) (TBool v))
  | VInt v => (None, bufrw.write (bufrw.write w (TByte 3)) (TInt v))
  | VInt64 v => (None, bufrw.write (bufrw.write w (TByte 4)) (TInt64 v))
  | VFloat64 v => (None, bufrw.write (bufrw.write w (TByte 5)) (TFloat64 v))
  | VStrings v => (None, bufrw.write (bufrw.write w (TByte 6)) (TStrings v))
  | VBools v => (None, bufrw.write (bufrw.write w (TByte 7)) (TBools v))
  | VInts v => (None, bufrw.write (bufrw.write w (TByte 8)) (TInts v))
  | VInt64s v => (None, bufrw.write (bufrw.write w (TByte 9)) (TInt64s v))
  | VFloat64s v => (None, bufrw.write (bufrw.write w (TByte 10)) (TFloat64s v))
  | VBytes v => (None, bufrw.write (bufrw.write w (TByte 11)) (TBytes v))
  | VUnsupported type =>
      (Some (Errorf "cannot serialize value of type %T" [ArgType type]), w)
  end.

(** The loop of [SerializeTo] over the fields of an entry. *)
Fixpoint writeFields (fieldNames : list string) (w : bufrw.Writer) (fs : list Field)
  : option error * bufrw.Writer :=
  match fs with
  | [] => (None, w)
  | field :: rest =>
      let nameIndex := stringSlice.IndexOf fieldNames (Name field) in
      let w := bufrw.write w (TInt nameIndex) in
      match writeValue w (Value field) with
      | (Some e, w) => (Some e, w)
      | (None, w) => writeFields fieldNames w rest
      end
  end.

(** The loop of [SerializeTo] over the history. *)
Fixpoint writeHistory (fieldNames : list string) (w : bufrw.Writer)
    (entries : list auditHistory) : option error * bufrw.Writer :=
  match entries with
  | [] => (None, w)
  | obj :: rest =>
      match Signature.SerializeToBufRW (signature obj) w with
      | (Some e, w) => (Some e, w)
      | (None, w) =>
          let nFields := Z.of_nat (length (fields obj)) in
          let w := bufrw.write w (TInt nFields) in
          match writeFields fieldNames w (fields obj) with
          | (Some e, w) => (Some e, w)
          | (None, w) => writeHistory fieldNames w rest
          end
      end
  end.

Definition SerializeTo (values : AuditableValues) (w : bufrw.Writer)
  : option error * bufrw.Writer :=
  let w := bufrw.write w (TByte 1) in
  let fieldNames := collectNames (history values) in
  let w := bufrw.write w (TInt (Z.of_nat (length fieldNames))) in
  let w := fold_left (fun w key => bufrw.write w (TString key)) fieldNames w in
  let w := bufrw.write w (TInt (Z.of_nat (length (history values)))) in
  writeHistory fieldNames w (history values).

Definition Serialize (values : AuditableValues) : option (list token) * option error :=
  match SerializeTo values [] with
  | (Some e, _) => (None, Some e)
  | (None, b) => (Some b, None)
  end.

(** [make([]T, n)]. *)
Definition make {A : Type} (zero : A) (n : Z) : run (list A) :=
  if n <? 0 then Panics "runtime error: makeslice: len out of range"
  else Returns (replicate (Z.to_nat n) zero).

(** [slice[index]]. *)
Definition index {A : Type} (slice : list A) (i : Z) : run A :=
  if (i <? 0) || (Z.of_nat (length slice) <=? i)
  then Panics "runtime error: index out of range"
  else match slice !! Z.to_nat i with
       | Some x => Returns x
       | None => Panics "runtime error: index out of range"
       end.

(** The loop [for i := 0; i < nFieldNames; i++] of [DeserializeFrom], with
    [count] rounds left. *)
Fixpoint readNames (count i : nat) (fieldNames : list string) (r : bufrw.Reader)
  : list string * option error * bufrw.Reader :=
  match count with
  | O => (fieldNames, None, r)
  | S count =>
      let '(key, err, r) := bufrw.ReadString r in
      match err with
      | Some e => (fieldNames, Some e, r)
      | None => readNames count (S i) (<[i := key]> fieldNames) r
      end
  end.

(** The type tag and the payload of a field: the value, and the error the
    body of the loop returns with. The error of the read of the tag is
    looked at only after the switch. *)
Definition readValue (r : bufrw.Reader) : value * option error * bufrw.Reader :=
  let '(valueType, err, r) := bufrw.ReadByteValue r in
  match valueType with
  | 0 =>
      let '(v, err', r) := bufrw.ReadByteValue r in
      match err' with
      | Some e => (VUnsupported "<nil>", Some e, r)
      | None => (VMagic (magicOfByte v), err, r)
      end
  | 1 => let '(v, err, r) := bufrw.ReadString r in (VString v, err, r)
  | 2 => let '(v, err, r) := bufrw.ReadBool r in (VBool v, err, r)
  | 3 => let '(v, err, r) := bufrw.ReadInt r in (VInt v, err, r)
  | 4 => let '(v, err, r) := bufrw.ReadInt64 r in (VInt64 v, err, r)
  | 5 => let '(v, err, r) := bufrw.ReadFloat64 r in (VFloat64 v, err, r)
  | 6 => let '(v, err, r) := bufrw.ReadStrings r in (VStrings v, err, r)
  | 7 => let '(v, err, r) := bufrw.ReadBools r in (VBools v, err, r)
  | 8 => let '(v, err, r) := bufrw.ReadInts r in (VInts v, err, r)
  | 9 => let '(v, err, r) := bufrw.ReadInt64s r in (VInt64s v, err, r)
  | 10 => let '(v, err, r) := bufrw.ReadFloat64s r in (VFloat64s v, err, r)
  | 11 => let '(v, err, r) := bufrw.ReadByteValues r in (VBytes v, err, r)
  | _ =>
      (VUnsupported "<nil>",
       Some (Errorf "invalid value type: %d" [ArgInt valueType]), r)
  end.

(** The loop [for i := 0; i < nFields; i++]. *)
Fixpoint readFields (count i : nat) (fieldNames : list string) (fs : list Field)
    (r : bufrw.Reader) : run (list Field * option error * bufrw.Reader) :=
  match count with
  | O => Returns (fs, None, r)
  | S count =>
      let '(nameIndex, err, r) := bufrw.ReadInt r in
      match err with
      | Some e => Returns (fs, Some e, r)
      | None =>
          name ← index fieldNames nameIndex;
          let '(v, err, r) := readValue r in
          match err with
          | Some e => Returns (fs, Some e, r)
          | None => readFields count (S i) fieldNames (<[i := mkField name v]> fs) r
          end
      end
  end.

(** The loop [for i := 0; i < nHistory; i++], on the history of the
    receiver. *)
Fixpoint readHistory (count i : nat) (fieldNames : list string)
    (entries : list auditHistory) (r : bufrw.Reader)
  : run (list auditHistory * option error * bufrw.Reader) :=
  match count with
  | O => Returns (entries, None, r)
  | S count =>
      let '(sig, err, r) := Signature.DeserializeFromBufRW Signature.zero r in
      match err with
      | Some e => Returns (entries, Some e, r)
      | None =>
          let '(nFields, err, r) := bufrw.ReadInt r in
          match err with
          | Some e => Returns (entries, Some e, r)
          | None =>
              fs ← make zeroField nFields;
              '(fs, err, r) ← readFields (Z.to_nat nFields) 0 fieldNames fs r;
              match err with
              | Some e => Returns (entries, Some e, r)
              | None =>
                  readHistory count (S i) fieldNames
                    (<[i := mkHistory fs sig]> entries) r
              end
          end
      end
  end.

(** [DeserializeFrom]: the receiver, the error and the reader as the call
    leaves them. *)
Definition DeserializeFrom (values : AuditableValues) (r : bufrw.Reader)
  : run (AuditableValues * option error * bufrw.Reader) :=
  let '(version, err, r) := bufrw.ReadByteValue r in
  match err with
  | Some e => Returns (values, Some e, r)
  | None =>
      if negb (version =? 1) then
        Returns (values, Some (Errorf "invalid version number: %d" [ArgInt version]), r)
      else
        let '(nFieldNames, err, r) := bufrw.ReadInt r in
        match err with
        | Some e => Returns (values, Some e, r)
        | None =>
            fieldNames ← make "" nFieldNames;
            let '(fieldNames, err, r) :=
              readNames (Z.to_nat nFieldNames) 0 fieldNames r in
            match err with
            | Some e => Returns (values, Some e, r)
            | None =>
                let '(nHistory, err, r) := bufrw.ReadInt r in
                match err with
                | Some e => Returns (values, Some e, r)
                | None =>
                    entries ← make zeroHistory nHistory;
                    '(entries, err, r) ←
                      readHistory (Z.to_nat nHistory) 0 fieldNames entries r;
                    Returns (mkValues entries, err, r)
                end
            end
        end
  end.

Definition Deserialize (values : AuditableValues) (b : list token)
  : run (AuditableValues * option error) :=
  '(values, err, _) ← DeserializeFrom values b;
  Returns (values, err).

End AuditableValues.

(** * The vocabulary of the properties *)

Import AuditableValues.

(** ** Reading an object *)

(** [reads obj fs t]: [GetFields] succeeds on [obj] with the fields [fs] and
    the rollback timestamp [t]. *)
Definition reads {Obj : Type} `{AuditableObject Obj} (obj : Obj)
    (fs : option (list Field)) (t : Time) : Prop :=
  GetFields obj = (fs, t, None).

(** A live object: one that is not rolled back. *)
Definition live {Obj : Type} `{AuditableObject Obj} (obj : Obj)
    (fs : option (list Field)) : Prop :=
  exists t, reads obj fs t /\ Time.IsZero t = true.

(** The checks of [Audit] on the history pass: there is no history yet, or
    the signature is later than the latest entry. *)
Definition timely (values : AuditableValues) (sig : Signature) : Prop :=
  history values = [] \/
  Time.After (timestamp sig) (timestamp (LatestSignature values)) = true.


(** ** Field slices as finite maps *)

Definition names (s : list Field) : list string := Name <$> s.

Definition fieldPair (f : Field) : string * value := (Name f, Value f).

(** The mapping from names to values a field slice stands for; the first
    field of a name is the one [TryGet] finds. *)
Definition to_map (s : list Field) : gmap string value :=
  list_to_map (fieldPair <$> s).

(** Two values agree when they are the same or [equals] returns true on
    them. The second case adds only this: a float zero agrees with the zero
    of the other sign. *)
Definition valueAgree (v1 v2 : value) : Prop :=
  v1 = v2 \/ equals v1 v2 = Returns true.

(** A value that holds no float zero. *)
Definition noFloatZero (v : value) : Prop :=
  match v with
  | VFloat64 x => float64.isZero x = false
  | VFloat64s l => Forall (fun x => float64.isZero x = false) l
  | _ => True
  end.

(** Two mappings agree when they have the same names and the values of each
    name agree. *)
Definition mapAgree (m1 m2 : gmap string value) : Prop :=
  forall k, option_Forall2 valueAgree (m1 !! k) (m2 !! k).

(** Two field slices are equal as mappings from names to values. *)
Definition sameFields (s1 s2 : list Field) : Prop :=
  mapAgree (to_map s1) (to_map s2).

(** [undoFields] on the mapping of the current fields. *)
Definition undoMap (entry : list Field) (m : gmap string value) : gmap string value :=
  fold_left
    (fun m field =>
       if isFieldRemoved (Value field) then delete (Name field) m
       else <[Name field := Value field]> m)
    entry m.

(** ** The reverse delta *)

(** A value [equals] compares: one that is neither a magic value nor of an
    unsupported type. *)
Definition comparable (v : value) : Prop :=
  match v with
  | VMagic _ | VUnsupported _ => False
  | _ => True
  end.

(** [equals] returns true. *)
Definition equalsTrue (v1 v2 : value) : bool :=
  match equals v1 v2 with
  | Returns true => true
  | _ => false
  end.

Definition fieldRemoved (name : string) : Field :=
  mkField name (VMagic magicValueFieldRemoved).

(** The three parts of the reverse delta in the words of the specification,
    for the old fields [O] and the new fields [N]: the fields of [O] whose
    name is absent from [N], with their value; the fields of [N] whose name
    is in [O] with a differing value, with the old value; the fields of [N]
    whose name is absent from [O], with the marker. *)
Definition specRemoved (O N : list Field) : list Field :=
  flat_map
    (fun f => if bool_decide (Name f ∈ names N) then []
              else [mkField (Name f) (Value f)])
    O.

Definition specChanged (O N : list Field) : list Field :=
  flat_map
    (fun f => match to_map O !! Name f with
              | Some old =>
                  if equalsTrue old (Value f) then [] else [mkField (Name f) old]
              | None => []
              end)
    N.

Definition specAdded (O N : list Field) : list Field :=
  flat_map
    (fun f => match to_map O !! Name f with
              | Some _ => []
              | None => [fieldRemoved (Name f)]
              end)
    N.

(** The reverse delta as the specification has it: all removed fields, then
    all changed fields, then all added fields. *)
Definition specDelta (O N : list Field) : list Field :=
  specRemoved O N ++ specChanged O N ++ specAdded O N.

(** The changed and the added fields together, in the order of [N]. *)
Definition changedOrAdded (O N : list Field) : list Field :=
  flat_map
    (fun f => match to_map O !! Name f with
              | Some old =>
                  if equalsTrue old (Value f) then [] else [mkField (Name f) old]
              | None => [fieldRemoved (Name f)]
              end)
    N.

(** No field of the slice holds the marker of removal as its value. *)
Definition unmarked (s : list Field) : Prop :=
  Forall (fun f => isFieldRemoved (Value f) = false) s.

(** A state of an object the engine can follow: the names of its fields are
    unique and no field holds the marker of removal. *)
Definition wellFormed (s : list Field) : Prop :=
  NoDup (names s) /\ unmarked s.

(** ** Histories built by audits *)

(** The state audited at [t], among the states recorded with the timestamps
    of their entries: the state of the latest entry whose timestamp is not
    after [t]. *)
Definition stateAt (snaps : list (Time * list Field)) (t : Time) : option (list Field) :=
  snd <$> last (List.filter (fun s => negb (Time.After s.1 t)) snaps).

(** [audited values snaps cur]: the history [values] was built by a creation
    audit followed by update audits that returned no error, each update
    taking as its old object a live object that reports, in a slice that is
    not [nil] and in any order, the fields of the state audited before it;
    [snaps] lists, for each entry of the history, its timestamp and the
    state of the new object of the audit that appended it; [cur] is the
    state of the new object of the last audit. Every state is well formed. *)
Inductive audited {Obj : Type} `{AuditableObject Obj}
  : AuditableValues -> list (Time * list Field) -> list Field -> Prop :=
| audited_creation (newObj : Obj) (sig : Signature) (fso : option (list Field))
    (values : AuditableValues) :
    live newObj fso ->
    wellFormed (elems fso) ->
    Audit (mkValues []) None newObj sig = Returns (values, true, None) ->
    audited values [(timestamp sig, elems fso)] (elems fso)
| audited_update (values : AuditableValues) (snaps : list (Time * list Field))
    (cur ofs : list Field) (oldObj newObj : Obj) (sig : Signature)
    (fso : option (list Field)) (values' : AuditableValues) (changed : bool) :
    audited values snaps cur ->
    live oldObj (Some ofs) ->
    ofs ≡ₚ cur ->
    live newObj fso ->
    wellFormed (elems fso) ->
    Audit values (Some oldObj) newObj sig = Returns (values', changed, None) ->
    audited values'
      (if changed then snaps ++ [(timestamp sig, elems fso)] else snaps)
      (elems fso).

(** One round of the loop of [RollbackTo] over the history. *)
Definition undoStep (isRolledBack : bool) (tRollback t : Time)
    (currentFields : list Field) (h : auditHistory) : list Field :=
  let tHistory := timestamp (signature h) in
  if isRolledBack && Time.After tHistory tRollback then currentFields
  else if negb (Time.After tHistory t) then currentFields
  else undoFields (fields h) currentFields.

(** The timestamp of an entry. *)
Definition entryTime (h : auditHistory) : Time := timestamp (signature h).

(** What the loop of [RollbackTo] makes of the fields [cur] of a live
    object: the entries after the first one are gone through from the last
    one down. *)
Definition rollbackAll (values : AuditableValues) (t : Time) (cur : list Field)
  : list Field :=
  fold_left (undoStep false Time.zero t) (rev (tail (history values))) cur.

(** ** A worked history *)

(** Three states of an object with dynamic fields, and signatures one day
    and one minute apart, as the generator of the tests makes them. *)
Definition exampleSig (n : Z) : Signature :=
  NewSignature Auditor.zero (Time.Date 2000 1 (1 + n) 0 n 0 0).

Definition exampleState0 : list Field :=
  [mkField "ValueA" (VString "a1"); mkField "ValueB" (VString "b1");
   mkField "ValueC" (VString "c1")].

Definition exampleState1 : list Field :=
  [mkField "ValueA" (VString "a1"); mkField "ValueB" (VString "b2");
   mkField "ValueD" (VString "d2")].

Definition exampleState2 : list Field :=
  [mkField "ValueD" (VString "d2"); mkField "ValueC" (VString "c3");
   mkField "ValueA" (VString "a3")].

Definition exampleValues1 : AuditableValues :=
  mkValues [mkHistory [mkField "" (VMagic magicValueHistoryCreation)] (exampleSig 1)].

Definition exampleValues2 : AuditableValues :=
  mkValues
    [mkHistory [mkField "" (VMagic magicValueHistoryCreation)] (exampleSig 1);
     mkHistory [mkField "ValueC" (VString "c1"); mkField "ValueB" (VString "b1");
                mkField "ValueD" (VMagic magicValueFieldRemoved)] (exampleSig 2)].

Definition exampleValues3 : AuditableValues :=
  mkValues
    [mkHistory [mkField "" (VMagic magicValueHistoryCreation)] (exampleSig 1);
     mkHistory [mkField "ValueC" (VString "c1"); mkField "ValueB" (VString "b1");
                mkField "ValueD" (VMagic magicValueFieldRemoved)] (exampleSig 2);
     mkHistory [mkField "ValueB" (VString "b2");
                mkField "ValueC" (VMagic magicValueFieldRemoved);
                mkField "ValueA" (VString "a1")] (exampleSig 3)].

Definition exampleSnaps : list (Time * list Field) :=
  [(timestamp (exampleSig 1), exampleState0);
   (timestamp (exampleSig 2), exampleState1);
   (timestamp (exampleSig 3), exampleState2)].

(** ** The stream of a history *)

(** An auditor [NewAuditor] accepts: no component holds a slash. *)
Definition validAuditor (a : Auditor) : Prop :=
  containsSlash (kind a) = false /\ containsSlash (id a) = false.

(** A serializable signature: one of a valid auditor that [Serialize]
    accepts. *)
Definition serializable (sig : Signature) : Prop :=
  validAuditor (auditor sig) /\ (Signature.Serialize sig).2 = None.

(** A value of one of the twelve shapes of the codec; a magic value is an
    [int8]. *)
Definition supported (v : value) : Prop :=
  match v with
  | VUnsupported _ => False
  | VMagic m => -128 <= m <= 127
  | _ => True
  end.

(** A history of serializable signatures and supported values. *)
Definition encodable (values : AuditableValues) : Prop :=
  Forall
    (fun e => serializable (signature e)
              /\ Forall (fun f => supported (Value f)) (fields e))
    (history values).

(** The names of all fields of a history, in the order of the history. *)
Definition allNames (entries : list auditHistory) : list string :=
  flat_map (fun e => names (fields e)) entries.

(** The distinct elements of a list in the order of their first
    occurrence. *)
Fixpoint firstOccurrences (l : list string) : list string :=
  match l with
  | [] => []
  | x :: rest =>
      x :: List.filter (fun y => negb (bool_decide (y = x))) (firstOccurrences rest)
  end.

(** The stream of a signature, of a value, of a field written with the index
    of its name in the table, of an entry and of a history. *)
Definition signatureTokens (sig : Signature) : list token :=
  [TInt 1; TString (Auditor.Encode (auditor sig));
   TInt64 (if Time.IsZero (timestamp sig) then 0 else Time.UnixNano (timestamp sig))].

Definition valueTokens (v : value) : list token :=
  match v with
  | VMagic v => [TByte 0; TByte (byteOfMagic v)]
  | VString v => [TByte 1; TString v]
  | VBool v => [TByte 2; TBool v]
  | VInt v => [TByte 3; TInt v]
  | VInt64 v => [TByte 4; TInt64 v]
  | VFloat64 v => [TByte 5; TFloat64 v]
  | VStrings v => [TByte 6; TStrings v]
  | VBools v => [TByte 7; TBools v]
  | VInts v => [TByte 8; TInts v]
  | VInt64s v => [TByte 9; TInt64s v]
  | VFloat64s v => [TByte 10; TFloat64s v]
  | VBytes v => [TByte 11; TBytes v]
  | VUnsupported _ => []
  end.

Definition fieldTokens (table : list string) (f : Field) : list token :=
  TInt (stringSlice.IndexOf table (Name f)) :: valueTokens (Value f).

Definition entryTokens (table : list string) (e : auditHistory) : list token :=
  signatureTokens (signature e)
  ++ TInt (Z.of_nat (length (fields e)))
  :: flat_map (fieldTokens table) (fields e).

Definition historyTokens (values : AuditableValues) : list token :=
  let table := firstOccurrences (allNames (history values)) in
  TByte 1
  :: TInt (Z.of_nat (length table))
  :: map TString table
  ++ TInt (Z.of_nat (length (history values)))
  :: flat_map (entryTokens table) (history values).

(** The loop that collects the names, over a flat list of names. *)
Definition internNames (acc l : list string) : list string :=
  fold_left
    (fun fieldNames name =>
       if negb (stringSlice.Contains fieldNames name) then fieldNames ++ [name]
       else fieldNames)
    l acc.

(** A history with a value of each of the twelve shapes, the fields of an
    entry named by their position. *)
Definition exampleShapes : AuditableValues :=
  mkValues
    [mkHistory [mkField "field0" (VMagic magicValueHistoryCreation)] (exampleSig 1);
     mkHistory [mkField "field0" (VMagic magicValueFieldRemoved)] (exampleSig 2);
     mkHistory [mkField "field0" (VString "abc"); mkField "field1" (VString "def")]
       (exampleSig 3);
     mkHistory [mkField "field0" (VBool true); mkField "field1" (VBool false)]
       (exampleSig 4);
     mkHistory [mkField "field0" (VInt (-1)); mkField "field1" (VInt 0);
                mkField "field2" (VInt 1)] (exampleSig 5);
     mkHistory [mkField "field0" (VInt64 (-1)); mkField "field1" (VInt64 1)]
       (exampleSig 6);
     mkHistory [mkField "field0" (VFloat64 13832806255468478464);
                mkField "field1" (VFloat64 4609434218613702656)] (exampleSig 7);
     mkHistory [mkField "field0" (VStrings ["abc"; "def"]);
                mkField "field1" (VStrings ["123"; "456"])] (exampleSig 8);
     mkHistory [mkField "field0" (VBools [true; false])] (exampleSig 9);
     mkHistory [mkField "field0" (VInts [-1; 0; 1])] (exampleSig 10);
     mkHistory [mkField "field0" (VInt64s [-1; 0; 1])] (exampleSig 11);
     mkHistory [mkField "field0" (VFloat64s [13832806255468478464; 0])]
       (exampleSig 12);
     mkHistory [mkField "field0" (VBytes [0; 255])] (exampleSig 13)].

(** Goals on the order of timestamps, as goals on their instants. *)
Ltac time_order :=
  unfold entryTime, Time.After, Time.Before in *; simpl in *;
  repeat match goal with
         | H : (_ <? _) = true |- _ => apply Z.ltb_lt in H
         | H : (_ <? _) = false |- _ => apply Z.ltb_ge in H
         | |- (_ <? _) = true => apply Z.ltb_lt
         | |- (_ <? _) = false => apply Z.ltb_ge
         end;
  try lia.

(** ** Encoded auditors *)

(** The number of slashes of a string. *)
Fixpoint countSlash (s : string) : nat :=
  match s with
  | EmptyString => 0%nat
  | String c s' => ((if Ascii.eqb c slash then 1 else 0) + countSlash s')%nat
  end.

(** ** Timestamps of signatures *)

(** A timestamp between the two bounds of [SerializeToBufRW], both
    included. *)
Definition inBounds (t : Time) : Prop :=
  instant Signature.minAllowed <= instant t <= instant Signature.maxAllowed.

(** A timestamp the codec of signatures takes: in a zone of offset zero, and
    zero or within the bounds. *)
Definition storable (t : Time) : Prop :=
  Time.Zone t = 0 /\ (Time.IsZero t = true \/ inBounds t).

(** The signatures of a history are in strictly ascending order of their
    timestamps. *)
Definition ascending (values : AuditableValues) : Prop :=
  StronglySorted (fun t u => Time.Before t u = true) (Timestamps (Signatures values)).

(** ** Values and changes *)

(** A value that holds no NaN. *)
Definition noNaN (v : value) : Prop :=
  match v with
  | VFloat64 x => float64.isNaN x = false
  | VFloat64s l => Forall (fun x => float64.isNaN x = false) l
  | _ => True
  end.

(** A value of one of the twelve dynamic types of the codec. *)
Definition typed (v : value) : Prop :=
  match v with
  | VUnsupported _ => False
  | _ => True
  end.

(** The field [f] of the new fields meets, under its name, a field of the
    old fields [O] whose value [equals] does not compare. *)
Definition uncomparableOld (O : list Field) (f : Field) : Prop :=
  exists old, fieldSlice.TryGet O (Name f) = (old, true) /\ ~ comparable (Value old).

(** The old fields [O] and the new fields [N] have the same names, and
    [equals] returns true on the old and the new value of each name. *)
Definition unchangedFields (O N : list Field) : Prop :=
  forall k,
    option_Forall2 (fun old new => equals old new = Returns true)
      (to_map O !! k) (to_map N !! k).

(** The step from the old fields [O] to the new fields [N] touches the name
    [k]: the name is dropped, or it is new, or a field of [N] of that name
    holds a value that [equals] does not return true on against the old
    one. *)
Definition touched (O N : list Field) (k : string) : Prop :=
  (k ∈ names O /\ (k ∉ names N))
  \/ (k ∈ names N /\ (k ∉ names O))
  \/ exists f old,
       f ∈ N /\ Name f = k /\ to_map O !! k = Some old
       /\ equalsTrue old (Value f) = false.
(** * Properties *)

(** ** The checks of [Audit] *)

Lemma LatestSignature_nth values :
  history values <> [] ->
  LatestSignature values
  = signature (nth (length (history values) - 1) (history values) zeroHistory).
Proof.
  unfold LatestSignature. destruct (history values); [done|]. reflexivity.
Qed.

Lemma Audit_auditFields {Obj : Type} `{AuditableObject Obj}
    values (oldObj : option Obj) newObj sig :
  (history values = [] \/
   (is_Some oldObj /\
    Time.After (timestamp sig) (timestamp (LatestSignature values)) = true)) ->
  Audit values oldObj newObj sig = auditFields values oldObj newObj sig.
Proof.
  unfold Audit. intros [Hnil | [Hold Hafter]].
  - rewrite Hnil. reflexivity.
  - destruct (history values) as [|h rest] eqn:Hh.
    + reflexivity.
    + rewrite <- Hh. rewrite LatestSignature_nth in Hafter by (rewrite Hh; done).
      rewrite Hafter. rewrite bool_decide_eq_true_2 by done.
      rewrite !andb_false_r. reflexivity.
Qed.

Lemma auditFields_cases {Obj : Type} `{AuditableObject Obj}
    values (oldObj : option Obj) newObj sig values' changed err :
  auditFields values oldObj newObj sig = Returns (values', changed, err) ->
  (values' = values /\ changed = false) \/
  (exists delta, delta <> [] /\ err = None /\ changed = true /\
                 values' = addHistory values sig delta).
Proof.
  unfold auditFields, mbind, run_bind. intros Heq.
  repeat case_match; simplify_eq; try (left; done).
  all: right; eexists; split_and!; try done.
  all: by intros ->.
Qed.

(** C10. [Audit] is atomic on failure: whenever it returns an error (the old
    object missing, a signature that is not later than the latest entry, an
    error of [GetFields] on either object, an object that is rolled back) it
    reports no change and leaves the history as it was. *)
Theorem Audit_error_keeps_history {Obj : Type} `{AuditableObject Obj}
    (values : AuditableValues) (oldObj : option Obj) (newObj : Obj)
    (sig : Signature) (values' : AuditableValues) (changed : bool) (e : error) :
  Audit values oldObj newObj sig = Returns (values', changed, Some e) ->
  values' = values /\ changed = false.
Proof.
  unfold Audit. intros Heq.
  repeat case_match; simplify_eq; try done.
  apply auditFields_cases in Heq as [Hsame | (delta & _ & Hnone & _)]; done.
Qed.

Lemma Audit_no_history {Obj : Type} `{AuditableObject Obj}
    values (oldObj : option Obj) newObj sig :
  history values = [] ->
  Audit values oldObj newObj sig = auditFields values oldObj newObj sig.
Proof. intros Hnil. apply Audit_auditFields. by left. Qed.

Lemma Audit_untimely {Obj : Type} `{AuditableObject Obj}
    values (old : Obj) newObj sig :
  history values <> [] ->
  Time.After (timestamp sig) (timestamp (LatestSignature values)) = false ->
  Audit values (Some old) newObj sig
  = Returns (values, false,
             Some (errTimestamp (timestamp sig) (timestamp (LatestSignature values)))).
Proof.
  intros Hne Hafter. unfold Audit.
  rewrite LatestSignature_nth in * by done.
  destruct (history values) as [|h rest] eqn:Hh; [done|].
  rewrite <- Hh in *. rewrite Hafter.
  rewrite bool_decide_eq_true_2 by done.
  replace (0 <? length (history values))%nat with true
    by (rewrite Hh; reflexivity).
  reflexivity.
Qed.

(** C6. [Audit] checks its preconditions in order and fails with the stated
    messages: on a history that is not empty, a missing old object fails
    first, whatever the rest; then a signature whose timestamp is not after
    that of the latest entry fails, with both timestamps in the message,
    whatever the objects; then, the history checks passed, an old object that
    reports a rollback timestamp that is not zero fails, and last a new
    object that does. *)
Theorem Audit_precondition_errors {Obj : Type} `{AuditableObject Obj}
    (values : AuditableValues) (oldObj : option Obj) (newObj : Obj) (sig : Signature) :
  let latest := timestamp (LatestSignature values) in
  (history values <> [] -> oldObj = None ->
   Audit values oldObj newObj sig
   = Returns (values, false,
       Some (Errorf "oldObj cannot be nil when there is an audit history. Only allowed on initial audit" [])))
  /\
  (history values <> [] -> is_Some oldObj ->
   Time.After (timestamp sig) latest = false ->
   Audit values oldObj newObj sig
   = Returns (values, false,
       Some (Errorf "invalid signature timestamp: must be after latest audit timestamp (signature: %v, latest audit: %v)"
               [ArgTime (timestamp sig); ArgTime latest])))
  /\
  (forall old fs t,
     oldObj = Some old -> timely values sig ->
     reads old fs t -> Time.IsZero t = false ->
     Audit values oldObj newObj sig
     = Returns (values, false,
         Some (Errorf "cannot audit based on a rolled back object" [])))
  /\
  (forall fs t,
     (oldObj = None /\ history values = []) \/
     (exists old ofs, oldObj = Some old /\ timely values sig /\ live old ofs) ->
     reads newObj fs t -> Time.IsZero t = false ->
     Audit values oldObj newObj sig
     = Returns (values, false,
         Some (Errorf "cannot audit based on a rolled back object" []))).
Proof.
  intros latest. split_and!.
  - intros Hne ->. unfold Audit.
    destruct (history values) as [|h rest]; [done|]. reflexivity.
  - intros Hne [old ->] Hafter. by apply Audit_untimely.
  - intros old fs t -> Htimely Hreads Hzero.
    rewrite Audit_auditFields by (destruct Htimely; [by left | right; eauto]).
    unfold auditFields. rewrite Hreads, Hzero. reflexivity.
  - intros fs t Hold Hreads Hzero.
    destruct Hold as [[-> Hnil] | (old & ofs & -> & Htimely & (t0 & Hold & Hz0))].
    + rewrite Audit_no_history by done.
      unfold auditFields. rewrite Hreads, Hzero. reflexivity.
    + rewrite Audit_auditFields by (destruct Htimely; [by left | right; eauto]).
      unfold auditFields. rewrite Hold, Hz0, Hreads, Hzero. reflexivity.
Qed.

(** ** Field slices *)

Lemma indexFrom_succ i s k :
  0 <= i ->
  fieldSlice.indexFrom (i + 1) s k
  = if fieldSlice.indexFrom i s k =? -1 then -1 else fieldSlice.indexFrom i s k + 1.
Proof.
  revert i. induction s as [|f rest IH]; intros i Hi; simpl.
  - reflexivity.
  - case_bool_decide.
    + destruct (Z.eqb_spec i (-1)); [lia | reflexivity].
    + apply IH. lia.
Qed.

Lemma IndexOf_cons f rest k :
  fieldSlice.IndexOf (f :: rest) k
  = if bool_decide (Name f = k) then 0
    else if fieldSlice.IndexOf rest k =? -1 then -1
         else fieldSlice.IndexOf rest k + 1.
Proof.
  unfold fieldSlice.IndexOf. simpl. case_bool_decide; [done|].
  apply (indexFrom_succ 0). lia.
Qed.

Lemma IndexOf_range s k :
  fieldSlice.IndexOf s k = -1
  \/ 0 <= fieldSlice.IndexOf s k < Z.of_nat (length s).
Proof.
  induction s as [|f rest IH].
  - by left.
  - rewrite IndexOf_cons. simpl length.
    case_bool_decide; [right; lia|].
    destruct (Z.eqb_spec (fieldSlice.IndexOf rest k) (-1)); [by left|].
    right. lia.
Qed.

Lemma IndexOf_absent s k :
  fieldSlice.IndexOf s k = -1 <-> k ∉ names s.
Proof.
  induction s as [|f rest IH].
  - split; [intros _; apply not_elem_of_nil | done].
  - rewrite IndexOf_cons. unfold names in *. rewrite fmap_cons, not_elem_of_cons.
    case_bool_decide as Hname.
    + split; [done | intros [? _]; congruence].
    + destruct (Z.eqb_spec (fieldSlice.IndexOf rest k) (-1)) as [Heq | Hne].
      * split; [intros _; split; [congruence | by apply IH] | done].
      * pose proof (IndexOf_range rest k).
        split; [lia | intros [_ Hnot]; apply IH in Hnot; lia].
Qed.

Lemma Contains_spec s k :
  fieldSlice.Contains s k = true <-> k ∈ names s.
Proof.
  unfold fieldSlice.Contains. rewrite negb_true_iff, Z.eqb_neq.
  rewrite IndexOf_absent. split; [apply dec_stable | by intros ? ?].
Qed.

Lemma Contains_false s k :
  fieldSlice.Contains s k = false <-> k ∉ names s.
Proof. rewrite <- Contains_spec. by destruct (fieldSlice.Contains s k). Qed.

Lemma to_map_cons f rest :
  to_map (f :: rest) = <[Name f := Value f]> (to_map rest).
Proof. reflexivity. Qed.

Lemma to_map_lookup_None s k : to_map s !! k = None <-> k ∉ names s.
Proof.
  unfold to_map, names. rewrite <- not_elem_of_list_to_map.
  rewrite <- list_fmap_compose. reflexivity.
Qed.

Lemma TryGet_cons f rest k :
  fieldSlice.TryGet (f :: rest) k
  = if bool_decide (Name f = k) then (f, true) else fieldSlice.TryGet rest k.
Proof. reflexivity. Qed.

(** [TryGet] finds the field of the name that the map of the slice holds. *)
Lemma TryGet_found s k f :
  fieldSlice.TryGet s k = (f, true) ->
  to_map s !! k = Some (Value f) /\ Name f = k /\ f ∈ s.
Proof.
  induction s as [|g rest IH]; simpl; [done|].
  rewrite to_map_cons. case_bool_decide as Hname.
  - intros [= ->]. subst k. rewrite lookup_insert_eq. split_and!; [done..|left].
  - intros Hrest. rewrite lookup_insert_ne by done.
    destruct (IH Hrest) as (? & ? & ?). split_and!; [done..|by right].
Qed.

Lemma TryGet_missing s k f :
  fieldSlice.TryGet s k = (f, false) -> to_map s !! k = None /\ f = zeroField.
Proof.
  induction s as [|g rest IH]; simpl.
  - intros [= <-]. done.
  - rewrite to_map_cons. case_bool_decide as Hname; [done|].
    intros Hrest. rewrite lookup_insert_ne by done. by apply IH.
Qed.

Lemma TryGet_lookup s k :
  to_map s !! k
  = if (fieldSlice.TryGet s k).2 then Some (Value (fieldSlice.TryGet s k).1) else None.
Proof.
  destruct (fieldSlice.TryGet s k) as [f [|]] eqn:Hget; simpl.
  - by apply TryGet_found in Hget as (? & _).
  - by apply TryGet_missing in Hget as (? & _).
Qed.

Lemma TryGet_elem s f :
  NoDup (names s) -> f ∈ s -> fieldSlice.TryGet s (Name f) = (f, true).
Proof.
  induction s as [|g rest IH]; intros Hnd Hin; [by apply elem_of_nil in Hin|].
  unfold names in Hnd. rewrite fmap_cons in Hnd. apply NoDup_cons in Hnd as [Hg Hnd].
  simpl. apply elem_of_cons in Hin as [-> | Hin].
  - by rewrite bool_decide_eq_true_2.
  - case_bool_decide as Hname; [|by apply IH].
    exfalso. apply Hg. rewrite Hname. by apply list_elem_of_fmap_2.
Qed.

(** [Set_] on a slice, element by element. *)
Lemma Set_cons f rest k v :
  fieldSlice.Set_ (f :: rest) k v
  = if bool_decide (Name f = k) then mkField k v :: rest
    else f :: fieldSlice.Set_ rest k v.
Proof.
  unfold fieldSlice.Set_. rewrite IndexOf_cons.
  case_bool_decide; [reflexivity|].
  pose proof (IndexOf_range rest k) as Hr.
  destruct (Z.eqb_spec (fieldSlice.IndexOf rest k) (-1)) as [Heq | Hne].
  - reflexivity.
  - destruct (Z.eqb_spec (fieldSlice.IndexOf rest k + 1) (-1)); [lia|].
    replace (Z.to_nat (fieldSlice.IndexOf rest k + 1))
      with (S (Z.to_nat (fieldSlice.IndexOf rest k))) by lia.
    reflexivity.
Qed.

Lemma to_map_Set s k v : to_map (fieldSlice.Set_ s k v) = <[k := v]> (to_map s).
Proof.
  induction s as [|f rest IH].
  - reflexivity.
  - rewrite Set_cons. case_bool_decide as Hname.
    + rewrite !to_map_cons. simpl. subst k. by rewrite insert_insert_eq.
    + rewrite !to_map_cons, IH. by rewrite insert_insert_ne.
Qed.

Lemma names_Set s k v :
  names (fieldSlice.Set_ s k v)
  = if bool_decide (k ∈ names s) then names s else names s ++ [k].
Proof.
  induction s as [|f rest IH].
  - reflexivity.
  - rewrite Set_cons. unfold names in *. rewrite !fmap_cons.
    destruct (decide (Name f = k)) as [Hname | Hname].
    + rewrite (bool_decide_eq_true_2 (Name f = k)) by done.
      rewrite bool_decide_eq_true_2 by (rewrite Hname; left).
      simpl. by rewrite Hname.
    + rewrite (bool_decide_eq_false_2 (Name f = k)) by done.
      rewrite fmap_cons, IH.
      destruct (decide (k ∈ Name <$> rest)) as [Hin | Hnot].
      * rewrite !bool_decide_eq_true_2; [done | by right | done].
      * rewrite !bool_decide_eq_false_2; [done | | done].
        rewrite not_elem_of_cons. split; [congruence | done].
Qed.

Lemma NoDup_Set s k v : NoDup (names s) -> NoDup (names (fieldSlice.Set_ s k v)).
Proof.
  intros Hnd. rewrite names_Set. case_bool_decide as Hin; [done|].
  apply NoDup_app. split_and!; [done | | apply NoDup_singleton].
  intros x Hx ->%list_elem_of_singleton. done.
Qed.

(** [Remove] on a slice, element by element. *)
Lemma Remove_absent s k : k ∉ names s -> fieldSlice.Remove s k = s.
Proof.
  intros Hk. unfold fieldSlice.Remove.
  apply IndexOf_absent in Hk. by rewrite Hk.
Qed.

Lemma Remove_cons_ne f rest k :
  Name f <> k -> fieldSlice.Remove (f :: rest) k = f :: fieldSlice.Remove rest k.
Proof.
  intros Hname. unfold fieldSlice.Remove. rewrite IndexOf_cons.
  rewrite bool_decide_eq_false_2 by done.
  pose proof (IndexOf_range rest k) as Hr.
  destruct (Z.eqb_spec (fieldSlice.IndexOf rest k) (-1)) as [Heq | Hne]; [done|].
  destruct (Z.eqb_spec (fieldSlice.IndexOf rest k + 1) (-1)); [lia|].
  destruct Hr as [? | Hr]; [done|].
  set (j := Z.to_nat (fieldSlice.IndexOf rest k)).
  destruct rest as [|g rest']; [simpl in Hr; lia|].
  set (m := length rest').
  replace (Z.to_nat (fieldSlice.IndexOf (g :: rest') k + 1)) with (S j) by lia.
  replace (Z.to_nat (Z.of_nat (length (f :: g :: rest')) - 1)) with (S m)
    by (simpl; lia).
  replace (Z.to_nat (Z.of_nat (length (g :: rest')) - 1)) with m
    by (simpl; lia).
  reflexivity.
Qed.

Lemma Remove_cons_eq f rest k :
  Name f = k ->
  fieldSlice.Remove (f :: rest) k
  = match rest with
    | [] => []
    | _ => nth (length rest - 1) rest zeroField :: take (length rest - 1) rest
    end.
Proof.
  intros Hname. unfold fieldSlice.Remove. rewrite IndexOf_cons.
  rewrite bool_decide_eq_true_2 by done. simpl (0 =? -1).
  destruct rest as [|g rest']; [reflexivity|].
  set (m := length rest').
  replace (Z.to_nat (Z.of_nat (length (f :: g :: rest')) - 1)) with (S m)
    by (simpl; lia).
  replace (length (g :: rest') - 1)%nat with m by (simpl; lia).
  change (Z.to_nat 0) with 0%nat.
  simpl. f_equal.
  apply take_insert_ge. lia.
Qed.

Lemma take_nth_last (rest : list Field) :
  rest <> [] ->
  take (length rest - 1) rest ++ [nth (length rest - 1) rest zeroField] = rest.
Proof.
  intros Hne. destruct (exists_last Hne) as (front & x & ->).
  rewrite length_app. simpl.
  replace (length front + 1 - 1)%nat with (length front) by lia.
  rewrite take_app_length.
  rewrite app_nth2 by lia. replace (length front - length front)%nat with 0%nat by lia.
  reflexivity.
Qed.

Lemma Remove_cons_eq_perm f rest k :
  Name f = k -> fieldSlice.Remove (f :: rest) k ≡ₚ rest.
Proof.
  intros Hname. rewrite Remove_cons_eq by done.
  destruct (decide (rest = [])) as [-> | Hne]; [done|].
  transitivity (take (length rest - 1) rest ++ [nth (length rest - 1) rest zeroField]).
  - destruct rest; [done|]. apply Permutation_cons_append.
  - by rewrite take_nth_last.
Qed.

Lemma names_Remove_perm s k :
  k ∈ names s -> names s ≡ₚ k :: names (fieldSlice.Remove s k).
Proof.
  induction s as [|f rest IH]; intros Hin; [by apply elem_of_nil in Hin|].
  destruct (decide (Name f = k)) as [Hname | Hname].
  - unfold names. rewrite (Remove_cons_eq_perm f rest k Hname).
    rewrite fmap_cons. by rewrite Hname.
  - rewrite Remove_cons_ne by done. unfold names in *.
    rewrite !fmap_cons. rewrite fmap_cons in Hin.
    apply elem_of_cons in Hin as [? | Hin]; [congruence|].
    rewrite (IH Hin) at 1. apply perm_swap.
Qed.

Lemma NoDup_Remove s k :
  NoDup (names s) -> NoDup (names (fieldSlice.Remove s k)).
Proof.
  intros Hnd. destruct (decide (k ∈ names s)) as [Hin | Hnot].
  - rewrite (names_Remove_perm s k Hin) in Hnd. by apply NoDup_cons in Hnd as [_ ?].
  - by rewrite Remove_absent.
Qed.

Lemma to_map_perm s1 s2 :
  NoDup (names s1) -> s1 ≡ₚ s2 -> to_map s1 = to_map s2.
Proof.
  intros Hnd Hperm. unfold to_map. apply list_to_map_proper.
  - rewrite <- list_fmap_compose. exact Hnd.
  - by rewrite Hperm.
Qed.

Lemma to_map_Remove s k :
  NoDup (names s) -> to_map (fieldSlice.Remove s k) = delete k (to_map s).
Proof.
  induction s as [|f rest IH]; intros Hnd.
  - symmetry. apply delete_empty.
  - unfold names in Hnd. rewrite fmap_cons in Hnd.
    apply NoDup_cons in Hnd as [Hf Hnd].
    destruct (decide (Name f = k)) as [Hname | Hname].
    + rewrite to_map_cons, Hname, delete_insert_eq.
      rewrite delete_id by (apply to_map_lookup_None; by rewrite <- Hname).
      symmetry. apply to_map_perm; [done|].
      symmetry. by apply Remove_cons_eq_perm.
    + rewrite Remove_cons_ne by done.
      rewrite !to_map_cons, IH by done.
      by rewrite delete_insert_ne.
Qed.

(** ** The comparison of values *)

Lemma float64_eq_sym x y : float64.eq x y = true -> float64.eq y x = true.
Proof.
  unfold float64.eq. rewrite !andb_true_iff, !orb_true_iff, !andb_true_iff.
  rewrite !Z.eqb_eq. intuition.
Qed.

Lemma float64_eq_trans x y z :
  float64.eq x y = true -> float64.eq y z = true -> float64.eq x z = true.
Proof.
  unfold float64.eq. rewrite !andb_true_iff, !orb_true_iff, !andb_true_iff.
  rewrite !Z.eqb_eq. intros [[Hx Hy] Hxy] [[_ Hz] Hyz].
  split; [done|].
  destruct Hxy as [-> | [Hx0 Hy0]], Hyz as [<- | [Hy0' Hz0]]; auto.
Qed.

Lemma eqb_of_sym (A : Type) `{EqDecision A} (x y : A) :
  eqb_of A x y = true -> eqb_of A y x = true.
Proof. unfold eqb_of. rewrite !bool_decide_eq_true. done. Qed.

Lemma eqb_of_trans (A : Type) `{EqDecision A} (x y z : A) :
  eqb_of A x y = true -> eqb_of A y z = true -> eqb_of A x z = true.
Proof. unfold eqb_of. rewrite !bool_decide_eq_true. congruence. Qed.

Lemma Zeqb_sym x y : (x =? y) = true -> (y =? x) = true.
Proof. rewrite !Z.eqb_eq. done. Qed.

Lemma Zeqb_trans x y z : (x =? y) = true -> (y =? z) = true -> (x =? z) = true.
Proof. rewrite !Z.eqb_eq. congruence. Qed.

Section SliceEquals.
Context {A : Type} (eqb : A -> A -> bool).
Hypothesis eqb_sym : forall x y, eqb x y = true -> eqb y x = true.
Hypothesis eqb_trans :
  forall x y z, eqb x y = true -> eqb y z = true -> eqb x z = true.

Lemma sliceEquals_Forall2 v1 v2 :
  sliceEquals eqb v1 v2 = true <-> Forall2 (fun x y => eqb x y = true) v1 v2.
Proof.
  unfold sliceEquals. split.
  - destruct (Nat.eqb_spec (length v1) (length v2)) as [Hlen | Hlen]; [|done].
    simpl. revert v2 Hlen. induction v1 as [|x v1 IH]; intros [|y v2] Hlen; simpl in *;
      try done.
    destruct (eqb x y) eqn:Hxy; [|done]. simpl. intros Hrest.
    constructor; [done|]. apply IH; [lia | done].
  - intros Hall. rewrite (Forall2_length _ _ _ Hall), Nat.eqb_refl. simpl.
    induction Hall as [|x y v1 v2 Hxy _ IH]; simpl; [done|]. by rewrite Hxy.
Qed.

Lemma sliceEquals_sym v1 v2 :
  sliceEquals eqb v1 v2 = true -> sliceEquals eqb v2 v1 = true.
Proof.
  rewrite !sliceEquals_Forall2. intros Hall. apply Forall2_flip.
  eapply Forall2_impl; [exact Hall|]. auto.
Qed.

Lemma sliceEquals_trans v1 v2 v3 :
  sliceEquals eqb v1 v2 = true -> sliceEquals eqb v2 v3 = true ->
  sliceEquals eqb v1 v3 = true.
Proof.
  rewrite !sliceEquals_Forall2. intros H12 H23.
  eapply Forall2_trans; [|exact H12|exact H23]. eauto.
Qed.

End SliceEquals.

Lemma equals_sym v1 v2 :
  equals v1 v2 = Returns true -> equals v2 v1 = Returns true.
Proof.
  destruct v1, v2; simpl; try done; intros [= Heq]; f_equal.
  - by apply eqb_of_sym.
  - by apply eqb_of_sym.
  - by apply Zeqb_sym.
  - by apply Zeqb_sym.
  - by apply float64_eq_sym.
  - revert Heq. apply sliceEquals_sym, eqb_of_sym.
  - revert Heq. apply sliceEquals_sym, eqb_of_sym.
  - revert Heq. apply sliceEquals_sym, Zeqb_sym.
  - revert Heq. apply sliceEquals_sym, Zeqb_sym.
  - revert Heq. apply sliceEquals_sym, float64_eq_sym.
  - revert Heq. apply sliceEquals_sym, Zeqb_sym.
Qed.

Lemma equals_trans v1 v2 v3 :
  equals v1 v2 = Returns true -> equals v2 v3 = Returns true ->
  equals v1 v3 = Returns true.
Proof.
  destruct v1, v2; simpl; try done; destruct v3; simpl; try done;
    intros [= H12] [= H23]; f_equal.
  - by eapply eqb_of_trans.
  - by eapply eqb_of_trans.
  - by eapply Zeqb_trans.
  - by eapply Zeqb_trans.
  - by eapply float64_eq_trans.
  - eapply sliceEquals_trans; [apply eqb_of_trans|exact H12|exact H23].
  - eapply sliceEquals_trans; [apply eqb_of_trans|exact H12|exact H23].
  - eapply sliceEquals_trans; [apply Zeqb_trans|exact H12|exact H23].
  - eapply sliceEquals_trans; [apply Zeqb_trans|exact H12|exact H23].
  - eapply sliceEquals_trans; [apply float64_eq_trans|exact H12|exact H23].
  - eapply sliceEquals_trans; [apply Zeqb_trans|exact H12|exact H23].
Qed.

Lemma valueAgree_refl v : valueAgree v v.
Proof. by left. Qed.

Lemma valueAgree_sym v1 v2 : valueAgree v1 v2 -> valueAgree v2 v1.
Proof. intros [-> | Heq]; [by left | right; by apply equals_sym]. Qed.

Lemma valueAgree_trans v1 v2 v3 :
  valueAgree v1 v2 -> valueAgree v2 v3 -> valueAgree v1 v3.
Proof.
  intros [-> | H12] [<- | H23]; try (by left); try (by right).
  right. by eapply equals_trans.
Qed.

Lemma mapAgree_refl m : mapAgree m m.
Proof. intros k. destruct (m !! k); constructor. apply valueAgree_refl. Qed.

Lemma mapAgree_trans m1 m2 m3 : mapAgree m1 m2 -> mapAgree m2 m3 -> mapAgree m1 m3.
Proof.
  intros H12 H23 k. specialize (H12 k). specialize (H23 k).
  destruct H12; inversion H23; subst; constructor.
  by eapply valueAgree_trans.
Qed.

(** ** The reverse delta computed by [getHistoryFields] *)

Lemma equals_comparable v1 v2 :
  comparable v1 -> equals v1 v2 = Returns (equalsTrue v1 v2).
Proof.
  unfold equalsTrue. destruct v1; simpl; try done; intros _.
  all: by match goal with |- Returns ?b = _ => destruct b end.
Qed.

Lemma filter_specRemoved O N :
  List.filter (fun field => negb (fieldSlice.Contains N (Name field))) O
  = specRemoved O N.
Proof.
  unfold specRemoved. induction O as [|f rest IH]; simpl; [done|].
  rewrite IH. destruct (fieldSlice.Contains N (Name f)) eqn:Hc; simpl.
  - apply Contains_spec in Hc. by rewrite bool_decide_eq_true_2.
  - apply Contains_false in Hc. rewrite bool_decide_eq_false_2 by done.
    by destruct f.
Qed.

Lemma addedOrUpdated_spec O N acc :
  Forall (fun f => comparable (Value f)) O ->
  addedOrUpdated O N acc = Returns (acc ++ changedOrAdded O N).
Proof.
  intros Hcmp. unfold changedOrAdded.
  revert acc. induction N as [|f rest IH]; intros acc; simpl.
  - by rewrite app_nil_r.
  - rewrite TryGet_lookup.
    destruct (fieldSlice.TryGet O (Name f)) as [oldField [|]] eqn:Hget; simpl.
    + apply TryGet_found in Hget as (_ & Hname & Hin).
      rewrite Forall_forall in Hcmp.
      rewrite (equals_comparable _ _ (Hcmp _ Hin)). simpl.
      destruct (equalsTrue (Value oldField) (Value f)); simpl.
      * apply IH.
      * rewrite IH, <- app_assoc. simpl. rewrite <- Hname. by destruct oldField.
    + rewrite IH, <- app_assoc. reflexivity.
Qed.

Lemma getHistoryFields_spec O N :
  Forall (fun f => comparable (Value f)) O ->
  getHistoryFields (Some O) N
  = Returns (specRemoved O (elems N) ++ changedOrAdded O (elems N), None).
Proof.
  intros Hcmp. unfold getHistoryFields.
  rewrite filter_specRemoved, addedOrUpdated_spec by done. reflexivity.
Qed.

Lemma changedOrAdded_perm O N :
  changedOrAdded O N ≡ₚ specChanged O N ++ specAdded O N.
Proof.
  unfold changedOrAdded, specChanged, specAdded.
  induction N as [|f rest IH]; simpl; [done|].
  rewrite IH. destruct (to_map O !! Name f) as [old|]; simpl.
  - by rewrite <- app_assoc.
  - by rewrite Permutation_middle.
Qed.

(** C2. For old fields [O] that are not [nil] and hold values [equals]
    compares, the reverse delta is the fields of [O] whose name is absent
    from [N], each with its old value, followed by one entry for each changed
    or added field of [N] in the order of [N]: the old value for a name that
    is in [O] with a differing value, the marker of removal for a name that
    is absent from [O]. It has the entries of the three parts the
    specification lists, with the changed and the added ones interleaved. *)
Theorem getHistoryFields_order (O : list Field) (N : option (list Field)) :
  Forall (fun f => comparable (Value f)) O ->
  getHistoryFields (Some O) N
  = Returns (specRemoved O (elems N) ++ changedOrAdded O (elems N), None)
  /\ specRemoved O (elems N) ++ changedOrAdded O (elems N) ≡ₚ specDelta O (elems N).
Proof.
  intros Hcmp. split.
  - by apply getHistoryFields_spec.
  - unfold specDelta. by rewrite changedOrAdded_perm.
Qed.

(** A new slice in which an added field comes before a changed one: the
    marker of the added field comes first in the reverse delta, where the
    specification puts the changed field first. *)
Lemma getHistoryFields_order_counterexample :
  let O := [mkField "b" (VInt 1)] in
  let N := [mkField "d" (VInt 7); mkField "b" (VInt 2)] in
  getHistoryFields (Some O) (Some N)
  = Returns ([mkField "d" (VMagic magicValueFieldRemoved); mkField "b" (VInt 1)], None)
  /\ specDelta O N = [mkField "b" (VInt 1); mkField "d" (VMagic magicValueFieldRemoved)]
  /\ getHistoryFields (Some O) (Some N) <> Returns (specDelta O N, None).
Proof. vm_compute. split_and!; [reflexivity | reflexivity | discriminate]. Qed.

Lemma getHistoryFields_order_witness :
  let O := [mkField "A" (VString "a1"); mkField "B" (VString "b1");
            mkField "C" (VString "c1")] in
  let N := [mkField "D" (VString "d2"); mkField "B" (VString "b2");
            mkField "A" (VString "a1")] in
  Forall (fun f => comparable (Value f)) O
  /\ getHistoryFields (Some O) (Some N)
     = Returns ([mkField "C" (VString "c1"); fieldRemoved "D"; mkField "B" (VString "b1")],
                None).
Proof.
  intros O N.
  assert (Hcmp : Forall (fun f => comparable (Value f)) O)
    by (repeat constructor).
  split; [exact Hcmp|].
  destruct (getHistoryFields_order O (Some N) Hcmp) as [Heq _].
  rewrite Heq. vm_compute. reflexivity.
Defined.

(** ** Undoing an entry *)

Lemma undoFields_map entry cur :
  NoDup (names cur) ->
  NoDup (names (undoFields entry cur))
  /\ to_map (undoFields entry cur) = undoMap entry (to_map cur).
Proof.
  unfold undoFields, undoMap.
  revert cur. induction entry as [|f rest IH]; intros cur Hnd; simpl; [done|].
  destruct (isFieldRemoved (Value f)).
  - rewrite <- to_map_Remove by done. apply IH. by apply NoDup_Remove.
  - rewrite <- to_map_Set. apply IH. by apply NoDup_Set.
Qed.

Lemma undoMap_app e1 e2 m : undoMap (e1 ++ e2) m = undoMap e2 (undoMap e1 m).
Proof. unfold undoMap. apply fold_left_app. Qed.

Lemma undoMap_other entry m k :
  k ∉ names entry -> undoMap entry m !! k = m !! k.
Proof.
  unfold undoMap. revert m. induction entry as [|f rest IH]; intros m Hk; simpl; [done|].
  unfold names in *. rewrite fmap_cons in Hk. apply not_elem_of_cons in Hk as [Hne Hk].
  rewrite IH by done.
  destruct (isFieldRemoved (Value f)).
  - by rewrite lookup_delete_ne.
  - by rewrite lookup_insert_ne.
Qed.

Lemma undoMap_last e1 f e2 m :
  Name f ∉ names e2 ->
  undoMap (e1 ++ f :: e2) m !! Name f
  = if isFieldRemoved (Value f) then None else Some (Value f).
Proof.
  intros Hk. rewrite undoMap_app. change (f :: e2) with ([f] ++ e2).
  rewrite undoMap_app, undoMap_other by done. simpl.
  destruct (isFieldRemoved (Value f)).
  - apply lookup_delete_eq.
  - apply lookup_insert_eq.
Qed.

Lemma names_app s1 s2 : names (s1 ++ s2) = names s1 ++ names s2.
Proof. apply fmap_app. Qed.

Lemma names_specRemoved O N k :
  k ∈ names (specRemoved O N) -> k ∈ names O /\ k ∉ names N.
Proof.
  unfold specRemoved. induction O as [|f rest IH]; simpl.
  - intros Hin. by apply elem_of_nil in Hin.
  - rewrite names_app. intros Hin. apply elem_of_app in Hin as [Hin | Hin].
    + case_bool_decide as HN; simpl in Hin; [by apply elem_of_nil in Hin|].
      apply list_elem_of_singleton in Hin as ->. split; [left | done].
    + destruct (IH Hin). split; [by right | done].
Qed.

Lemma names_changedOrAdded O N k :
  k ∈ names (changedOrAdded O N) -> k ∈ names N.
Proof.
  unfold changedOrAdded. induction N as [|f rest IH]; simpl.
  - intros Hin. by apply elem_of_nil in Hin.
  - rewrite names_app. intros Hin.
    apply elem_of_app in Hin as [Hin | Hin]; [|right; by apply IH].
    assert (k = Name f) as ->; [|left].
    destruct (to_map O !! Name f) as [old|];
      [destruct (equalsTrue old (Value f))|]; simpl in Hin.
    + by apply elem_of_nil in Hin.
    + by apply list_elem_of_singleton in Hin.
    + by apply list_elem_of_singleton in Hin.
Qed.

Lemma specRemoved_app O1 O2 N :
  specRemoved (O1 ++ O2) N = specRemoved O1 N ++ specRemoved O2 N.
Proof. unfold specRemoved. apply flat_map_app. Qed.

Lemma changedOrAdded_app O N1 N2 :
  changedOrAdded O (N1 ++ N2) = changedOrAdded O N1 ++ changedOrAdded O N2.
Proof. unfold changedOrAdded. apply flat_map_app. Qed.

Lemma to_map_lookup_elem s f :
  NoDup (names s) -> f ∈ s -> to_map s !! Name f = Some (Value f).
Proof.
  intros Hnd Hin. rewrite TryGet_lookup, (TryGet_elem s f Hnd Hin). done.
Qed.

Lemma names_split s k :
  k ∈ names s -> NoDup (names s) ->
  exists s1 f s2,
    s = s1 ++ f :: s2 /\ Name f = k /\ (k ∉ names s1) /\ (k ∉ names s2).
Proof.
  intros Hin Hnd. unfold names in Hin.
  apply list_elem_of_fmap in Hin as (f & -> & Hin).
  apply list_elem_of_split in Hin as (s1 & s2 & ->).
  exists s1, f, s2. rewrite names_app in Hnd. simpl in Hnd.
  apply NoDup_app in Hnd as (_ & Hdisj & Hnd2).
  apply NoDup_cons in Hnd2 as [Hf _].
  split_and!; [done..| |done].
  intros H1. apply (Hdisj _ H1). left.
Qed.


Lemma to_map_lookup_Some s k v :
  to_map s !! k = Some v -> exists f, f ∈ s /\ Name f = k /\ Value f = v.
Proof.
  rewrite TryGet_lookup.
  destruct (fieldSlice.TryGet s k) as [f [|]] eqn:Hget; simpl; [|done].
  intros [= <-]. apply TryGet_found in Hget as (_ & ? & ?). eauto.
Qed.

Lemma equalsTrue_agree v1 v2 : equalsTrue v1 v2 = true -> valueAgree v1 v2.
Proof.
  unfold equalsTrue. intros Heq. right.
  destruct (equals v1 v2) as [[|]|]; done.
Qed.

(** Undoing the reverse delta of a change from [O] to [N] on fields that
    agree with [N] gives fields that agree with [O]. *)
Lemma undoMap_delta O N m :
  NoDup (names O) -> NoDup (names N) -> unmarked O ->
  mapAgree m (to_map N) ->
  mapAgree (undoMap (specRemoved O N ++ changedOrAdded O N) m) (to_map O).
Proof.
  intros HO HN Hum Hm k.
  destruct (decide (k ∈ names N)) as [HkN | HkN].
  - destruct (names_split N k HkN HN) as (N1 & g & N2 & -> & Hg & Hk1 & Hk2).
    assert (HgN : to_map (N1 ++ g :: N2) !! k = Some (Value g)).
    { rewrite <- Hg. apply to_map_lookup_elem; [done|].
      apply elem_of_app. right. left. }
    assert (Hch2 : k ∉ names (changedOrAdded O N2))
      by (intros Hin; by apply names_changedOrAdded in Hin).
    assert (Hch1 : k ∉ names (changedOrAdded O N1))
      by (intros Hin; by apply names_changedOrAdded in Hin).
    assert (Hrem : k ∉ names (specRemoved O (N1 ++ g :: N2)))
      by (intros Hin; apply names_specRemoved in Hin as [_ Hin]; done).
    rewrite changedOrAdded_app. change (g :: N2) with ([g] ++ N2).
    rewrite changedOrAdded_app. unfold changedOrAdded at 2. simpl.
    rewrite app_nil_r, Hg.
    destruct (to_map O !! k) as [old|] eqn:HOk.
    + destruct (equalsTrue old (Value g)) eqn:Heq; simpl.
      * rewrite undoMap_other.
        2:{ rewrite !names_app, !not_elem_of_app. done. }
        specialize (Hm k). rewrite HgN in Hm. inversion Hm as [v ? Hv|]; subst.
        constructor. eapply valueAgree_trans; [exact Hv|].
        apply valueAgree_sym. by apply equalsTrue_agree.
      * rewrite !app_assoc.
        pose proof (undoMap_last (specRemoved O (N1 ++ [g] ++ N2) ++ changedOrAdded O N1)
                      (mkField k old) (changedOrAdded O N2) m Hch2) as Hlast.
        simpl in Hlast. rewrite <- !app_assoc in *. simpl. simpl in Hlast.
        rewrite Hlast.
        apply to_map_lookup_Some in HOk as (f & Hf & _ & <-).
        unfold unmarked in Hum. rewrite Forall_forall in Hum.
        rewrite (Hum f Hf). constructor. apply valueAgree_refl.
    + simpl.
      pose proof (undoMap_last (specRemoved O (N1 ++ [g] ++ N2) ++ changedOrAdded O N1)
                    (fieldRemoved k) (changedOrAdded O N2) m Hch2) as Hlast.
      simpl in Hlast. rewrite <- !app_assoc in *. simpl. rewrite Hlast. constructor.
  - assert (Hch : k ∉ names (changedOrAdded O N))
      by (intros Hin; by apply names_changedOrAdded in Hin).
    assert (HNk : to_map N !! k = None) by (by apply to_map_lookup_None).
    destruct (decide (k ∈ names O)) as [HkO | HkO].
    + destruct (names_split O k HkO HO) as (O1 & f & O2 & HOeq & Hf & Hk1 & Hk2).
      assert (Hrem : specRemoved O N
                     = specRemoved O1 N ++ mkField k (Value f) :: specRemoved O2 N).
      { rewrite HOeq. change (f :: O2) with ([f] ++ O2). rewrite !specRemoved_app.
        unfold specRemoved at 2. simpl. rewrite app_nil_r, Hf.
        by rewrite bool_decide_eq_false_2. }
      assert (Htail : k ∉ names (specRemoved O2 N ++ changedOrAdded O N)).
      { rewrite names_app, not_elem_of_app. split; [|done].
        intros Hin. apply names_specRemoved in Hin as [Hin _]. done. }
      pose proof (undoMap_last (specRemoved O1 N) (mkField k (Value f))
                    (specRemoved O2 N ++ changedOrAdded O N) m Htail) as Hlast.
      simpl in Hlast. rewrite Hrem, <- !app_assoc. simpl. rewrite Hlast.
      assert (Hfin : f ∈ O) by (rewrite HOeq; apply elem_of_app; right; left).
      unfold unmarked in Hum. rewrite Forall_forall in Hum. rewrite (Hum f Hfin).
      rewrite <- Hf. rewrite to_map_lookup_elem by done.
      constructor. apply valueAgree_refl.
    + rewrite undoMap_other.
      2:{ rewrite names_app, not_elem_of_app. split; [|done].
          intros Hin. apply names_specRemoved in Hin as [Hin _]. done. }
      specialize (Hm k). rewrite HNk in Hm. inversion Hm.
      rewrite (proj2 (to_map_lookup_None O k) HkO). constructor.
Qed.

(** ** The loop of [RollbackTo] *)

Lemma rollbackFrom_fold first rest post b tR t cur :
  rollbackFrom (mkValues (first :: rest ++ post)) b tR t (length rest) cur
  = fold_left (undoStep b tR t) (rev rest) cur.
Proof.
  revert post cur. induction rest as [|h rest IH] using rev_ind; intros post cur.
  - reflexivity.
  - rewrite length_app, Nat.add_comm. simpl length. simpl plus.
    rewrite rev_unit. simpl fold_left.
    rewrite <- IH with (post := h :: post).
    unfold rollbackFrom at 1. fold rollbackFrom. simpl history.
    replace (nth (S (length rest)) (first :: (rest ++ [h]) ++ post) zeroHistory) with h.
    2:{ simpl. rewrite <- app_assoc. rewrite app_nth2 by lia.
        by rewrite Nat.sub_diag. }
    rewrite <- app_assoc. simpl app. unfold undoStep.
    by repeat case_match.
Qed.

Lemma RollbackTo_live {Obj : Type} `{AuditableObject Obj}
    first rest (obj : Obj) fso t :
  live obj fso ->
  Time.Before t (entryTime first) = false ->
  RollbackTo (mkValues (first :: rest)) obj t
  = SetFields obj (fold_left (undoStep false Time.zero t) (rev rest) (elems fso)) t.
Proof.
  intros (tz & Hreads & Hzero) Hbefore. unfold RollbackTo. simpl history.
  simpl length. simpl nth. unfold entryTime in Hbefore. rewrite Hbefore.
  unfold reads in Hreads. rewrite Hreads, Hzero. simpl negb. simpl andb.
  replace (S (length rest) - 1)%nat with (length rest) by lia.
  pose proof (rollbackFrom_fold first rest [] false tz t (elems fso)) as Hfold.
  rewrite app_nil_r in Hfold. rewrite Hfold.
  f_equal.
Qed.

Lemma undoStep_skip_all entries t cur :
  Forall (fun h => Time.After (entryTime h) t = false) entries ->
  fold_left (undoStep false Time.zero t) entries cur = cur.
Proof.
  intros Hall. induction Hall as [|h rest Hh _ IH]; simpl; [done|].
  unfold undoStep at 2. simpl. unfold entryTime in Hh. by rewrite Hh.
Qed.

Lemma stateAt_snoc snaps ts st t :
  stateAt (snaps ++ [(ts, st)]) t
  = if Time.After ts t then stateAt snaps t else Some st.
Proof.
  unfold stateAt. rewrite List.filter_app. simpl.
  destruct (Time.After ts t); simpl.
  - by rewrite app_nil_r.
  - by rewrite last_snoc.
Qed.

(** ** Audits that succeed *)

Lemma addedOrUpdated_returns O N acc r :
  addedOrUpdated O N acc = Returns r -> r = acc ++ changedOrAdded O N.
Proof.
  unfold changedOrAdded.
  revert acc. induction N as [|f rest IH]; intros acc; simpl.
  - intros [= <-]. by rewrite app_nil_r.
  - rewrite TryGet_lookup.
    destruct (fieldSlice.TryGet O (Name f)) as [oldField [|]] eqn:Hget; simpl.
    + apply TryGet_found in Hget as (_ & Hname & _).
      unfold equalsTrue, mbind, run_bind.
      destruct (equals (Value oldField) (Value f)) as [[|]|]; simpl; [| |done].
      * apply IH.
      * intros Hr. apply IH in Hr. rewrite Hr, <- app_assoc. simpl.
        rewrite <- Hname. by destruct oldField.
    + intros Hr. apply IH in Hr. by rewrite Hr, <- app_assoc.
Qed.

Lemma getHistoryFields_returns O N delta err :
  getHistoryFields (Some O) N = Returns (delta, err) ->
  err = None /\ delta = specRemoved O (elems N) ++ changedOrAdded O (elems N).
Proof.
  unfold getHistoryFields, mbind, run_bind. rewrite filter_specRemoved.
  destruct (addedOrUpdated _ _ _) as [r|] eqn:Hr; [|done].
  intros [= <- <-]. split; [done|]. by apply addedOrUpdated_returns in Hr.
Qed.

Lemma auditFields_live {Obj : Type} `{AuditableObject Obj}
    values (oldObj newObj : Obj) sig ofs nfs :
  live oldObj ofs -> live newObj nfs ->
  auditFields values (Some oldObj) newObj sig
  = '(changedFields, err) ← getHistoryFields ofs nfs;
    match err with
    | Some e => Returns (values, false, Some e)
    | None =>
        if (length changedFields =? 0)%nat then Returns (values, false, None)
        else Returns (addHistory values sig changedFields, true, None)
    end.
Proof.
  intros (t1 & Hr1 & Hz1) (t2 & Hr2 & Hz2). unfold auditFields.
  unfold reads in *. rewrite Hr1, Hz1, Hr2, Hz2. reflexivity.
Qed.

(** An update audit that returns no error was given a signature later than
    the latest entry, and appended the reverse delta when that is not empty. *)
Lemma Audit_update_returns {Obj : Type} `{AuditableObject Obj}
    values (oldObj newObj : Obj) sig O nfs values' changed :
  history values <> [] ->
  live oldObj (Some O) -> live newObj nfs ->
  Audit values (Some oldObj) newObj sig = Returns (values', changed, None) ->
  let delta := specRemoved O (elems nfs) ++ changedOrAdded O (elems nfs) in
  Time.After (timestamp sig) (timestamp (LatestSignature values)) = true
  /\ ((delta = [] /\ changed = false /\ values' = values)
      \/ (delta <> [] /\ changed = true /\ values' = addHistory values sig delta)).
Proof.
  intros Hne Hold Hnew Haudit delta.
  destruct (Time.After (timestamp sig) (timestamp (LatestSignature values))) eqn:Hafter.
  2:{ rewrite Audit_untimely in Haudit by done. done. }
  split; [done|].
  rewrite Audit_auditFields in Haudit by (right; eauto).
  rewrite (auditFields_live _ _ _ _ _ _ Hold Hnew) in Haudit.
  unfold mbind, run_bind in Haudit.
  destruct (getHistoryFields (Some O) nfs) as [[d e]|] eqn:Hd; [|done].
  apply getHistoryFields_returns in Hd as [-> ->]. fold delta in Haudit.
  destruct delta as [|x delta']; simpl in Haudit.
  - left. by simplify_eq.
  - right. by simplify_eq.
Qed.

Lemma Audit_creation_returns {Obj : Type} `{AuditableObject Obj}
    (newObj : Obj) sig nfs values changed err :
  live newObj nfs ->
  Audit (mkValues []) None newObj sig = Returns (values, changed, err) ->
  values = mkValues [mkHistory [mkField "" (VMagic magicValueHistoryCreation)] sig]
  /\ changed = true /\ err = None.
Proof.
  intros (t & Hr & Hz). rewrite Audit_no_history by done.
  unfold auditFields. unfold reads in Hr. rewrite Hr, Hz. simpl.
  intros [= <- <- <-]. done.
Qed.

Lemma LatestSignature_addHistory values sig delta :
  LatestSignature (addHistory values sig delta) = sig.
Proof.
  unfold LatestSignature, addHistory. simpl history.
  rewrite length_app. simpl length.
  replace (length (history values) + 1 =? 0)%nat with false
    by (symmetry; apply Nat.eqb_neq; lia).
  rewrite app_nth2 by lia.
  replace (length (history values) + 1 - 1 - length (history values))%nat with 0%nat by lia.
  reflexivity.
Qed.

Lemma CreationSignature_addHistory values sig delta :
  history values <> [] ->
  CreationSignature (addHistory values sig delta) = CreationSignature values.
Proof.
  unfold CreationSignature, IsZero, addHistory. simpl history.
  destruct (history values); [done|]. reflexivity.
Qed.

(** ** Rolling back a history built by audits *)

Lemma stateAt_singleton ts st t :
  Time.After ts t = false -> stateAt [(ts, st)] t = Some st.
Proof. intros Hnot. unfold stateAt. simpl. by rewrite Hnot. Qed.

Lemma rollbackAll_addHistory values sig delta t cur :
  history values <> [] ->
  rollbackAll (addHistory values sig delta) t cur
  = rollbackAll values t (undoStep false Time.zero t cur (mkHistory delta sig)).
Proof.
  intros Hne. unfold rollbackAll, addHistory. simpl history.
  destruct (history values) as [|first rest]; [done|].
  simpl tail. by rewrite rev_unit.
Qed.

Lemma rollbackAll_skip values t cur :
  Forall (fun h => Time.After (entryTime h) t = false) (history values) ->
  rollbackAll values t cur = cur.
Proof.
  intros Hall. unfold rollbackAll. apply undoStep_skip_all.
  apply Forall_rev. destruct (history values) as [|first rest]; [done|].
  by apply Forall_cons in Hall as [_ ?].
Qed.

Lemma audited_invariant {Obj : Type} `{AuditableObject Obj} values snaps cur :
  audited values snaps cur ->
  history values <> []
  /\ map entryTime (history values) = map fst snaps
  /\ Forall (fun h => Time.After (entryTime h) (timestamp (LatestSignature values)) = false)
       (history values)
  /\ wellFormed cur
  /\ (forall ts st, (ts, st) ∈ snaps -> stateAt snaps ts = Some st)
  /\ (forall t fs0,
        NoDup (names fs0) -> sameFields fs0 cur ->
        Time.Before t (timestamp (CreationSignature values)) = false ->
        exists st, stateAt snaps t = Some st /\ sameFields (rollbackAll values t fs0) st).
Proof.
  induction 1 as [newObj sig fso values Hlive Hwf Haudit
                 | values snaps cur ofs oldObj newObj sig fso values' changed
                     Hprev IH Hold Hperm Hnew Hwf Haudit].
  - apply (Audit_creation_returns _ _ _ _ _ _ Hlive) in Haudit as (-> & _ & _).
    split_and!; try done.
    + repeat constructor. unfold LatestSignature. simpl. time_order.
    + intros ts st Hin. apply list_elem_of_singleton in Hin as [= -> ->].
      apply stateAt_singleton. time_order.
    + intros t fs0 _ Hsame Hbefore. exists (elems fso). split; [|done].
      apply stateAt_singleton. exact Hbefore.
  - destruct IH as (Hne & Halign & Hlatest & Hwfcur & Hentry & Hroll).
    destruct (Audit_update_returns _ _ _ _ _ _ _ _ Hne Hold Hnew Haudit)
      as (Hafter & Hcases).
    assert (HndO : NoDup (names ofs)).
    { destruct Hwfcur as [Hnd _]. unfold names in *. by rewrite Hperm. }
    assert (HumO : unmarked ofs).
    { destruct Hwfcur as [_ Hum]. unfold unmarked in *. by rewrite Hperm. }
    assert (Hmap : to_map ofs = to_map cur) by (by apply to_map_perm).
    destruct Hwf as [HndN HumN].
    destruct Hcases as [(Hdelta & -> & ->) | (Hdelta & -> & ->)].
    + split_and!; try done.
      intros t fs0 Hnd Hsame Hbefore. apply Hroll; [done| |done].
      pose proof (undoMap_delta ofs (elems fso) (to_map fs0) HndO HndN HumO Hsame) as Hundo.
      rewrite Hdelta in Hundo. unfold sameFields. by rewrite <- Hmap.
    + set (delta := specRemoved ofs (elems fso) ++ changedOrAdded ofs (elems fso)) in *.
      assert (Hold_before :
                Forall (fun h => Time.After (entryTime h) (timestamp sig) = false)
                  (history values)).
      { eapply Forall_impl; [exact Hlatest|]. intros h Hh. simpl in Hh. time_order. }
      rewrite LatestSignature_addHistory, CreationSignature_addHistory by done.
      split_and!.
      * unfold addHistory. simpl. by destruct (history values).
      * unfold addHistory. simpl history. rewrite !map_app, Halign. reflexivity.
      * unfold addHistory. simpl history. apply Forall_app. split; [done|].
        repeat constructor. simpl. time_order.
      * done.
      * intros ts st Hin. rewrite stateAt_snoc.
        apply elem_of_app in Hin as [Hin | Hin].
        -- assert (Hts : Time.After (timestamp sig) ts = true).
           { assert (Hmem : ts ∈ map entryTime (history values)).
             { rewrite Halign. apply list_elem_of_In, in_map_iff.
               exists (ts, st). split; [done|]. by apply list_elem_of_In. }
             apply list_elem_of_In, in_map_iff in Hmem as (h & <- & Hh).
             rewrite Forall_forall in Hlatest.
             specialize (Hlatest h (proj2 (list_elem_of_In _ _) Hh)). simpl in Hlatest.
             time_order. }
           rewrite Hts. by apply Hentry.
        -- apply list_elem_of_singleton in Hin as [= -> ->].
           replace (Time.After (timestamp sig) (timestamp sig)) with false
             by (symmetry; time_order).
           done.
      * intros t fs0 Hnd Hsame Hbefore.
        rewrite rollbackAll_addHistory by done. rewrite stateAt_snoc.
        unfold undoStep. simpl.
        destruct (Time.After (timestamp sig) t) eqn:Ht; simpl.
        -- destruct (undoFields_map delta fs0 Hnd) as [Hnd' Hundo].
           apply Hroll; [done| |done].
           unfold sameFields. rewrite Hundo, <- Hmap.
           by apply undoMap_delta.
        -- exists (elems fso). split; [done|].
           rewrite rollbackAll_skip; [done|].
           eapply Forall_impl; [exact Hold_before|]. intros h Hh. simpl in Hh. time_order.
Qed.

Lemma float64_eq_exact x y :
  float64.eq x y = true -> float64.isZero y = false -> x = y.
Proof.
  unfold float64.eq. rewrite !andb_true_iff, orb_true_iff, andb_true_iff, Z.eqb_eq.
  intros [_ [Heq | [_ Hzero]]] Hy; [done | congruence].
Qed.

Lemma sliceEquals_exact {A : Type} (eqb : A -> A -> bool) (P : A -> Prop) v1 v2 :
  (forall x y, eqb x y = true -> P y -> x = y) ->
  sliceEquals eqb v1 v2 = true -> Forall P v2 -> v1 = v2.
Proof.
  intros Hexact Heq Hall. unfold sliceEquals in Heq.
  destruct (Nat.eqb_spec (length v1) (length v2)) as [Hlen | ?]; [|done].
  simpl in Heq. revert v1 Hlen Heq.
  induction Hall as [|y v2 Hy _ IH]; intros [|x v1] Hlen Heq; simpl in *; try done.
  destruct (eqb x y) eqn:Hxy; [|done]. simpl in Heq.
  f_equal; [by apply Hexact | apply IH; [lia | done]].
Qed.

(** Values that agree are the same, float zeros apart. *)
Lemma valueAgree_exact v1 v2 : valueAgree v1 v2 -> noFloatZero v2 -> v1 = v2.
Proof.
  intros [-> | Heq] Hnz; [done|].
  assert (Hall : forall (A : Type) (l : list A), Forall (fun _ => True) l)
    by (intros A l; by apply Forall_true).
  destruct v1, v2; simpl in *; try done; injection Heq as Heq; f_equal.
  - by apply bool_decide_eq_true in Heq.
  - by apply bool_decide_eq_true in Heq.
  - by apply Z.eqb_eq.
  - by apply Z.eqb_eq.
  - by apply float64_eq_exact.
  - eapply sliceEquals_exact; [|exact Heq|apply Hall].
    intros x y Hxy _. by apply bool_decide_eq_true in Hxy.
  - eapply sliceEquals_exact; [|exact Heq|apply Hall].
    intros x y Hxy _. by apply bool_decide_eq_true in Hxy.
  - eapply sliceEquals_exact; [|exact Heq|apply Hall].
    intros x y Hxy _. by apply Z.eqb_eq.
  - eapply sliceEquals_exact; [|exact Heq|apply Hall].
    intros x y Hxy _. by apply Z.eqb_eq.
  - eapply sliceEquals_exact; [|exact Heq|exact Hnz].
    intros x y. apply float64_eq_exact.
  - eapply sliceEquals_exact; [|exact Heq|apply Hall].
    intros x y Hxy _. by apply Z.eqb_eq.
Qed.

(** Field slices that are the same mapping up to [equals] are the same
    mapping, when the second holds no float zero. *)
Lemma sameFields_exact s1 s2 :
  sameFields s1 s2 -> Forall (fun f => noFloatZero (Value f)) s2 ->
  to_map s1 = to_map s2.
Proof.
  intros Hsame Hnz. apply map_eq. intros k. specialize (Hsame k).
  destruct (to_map s2 !! k) as [v2|] eqn:H2; inversion Hsame as [v1 ? Hagree|]; subst;
    [|done].
  f_equal. apply to_map_lookup_Some in H2 as (f & Hf & _ & <-).
  apply valueAgree_exact; [done|].
  rewrite Forall_forall in Hnz. by apply Hnz.
Qed.

(** C1. Let a history be built by a creation audit followed by update
    audits that return no error, where every audited state has unique field
    names and no field holding the marker of removal, and every old object
    reports the fields of the state audited before, in any order, in a slice
    that is not [nil]. Then for every [t] that is not before the creation
    timestamp, [RollbackTo] on a live object whose fields are the latest
    audited state ends in the call of [SetFields] with [t] and with fields
    that are, as a mapping from names to values, the state audited at [t]:
    the state of the latest entry whose timestamp is not after [t]. Values
    are the same up to [equals] (a float zero may differ in sign), and the
    two mappings are the same when the audited state holds no float zero.
    The recorded states line up with the signatures of the history, and
    rolling back to the timestamp of an entry gives the state audited by
    that entry. *)
Theorem RollbackTo_restores_audited_state {Obj : Type} `{AuditableObject Obj}
    (values : AuditableValues) (snaps : list (Time * list Field))
    (cur : list Field) (obj : Obj) (fso : option (list Field)) (t : Time) :
  audited values snaps cur ->
  live obj fso -> elems fso ≡ₚ cur ->
  Time.Before t (timestamp (CreationSignature values)) = false ->
  exists restored state,
    RollbackTo values obj t = SetFields obj restored t
    /\ stateAt snaps t = Some state
    /\ sameFields restored state
    /\ (Forall (fun f => noFloatZero (Value f)) state ->
        to_map restored = to_map state)
    /\ map fst snaps = Timestamps (Signatures values)
    /\ (forall st, (t, st) ∈ snaps -> state = st).
Proof.
  intros Haudited Hlive Hcur Hbefore.
  destruct (audited_invariant _ _ _ Haudited)
    as (Hne & Halign & _ & [Hnd _] & Hentry & Hroll).
  destruct values as [entries]. simpl in Hne.
  destruct entries as [|first rest]; [done|].
  assert (Hnd' : NoDup (names (elems fso)))
    by (unfold names in *; by rewrite Hcur).
  assert (Hsame' : sameFields (elems fso) cur).
  { unfold sameFields. rewrite (to_map_perm _ _ Hnd' Hcur). apply mapAgree_refl. }
  destruct (Hroll t (elems fso) Hnd' Hsame' Hbefore) as (st & Hst & Hsame).
  exists (rollbackAll (mkValues (first :: rest)) t (elems fso)), st.
  split_and!; try done.
  - by rewrite (RollbackTo_live first rest obj fso t Hlive Hbefore).
  - by apply sameFields_exact.
  - rewrite <- Halign. unfold Timestamps, Signatures. by rewrite map_map.
  - intros st' Hin. apply Hentry in Hin. congruence.
Qed.

Lemma exampleAudited : audited exampleValues3 exampleSnaps exampleState2.
Proof.
  assert (Hlive : forall fs, live (liveObject fs) (Some fs))
    by (intros fs; exists Time.zero; split; reflexivity).
  assert (Hwf : forall fs,
             bool_decide (NoDup (names fs)) = true ->
             forallb (fun f => negb (isFieldRemoved (Value f))) fs = true ->
             wellFormed (elems (Some fs))).
  { intros fs Hnd Hum. split; [by apply bool_decide_eq_true in Hnd|].
    apply Forall_forall. intros f Hf. rewrite forallb_forall in Hum.
    apply negb_true_iff, Hum. by apply list_elem_of_In. }
  apply (audited_update exampleValues2
           [(timestamp (exampleSig 1), exampleState0);
            (timestamp (exampleSig 2), exampleState1)]
           exampleState1 exampleState1
           (liveObject exampleState1) (liveObject exampleState2)
           (exampleSig 3) (Some exampleState2) exampleValues3 true);
    [|apply Hlive|reflexivity|apply Hlive|apply Hwf; vm_compute; reflexivity
     |vm_compute; reflexivity].
  apply (audited_update exampleValues1
           [(timestamp (exampleSig 1), exampleState0)]
           exampleState0 exampleState0
           (liveObject exampleState0) (liveObject exampleState1)
           (exampleSig 2) (Some exampleState1) exampleValues2 true);
    [|apply Hlive|reflexivity|apply Hlive|apply Hwf; vm_compute; reflexivity
     |vm_compute; reflexivity].
  apply (audited_creation (liveObject exampleState0) (exampleSig 1)
           (Some exampleState0) exampleValues1);
    [apply Hlive|apply Hwf; vm_compute; reflexivity|vm_compute; reflexivity].
Defined.

Lemma RollbackTo_restores_audited_state_witness :
  audited exampleValues3 exampleSnaps exampleState2
  /\ live (liveObject exampleState2) (Some exampleState2)
  /\ Time.Before (Time.Add (timestamp (exampleSig 3)) (-1))
       (timestamp (CreationSignature exampleValues3)) = false
  /\ exists restored,
       RollbackTo exampleValues3 (liveObject exampleState2)
         (Time.Add (timestamp (exampleSig 3)) (-1))
       = SetFields (liveObject exampleState2) restored
           (Time.Add (timestamp (exampleSig 3)) (-1))
       /\ sameFields restored exampleState1.
Proof.
  assert (Hlive : live (liveObject exampleState2) (Some exampleState2))
    by (exists Time.zero; split; reflexivity).
  assert (Hbefore : Time.Before (Time.Add (timestamp (exampleSig 3)) (-1))
                      (timestamp (CreationSignature exampleValues3)) = false)
    by (vm_compute; reflexivity).
  split_and!; [exact exampleAudited | exact Hlive | exact Hbefore |].
  destruct (RollbackTo_restores_audited_state exampleValues3 exampleSnaps
              exampleState2 (liveObject exampleState2) (Some exampleState2)
              (Time.Add (timestamp (exampleSig 3)) (-1))
              exampleAudited Hlive (Permutation_refl _) Hbefore)
    as (restored & state & Hcall & Hstate & Hsame & _).
  exists restored. split; [exact Hcall|].
  assert (Hat : stateAt exampleSnaps (Time.Add (timestamp (exampleSig 3)) (-1))
                = Some exampleState1) by (vm_compute; reflexivity).
  rewrite Hat in Hstate. injection Hstate as <-. exact Hsame.
Defined.

(** An old object that reports no fields in a [nil] slice: the update audit
    takes it for a creation and appends a second creation entry, and rolling
    back to the creation passes to [SetFields] the field added since and a
    field with the empty name, where the audited state had no field. *)
Lemma RollbackTo_nil_slice_counterexample :
  let obj0 := mkStored None Time.zero None None in
  let obj1 := liveObject [mkField "a" (VInt 1)] in
  let values1 := exampleValues1 in
  let values2 :=
    mkValues
      [mkHistory [mkField "" (VMagic magicValueHistoryCreation)] (exampleSig 1);
       mkHistory [mkField "" (VMagic magicValueHistoryCreation)] (exampleSig 2)] in
  let restored :=
    [mkField "a" (VInt 1); mkField "" (VMagic magicValueHistoryCreation)] in
  Audit (mkValues []) None obj0 (exampleSig 1) = Returns (values1, true, None)
  /\ Audit values1 (Some obj0) obj1 (exampleSig 2) = Returns (values2, true, None)
  /\ RollbackTo values2 obj1 (timestamp (exampleSig 1))
     = (mkStored (Some restored) (timestamp (exampleSig 1)) None None, None)
  /\ ~ sameFields restored (elems (Values obj0)).
Proof.
  split_and!; [vm_compute; reflexivity..|].
  intros Hsame. specialize (Hsame "a").
  simpl elems in Hsame. rewrite to_map_cons, lookup_insert_eq in Hsame.
  inversion Hsame.
Qed.

(** ** Audits that change nothing *)

Lemma Audit_cases {Obj : Type} `{AuditableObject Obj}
    values (oldObj : option Obj) newObj sig values' changed err :
  Audit values oldObj newObj sig = Returns (values', changed, err) ->
  (values' = values /\ changed = false) \/
  (exists delta, delta <> [] /\ err = None /\ changed = true /\
                 values' = addHistory values sig delta).
Proof.
  unfold Audit. intros Heq.
  repeat case_match; simplify_eq; try (left; done).
  by apply auditFields_cases in Heq.
Qed.


Lemma specRemoved_nil O N :
  (forall f, f ∈ O -> Name f ∈ names N) -> specRemoved O N = [].
Proof.
  unfold specRemoved. induction O as [|f rest IH]; intros Hin; simpl; [done|].
  rewrite bool_decide_eq_true_2 by (apply Hin; left).
  simpl. apply IH. intros g Hg. apply Hin. by right.
Qed.

Lemma changedOrAdded_nil O N :
  (forall f, f ∈ N ->
     exists old, to_map O !! Name f = Some old /\ equalsTrue old (Value f) = true) ->
  changedOrAdded O N = [].
Proof.
  unfold changedOrAdded. induction N as [|f rest IH]; intros Hin; simpl; [done|].
  destruct (Hin f) as (old & -> & ->); [left|].
  simpl. apply IH. intros g Hg. apply Hin. by right.
Qed.




(** ** The errors of [RollbackTo] *)

Lemma CreationSignature_nth values :
  history values <> [] ->
  CreationSignature values = signature (nth 0 (history values) zeroHistory).
Proof.
  unfold CreationSignature, IsZero. destruct (history values); [done|]. reflexivity.
Qed.

(** C5. For an object on which [GetFields] succeeds and [SetFields]
    succeeds, setting the rollback timestamp it is given, [RollbackTo]
    returns an error in three cases and no other: the history is empty (the
    message of the invalid state); else [t] is before the timestamp of the
    creation entry (the value [ErrDidNotExist] itself); else the object is
    rolled back to a timestamp before [t] (the message of the rollback
    order, with both timestamps). In every other case, so for every [t] from
    the creation on that is not after the rollback timestamp of the object,
    it succeeds and leaves the object with the rollback timestamp [t]. *)
Theorem RollbackTo_error_cases {Obj : Type} `{AuditableObject Obj}
    (values : AuditableValues) (obj : Obj) (t : Time)
    (fso : option (list Field)) (tRollback : Time) :
  reads obj fso tRollback ->
  (forall fs, exists obj' fso', SetFields obj fs t = (obj', None) /\ reads obj' fso' t) ->
  let isRolledBack := negb (Time.IsZero tRollback) in
  let tCreation := timestamp (CreationSignature values) in
  (history values = [] ->
   RollbackTo values obj t = (obj, Some (Errorf "invalid state: empty history" [])))
  /\
  (history values <> [] -> Time.Before t tCreation = true ->
   RollbackTo values obj t = (obj, Some ErrDidNotExist))
  /\
  (history values <> [] -> Time.Before t tCreation = false ->
   isRolledBack = true -> Time.Before tRollback t = true ->
   RollbackTo values obj t
   = (obj, Some (Errorf "object is already rolled back to a timestamp earlier than t (tRollback: %s, t: %s)"
                   [ArgTime tRollback; ArgTime t])))
  /\
  (history values <> [] -> Time.Before t tCreation = false ->
   isRolledBack = false \/ Time.Before tRollback t = false ->
   exists obj' fso', RollbackTo values obj t = (obj', None) /\ reads obj' fso' t)
  /\
  ((RollbackTo values obj t).2 <> None <->
   history values = [] \/ Time.Before t tCreation = true
   \/ (isRolledBack = true /\ Time.Before tRollback t = true)).
Proof.
  intros Hreads Hset isRolledBack tCreation.
  assert (Hempty : history values = [] ->
            RollbackTo values obj t = (obj, Some errEmptyHistory)).
  { intros Hnil. unfold RollbackTo. by rewrite Hnil. }
  assert (Hearly : history values <> [] -> Time.Before t tCreation = true ->
            RollbackTo values obj t = (obj, Some ErrDidNotExist)).
  { intros Hne Hbefore. unfold RollbackTo. subst tCreation.
    rewrite CreationSignature_nth in Hbefore by done. rewrite Hbefore.
    by destruct (history values). }
  assert (Horder : history values <> [] -> Time.Before t tCreation = false ->
            isRolledBack = true -> Time.Before tRollback t = true ->
            RollbackTo values obj t = (obj, Some (errRollbackOrder tRollback t))).
  { intros Hne Hbefore Hrb Hfwd. unfold RollbackTo. subst tCreation isRolledBack.
    rewrite CreationSignature_nth in Hbefore by done. rewrite Hbefore.
    unfold reads in Hreads. rewrite Hreads, Hrb, Hfwd.
    by destruct (history values). }
  assert (Hok : history values <> [] -> Time.Before t tCreation = false ->
            isRolledBack = false \/ Time.Before tRollback t = false ->
            exists obj' fso', RollbackTo values obj t = (obj', None) /\ reads obj' fso' t).
  { intros Hne Hbefore Hback. unfold RollbackTo. subst tCreation isRolledBack.
    rewrite CreationSignature_nth in Hbefore by done. rewrite Hbefore.
    unfold reads in Hreads. rewrite Hreads.
    replace (negb (Time.IsZero tRollback) && Time.Before tRollback t) with false
      by (destruct Hback as [-> | ->]; [done | by rewrite andb_false_r]).
    destruct (history values) as [|first rest]; [done|]. simpl.
    apply Hset. }
  split_and!; try done.
  split.
  - intros Herr.
    destruct (decide (history values = [])) as [? | Hne]; [by left|].
    destruct (Time.Before t tCreation) eqn:Hbefore; [right; by left|].
    destruct isRolledBack eqn:Hrb, (Time.Before tRollback t) eqn:Hfwd;
      try (right; right; done).
    all: destruct Hok as (obj' & fso' & Hres & _); [done | done | by auto |].
    all: by rewrite Hres in Herr.
  - intros [Hnil | [Hbefore | [Hrb Hfwd]]].
    + by rewrite Hempty.
    + destruct (decide (history values = [])) as [Hnil | Hne]; [by rewrite Hempty|].
      by rewrite Hearly.
    + destruct (decide (history values = [])) as [Hnil | Hne]; [by rewrite Hempty|].
      destruct (Time.Before t tCreation) eqn:Hbefore; [by rewrite Hearly|].
      by rewrite Horder.
Qed.

Lemma RollbackTo_error_cases_witness :
  let obj := mkStored (Some exampleState1) (timestamp (exampleSig 2)) None None in
  let t := timestamp (exampleSig 1) in
  reads obj (Some exampleState1) (timestamp (exampleSig 2))
  /\ (forall fs, exists obj' fso', SetFields obj fs t = (obj', None) /\ reads obj' fso' t)
  /\ RollbackTo exampleValues3 obj (Time.Add t (-1)) = (obj, Some ErrDidNotExist)
  /\ exists obj' fso', RollbackTo exampleValues3 obj t = (obj', None) /\ reads obj' fso' t.
Proof.
  intros obj t.
  assert (Hreads : reads obj (Some exampleState1) (timestamp (exampleSig 2)))
    by reflexivity.
  assert (Hset : forall t' fs, exists obj' fso',
             SetFields obj fs t' = (obj', None) /\ reads obj' fso' t')
    by (intros t' fs; eexists _, _; split; reflexivity).
  split_and!; [exact Hreads | exact (Hset t) | |].
  - destruct (RollbackTo_error_cases exampleValues3 obj (Time.Add t (-1))
                (Some exampleState1) (timestamp (exampleSig 2)) Hreads
                (Hset (Time.Add t (-1))))
      as (_ & Hearly & _).
    apply Hearly; [discriminate | vm_compute; reflexivity].
  - destruct (RollbackTo_error_cases exampleValues3 obj t
                (Some exampleState1) (timestamp (exampleSig 2)) Hreads (Hset t))
      as (_ & _ & _ & Hok & _).
    apply Hok; [discriminate | vm_compute; reflexivity | right; vm_compute; reflexivity].
Defined.

(** ** Worked failures of [Audit] *)

Lemma Audit_error_keeps_history_witness :
  exists values' changed e,
    Audit exampleValues2 (Some (liveObject exampleState1)) (liveObject exampleState2)
      (exampleSig 2)
    = Returns (values', changed, Some e)
    /\ values' = exampleValues2 /\ changed = false.
Proof.
  exists exampleValues2, false,
    (errTimestamp (timestamp (exampleSig 2)) (timestamp (exampleSig 2))).
  assert (Hrun : Audit exampleValues2 (Some (liveObject exampleState1))
                   (liveObject exampleState2) (exampleSig 2)
                 = Returns (exampleValues2, false,
                     Some (errTimestamp (timestamp (exampleSig 2))
                             (timestamp (exampleSig 2)))))
    by (vm_compute; reflexivity).
  split; [exact Hrun|].
  exact (Audit_error_keeps_history _ _ _ _ _ _ _ Hrun).
Defined.

Lemma Audit_precondition_errors_witness :
  let rolledBack := mkStored (Some exampleState1) (timestamp (exampleSig 1)) None None in
  Audit exampleValues2 None (liveObject exampleState2) (exampleSig 2)
  = Returns (exampleValues2, false, Some errOldObjNil)
  /\ Audit exampleValues2 (Some rolledBack) (liveObject exampleState2) (exampleSig 2)
     = Returns (exampleValues2, false,
         Some (errTimestamp (timestamp (exampleSig 2)) (timestamp (exampleSig 2))))
  /\ Audit exampleValues2 (Some rolledBack) (liveObject exampleState2) (exampleSig 3)
     = Returns (exampleValues2, false, Some errRolledBack)
  /\ Audit exampleValues2 (Some (liveObject exampleState1)) rolledBack (exampleSig 3)
     = Returns (exampleValues2, false, Some errRolledBack).
Proof.
  intros rolledBack.
  assert (Hne : history exampleValues2 <> []) by discriminate.
  assert (Htimely : timely exampleValues2 (exampleSig 3))
    by (right; vm_compute; reflexivity).
  assert (Hrolled : reads rolledBack (Some exampleState1) (timestamp (exampleSig 1)))
    by reflexivity.
  assert (Hnonzero : Time.IsZero (timestamp (exampleSig 1)) = false)
    by (vm_compute; reflexivity).
  split_and!.
  - pose proof (Audit_precondition_errors exampleValues2 None
                  (liveObject exampleState2) (exampleSig 2)) as Hall.
    cbv zeta in Hall. destruct Hall as (Hnil & _).
    exact (Hnil Hne eq_refl).
  - pose proof (Audit_precondition_errors exampleValues2 (Some rolledBack)
                  (liveObject exampleState2) (exampleSig 2)) as Hall.
    cbv zeta in Hall. destruct Hall as (_ & Hlate & _).
    apply Hlate; [exact Hne | by eexists | vm_compute; reflexivity].
  - pose proof (Audit_precondition_errors exampleValues2 (Some rolledBack)
                  (liveObject exampleState2) (exampleSig 3)) as Hall.
    cbv zeta in Hall. destruct Hall as (_ & _ & Hold & _).
    exact (Hold rolledBack _ _ eq_refl Htimely Hrolled Hnonzero).
  - pose proof (Audit_precondition_errors exampleValues2
                  (Some (liveObject exampleState1)) rolledBack (exampleSig 3)) as Hall.
    cbv zeta in Hall. destruct Hall as (_ & _ & _ & Hnew).
    apply (Hnew _ _) with (2 := Hrolled) (3 := Hnonzero).
    right. exists (liveObject exampleState1), (Some exampleState1).
    split_and!; [reflexivity | exact Htimely |].
    exists Time.zero. split; reflexivity.
Defined.

(** ** The signatures of a field *)

Lemma SignaturesForField_fold k entries acc :
  fold_left
    (fun signatures h =>
       if mentions (fields h) k then signatures ++ [signature h] else signatures)
    entries acc
  = acc ++ map signature (List.filter (fun h => mentions (fields h) k) entries).
Proof.
  revert acc. induction entries as [|h rest IH]; intros acc; simpl.
  - by rewrite app_nil_r.
  - rewrite IH. destruct (mentions (fields h) k); simpl; [|done].
    by rewrite <- app_assoc.
Qed.

Lemma sublist_map_filter {A B : Type} (f : A -> B) (p : A -> bool) (l : list A) :
  sublist (map f (List.filter p l)) (map f l).
Proof.
  induction l as [|x rest IH]; simpl; [constructor|].
  destruct (p x); simpl; by constructor.
Qed.

(** C9. On a history that is not empty and whose first entry does not
    mention [k], [SignaturesForField k] is the creation signature followed
    by the signatures of the later entries that mention [k], in the order of
    the history; it is a subsequence of [Signatures()] and begins with
    [CreationSignature()]. *)
Theorem SignaturesForField_subsequence
    (first : auditHistory) (rest : list auditHistory) (k : string) :
  mentions (fields first) k = false ->
  SignaturesForField (mkValues (first :: rest)) k
  = CreationSignature (mkValues (first :: rest))
    :: map signature (List.filter (fun h => mentions (fields h) k) rest)
  /\ sublist (SignaturesForField (mkValues (first :: rest)) k)
       (Signatures (mkValues (first :: rest)))
  /\ head (SignaturesForField (mkValues (first :: rest)) k)
     = Some (CreationSignature (mkValues (first :: rest))).
Proof.
  intros Hfirst.
  assert (Heq : SignaturesForField (mkValues (first :: rest)) k
                = CreationSignature (mkValues (first :: rest))
                  :: map signature (List.filter (fun h => mentions (fields h) k) rest)).
  { unfold SignaturesForField. rewrite SignaturesForField_fold. simpl.
    by rewrite Hfirst. }
  split_and!; [exact Heq | | by rewrite Heq].
  rewrite Heq. unfold Signatures. simpl.
  constructor. apply sublist_map_filter.
Qed.

Lemma SignaturesForField_subsequence_witness :
  mentions [mkField "" (VMagic magicValueHistoryCreation)] "ValueB" = false
  /\ SignaturesForField exampleValues3 "ValueB"
     = [exampleSig 1; exampleSig 2; exampleSig 3]
  /\ sublist (SignaturesForField exampleValues3 "ValueB") (Signatures exampleValues3).
Proof.
  assert (Hfirst : mentions [mkField "" (VMagic magicValueHistoryCreation)] "ValueB"
                   = false) by reflexivity.
  split; [exact Hfirst|].
  destruct (SignaturesForField_subsequence
              (mkHistory [mkField "" (VMagic magicValueHistoryCreation)] (exampleSig 1))
              (tail (history exampleValues3)) "ValueB" Hfirst) as (Heq & Hsub & _).
  split; [exact Heq | exact Hsub].
Defined.

(** On the empty history [SignaturesForField] returns the zero signature
    alone, which is no subsequence of the empty [Signatures()]. *)
Lemma SignaturesForField_empty_counterexample :
  SignaturesForField (mkValues []) "ValueB" = [Signature.zero]
  /\ Signatures (mkValues []) = []
  /\ ~ sublist (SignaturesForField (mkValues []) "ValueB") (Signatures (mkValues [])).
Proof.
  split_and!; [reflexivity | reflexivity |].
  intros Hsub. inversion Hsub.
Qed.

(** ** The bounds of a serialized signature *)

Lemma UnixNano_in_bounds t :
  instant Signature.minAllowed <= instant t <= instant Signature.maxAllowed ->
  Time.UnixNano t = instant t.
Proof.
  unfold Time.UnixNano, Time.wrap64.
  change (instant Signature.minAllowed) with 1.
  change (instant Signature.maxAllowed) with 7258118400000000000.
  intros Hb. rewrite Z.mod_small by lia. lia.
Qed.

(** C8. A signature in a zone of offset zero serializes exactly when its
    timestamp is zero or lies between 1970-01-01T00:00:00.000000001Z and
    2200-01-01T00:00:00Z, both included; it is then written as the version,
    the encoded auditor and an integer that is 0 for the zero timestamp and
    the Unix time in nanoseconds otherwise; any other timestamp fails with
    the message that it is out of bounds. The two bounds serialize; the Unix
    epoch itself and one nanosecond after the upper bound fail. *)
Theorem Signature_Serialize_bounds (sig : Signature) :
  Time.Zone (timestamp sig) = 0 ->
  let t := timestamp sig in
  let inBounds :=
    instant Signature.minAllowed <= instant t <= instant Signature.maxAllowed in
  (Time.IsZero t = true ->
   Signature.Serialize sig
   = (Some [TInt 1; TString (Auditor.Encode (auditor sig)); TInt64 0], None))
  /\
  (Time.IsZero t = false -> inBounds ->
   Signature.Serialize sig
   = (Some [TInt 1; TString (Auditor.Encode (auditor sig)); TInt64 (Time.UnixNano t)],
      None)
   /\ Time.UnixNano t = instant t)
  /\
  (Time.IsZero t = false -> ~ inBounds ->
   Signature.Serialize sig
   = (None, Some (Errorf "signature timestamp %s is out of bounds" [ArgTime t])))
  /\
  (forall a,
     Signature.Serialize (NewSignature a (Time.Date 1970 1 1 0 0 0 1))
     = (Some [TInt 1; TString (Auditor.Encode a); TInt64 1], None)
     /\ Signature.Serialize (NewSignature a (Time.Date 2200 1 1 0 0 0 0))
        = (Some [TInt 1; TString (Auditor.Encode a); TInt64 7258118400000000000], None)
     /\ Signature.Serialize (NewSignature a (Time.Date 1970 1 1 0 0 0 0))
        = (None, Some (Errorf "signature timestamp %s is out of bounds"
                         [ArgTime (Time.Date 1970 1 1 0 0 0 0)]))
     /\ Signature.Serialize (NewSignature a (Time.Date 2200 1 1 0 0 0 1))
        = (None, Some (Errorf "signature timestamp %s is out of bounds"
                         [ArgTime (Time.Date 2200 1 1 0 0 0 1)]))).
Proof.
  intros Hzone t inBounds. subst t inBounds.
  unfold Signature.Serialize, Signature.SerializeToBufRW.
  rewrite Hzone. simpl (negb (0 =? 0)). cbv iota.
  split_and!.
  - intros Hzero. rewrite Hzero. reflexivity.
  - intros Hzero Hb. rewrite Hzero. simpl negb. simpl andb.
    replace (Time.Before (timestamp sig) Signature.minAllowed
             || Time.After (timestamp sig) Signature.maxAllowed) with false.
    2:{ symmetry. apply orb_false_iff. unfold Time.Before, Time.After.
        rewrite !Z.ltb_ge. lia. }
    split; [reflexivity | by apply UnixNano_in_bounds].
  - intros Hzero Hb. rewrite Hzero. simpl negb. simpl andb.
    replace (Time.Before (timestamp sig) Signature.minAllowed
             || Time.After (timestamp sig) Signature.maxAllowed) with true.
    2:{ symmetry. apply orb_true_iff. unfold Time.Before, Time.After.
        rewrite !Z.ltb_lt. lia. }
    reflexivity.
  - intros a. split_and!; reflexivity.
Qed.

Lemma Signature_Serialize_bounds_witness :
  Time.Zone (Time.Date 2010 1 2 3 4 5 123456789) = 0
  /\ Signature.Serialize
       (NewSignature (mkAuditor "kind" "id") (Time.Date 2010 1 2 3 4 5 123456789))
     = (Some [TInt 1; TString "kind/id"; TInt64 1262401445123456789], None).
Proof.
  split; [reflexivity|].
  pose proof (Signature_Serialize_bounds
                (NewSignature (mkAuditor "kind" "id") (Time.Date 2010 1 2 3 4 5 123456789))
                eq_refl) as Hall.
  cbv zeta in Hall. destruct Hall as (_ & Hin & _).
  destruct Hin as [Heq _]; [reflexivity | vm_compute; split; discriminate |].
  exact Heq.
Defined.

(** ** Streams that [DeserializeFrom] refuses *)

Lemma DeserializeFrom_version values version r :
  version <> 1 ->
  DeserializeFrom values (TByte version :: r)
  = Returns (values, Some (Errorf "invalid version number: %d" [ArgInt version]), r).
Proof.
  intros Hv. unfold DeserializeFrom. simpl.
  destruct (Z.eqb_spec version 1); [done|]. reflexivity.
Qed.

Lemma readValue_unknown_tag tag r :
  ~ 0 <= tag <= 11 ->
  (readValue (TByte tag :: r)).1.2 = Some (Errorf "invalid value type: %d" [ArgInt tag]).
Proof.
  intros Htag. unfold readValue. simpl.
  destruct tag as [|p|p]; [lia| |reflexivity].
  do 4 (destruct p as [p|p|]; try reflexivity; try lia).
Qed.

Lemma readFields_unknown_tag count i fieldNames fs nameIndex tag r :
  0 <= nameIndex < Z.of_nat (length fieldNames) ->
  ~ 0 <= tag <= 11 ->
  exists fs' r',
    readFields (S count) i fieldNames fs (TInt nameIndex :: TByte tag :: r)
    = Returns (fs', Some (Errorf "invalid value type: %d" [ArgInt tag]), r').
Proof.
  intros Hidx Htag. simpl. unfold index.
  replace ((nameIndex <? 0) || (Z.of_nat (length fieldNames) <=? nameIndex)) with false
    by (symmetry; apply orb_false_iff; split; [apply Z.ltb_ge | apply Z.leb_gt]; lia).
  destruct (fieldNames !! Z.to_nat nameIndex) as [name|] eqn:Hname.
  2:{ apply lookup_ge_None in Hname. lia. }
  simpl. pose proof (readValue_unknown_tag tag r Htag) as Herr.
  destruct (readValue (TByte tag :: r)) as [[v err] r']. simpl in Herr. subst err.
  by eexists _, _.
Qed.

Lemma readFields_index_panics count i fieldNames fs nameIndex r :
  nameIndex < 0 \/ Z.of_nat (length fieldNames) <= nameIndex ->
  readFields (S count) i fieldNames fs (TInt nameIndex :: r)
  = Panics "runtime error: index out of range".
Proof.
  intros Hidx. simpl. unfold index.
  replace ((nameIndex <? 0) || (Z.of_nat (length fieldNames) <=? nameIndex)) with true
    by (symmetry; apply orb_true_iff; rewrite Z.ltb_lt, Z.leb_le; lia).
  reflexivity.
Qed.

(** C4. A stream with a version byte other than 1 and a stream with a type
    tag outside the twelve known ones make [Deserialize] return an error. A
    stream in which a field names an index outside the table of names
    (here index 0 in an empty table) makes it panic: the index is used
    without a check. *)
Theorem Deserialize_malformed_streams :
  Deserialize (mkValues []) [TByte 2; TInt 0; TInt 0]
  = Returns (mkValues [], Some (Errorf "invalid version number: %d" [ArgInt 2]))
  /\ Deserialize (mkValues [])
       [TByte 1; TInt 1; TString "x"; TInt 1;
        TInt 1; TString "/"; TInt64 0;
        TInt 1; TInt 0; TByte 12]
     = Returns (mkValues [mkHistory [] Signature.zero],
                Some (Errorf "invalid value type: %d" [ArgInt 12]))
  /\ Deserialize (mkValues [])
       [TByte 1; TInt 0; TInt 1;
        TInt 1; TString "/"; TInt64 0;
        TInt 1; TInt 0; TByte 1; TString "v"]
     = Panics "runtime error: index out of range".
Proof. split_and!; vm_compute; reflexivity. Qed.

(** ** The stream [Serialize] writes *)

Lemma stringSlice_Contains_spec slice s :
  stringSlice.Contains slice s = bool_decide (s ∈ slice).
Proof.
  induction slice as [|x rest IH]; simpl.
  - done.
  - destruct (decide (x = s)) as [-> | Hx].
    + rewrite (bool_decide_eq_true_2 (s = s)) by done.
      symmetry. apply bool_decide_eq_true. left.
    + rewrite (bool_decide_eq_false_2 (x = s)) by done.
      rewrite IH. apply bool_decide_ext. rewrite elem_of_cons. intuition congruence.
Qed.

Lemma collectNames_intern entries acc :
  fold_left
    (fun fieldNames obj =>
       fold_left
         (fun fieldNames field =>
            if negb (stringSlice.Contains fieldNames (Name field))
            then fieldNames ++ [Name field] else fieldNames)
         (fields obj) fieldNames)
    entries acc
  = internNames acc (allNames entries).
Proof.
  unfold internNames, allNames.
  revert acc. induction entries as [|e rest IH]; intros acc; simpl; [done|].
  rewrite fold_left_app, IH. f_equal.
  unfold names. generalize (fields e) as fs. clear.
  intros fs. revert acc. induction fs as [|f fs IH]; intros acc; simpl; [done|].
  apply IH.
Qed.

Lemma filter_filter_absent (acc : list string) (x : string) (l : list string) :
  List.filter (fun y => negb (bool_decide (y ∈ acc ++ [x]))) l
  = List.filter (fun y => negb (bool_decide (y ∈ acc)))
      (List.filter (fun y => negb (bool_decide (y = x))) l).
Proof.
  induction l as [|y rest IH]; simpl; [done|].
  destruct (decide (y = x)) as [-> | Hne].
  - rewrite (bool_decide_eq_true_2 (x = x)) by done. simpl.
    rewrite bool_decide_eq_true_2 by (apply elem_of_app; right; left).
    simpl. exact IH.
  - rewrite (bool_decide_eq_false_2 (y = x)) by done. simpl.
    rewrite IH. f_equal.
    replace (bool_decide (y ∈ acc ++ [x])) with (bool_decide (y ∈ acc)); [done|].
    apply bool_decide_ext. rewrite elem_of_app, list_elem_of_singleton. intuition.
Qed.

Lemma filter_present (acc : list string) (x : string) (l : list string) :
  x ∈ acc ->
  List.filter (fun y => negb (bool_decide (y ∈ acc)))
    (List.filter (fun y => negb (bool_decide (y = x))) l)
  = List.filter (fun y => negb (bool_decide (y ∈ acc))) l.
Proof.
  intros Hx. induction l as [|y rest IH]; simpl; [done|].
  destruct (decide (y = x)) as [-> | Hne].
  - rewrite (bool_decide_eq_true_2 (x = x)) by done. simpl.
    rewrite bool_decide_eq_true_2 by done. simpl. exact IH.
  - rewrite (bool_decide_eq_false_2 (y = x)) by done. simpl. by rewrite IH.
Qed.

Lemma internNames_spec acc l :
  internNames acc l
  = acc ++ List.filter (fun y => negb (bool_decide (y ∈ acc))) (firstOccurrences l).
Proof.
  unfold internNames.
  revert acc. induction l as [|x rest IH]; intros acc; simpl.
  - by rewrite app_nil_r.
  - rewrite stringSlice_Contains_spec.
    destruct (decide (x ∈ acc)) as [Hin | Hnot].
    + rewrite !bool_decide_eq_true_2 by done. simpl.
      rewrite IH. by rewrite filter_present.
    + rewrite !bool_decide_eq_false_2 by done. simpl.
      rewrite IH, <- app_assoc. simpl. by rewrite filter_filter_absent.
Qed.

Lemma collectNames_spec entries :
  collectNames entries = firstOccurrences (allNames entries).
Proof.
  unfold collectNames. rewrite collectNames_intern, internNames_spec. simpl.
  induction (firstOccurrences (allNames entries)) as [|y rest IH]; simpl; [done|].
  by rewrite IH.
Qed.

Lemma firstOccurrences_elem l x : x ∈ firstOccurrences l <-> x ∈ l.
Proof.
  induction l as [|y rest IH]; simpl; [done|].
  rewrite !elem_of_cons, <- IH.
  rewrite list_elem_of_In, filter_In, <- list_elem_of_In.
  rewrite negb_true_iff, bool_decide_eq_false.
  destruct (decide (x = y)); intuition congruence.
Qed.

Lemma firstOccurrences_NoDup l : NoDup (firstOccurrences l).
Proof.
  induction l as [|y rest IH]; simpl; [constructor|].
  apply NoDup_cons. split.
  - rewrite list_elem_of_In, filter_In, negb_true_iff, bool_decide_eq_false.
    intros [_ Hne]. by apply Hne.
  - apply NoDup_ListNoDup, List.NoDup_filter, NoDup_ListNoDup, IH.
Qed.

Lemma writeValue_spec w v :
  supported v -> writeValue w v = (None, w ++ valueTokens v).
Proof.
  destruct v; simpl; try done; intros _; unfold bufrw.write;
    by rewrite <- app_assoc.
Qed.

Lemma writeFields_spec table w fs :
  Forall (fun f => supported (Value f)) fs ->
  writeFields table w fs = (None, w ++ flat_map (fieldTokens table) fs).
Proof.
  intros Hall. revert w. induction Hall as [|f rest Hf _ IH]; intros w; simpl.
  - by rewrite app_nil_r.
  - rewrite writeValue_spec by done. rewrite IH. unfold bufrw.write.
    by rewrite <- !app_assoc.
Qed.

Lemma SerializeToBufRW_spec sig w :
  (Signature.Serialize sig).2 = None ->
  Signature.SerializeToBufRW sig w = (None, w ++ signatureTokens sig).
Proof.
  unfold Signature.Serialize, Signature.SerializeToBufRW, signatureTokens, bufrw.write.
  destruct (negb (Time.Zone (timestamp sig) =? 0)); [done|].
  destruct (Time.IsZero (timestamp sig)); simpl.
  - intros _. by rewrite <- !app_assoc.
  - destruct (Time.Before _ _ || Time.After _ _); [done|].
    intros _. by rewrite <- !app_assoc.
Qed.

Lemma writeHistory_spec table w entries :
  Forall
    (fun e => serializable (signature e)
              /\ Forall (fun f => supported (Value f)) (fields e))
    entries ->
  writeHistory table w entries = (None, w ++ flat_map (entryTokens table) entries).
Proof.
  intros Hall. revert w. induction Hall as [|e rest [[_ Hsig] Hfs] _ IH]; intros w; simpl.
  - by rewrite app_nil_r.
  - rewrite SerializeToBufRW_spec by done.
    rewrite writeFields_spec by done. rewrite IH.
    unfold entryTokens, bufrw.write. by rewrite <- !app_assoc.
Qed.

Lemma write_strings w l :
  fold_left (fun w key => bufrw.write w (TString key)) l w = w ++ map TString l.
Proof.
  revert w. induction l as [|x rest IH]; intros w; simpl.
  - by rewrite app_nil_r.
  - rewrite IH. unfold bufrw.write. by rewrite <- app_assoc.
Qed.

Lemma Serialize_spec values :
  encodable values -> Serialize values = (Some (historyTokens values), None).
Proof.
  intros Henc. unfold Serialize, SerializeTo, historyTokens.
  rewrite collectNames_spec, write_strings.
  rewrite writeHistory_spec by exact Henc.
  unfold bufrw.write. simpl. by rewrite <- !app_assoc.
Qed.

(** ** Reading back what [Serialize] wrote *)

Lemma Split_no_slash s : containsSlash s = false -> Split s = [s].
Proof.
  induction s as [|c s IH]; simpl; [done|].
  destruct (Ascii.eqb c slash); [done|]. intros Hs. by rewrite IH.
Qed.

Lemma Split_append k rest :
  containsSlash k = false -> Split (k +:+ String slash rest) = k :: Split rest.
Proof.
  induction k as [|c k IH]; simpl.
  - intros _. reflexivity.
  - destruct (Ascii.eqb c slash) eqn:Hc; [done|]. intros Hk.
    by rewrite IH.
Qed.

Lemma Decode_Encode a receiver :
  validAuditor a -> Auditor.Decode receiver (Auditor.Encode a) = (a, None).
Proof.
  intros [Hk Hi]. unfold Auditor.Decode, Auditor.Encode.
  change ("/" +:+ id a) with (String slash (id a)).
  rewrite Split_append, Split_no_slash by done. by destruct a.
Qed.

Lemma DeserializeFromBufRW_spec sig receiver r :
  serializable sig ->
  Signature.DeserializeFromBufRW receiver (signatureTokens sig ++ r) = (sig, None, r).
Proof.
  intros [Hvalid Hser]. unfold Signature.DeserializeFromBufRW, signatureTokens. simpl.
  rewrite Decode_Encode by done.
  revert Hser. unfold Signature.Serialize, Signature.SerializeToBufRW.
  destruct sig as [a [i o]]. simpl. unfold Time.Zone. simpl.
  destruct (Z.eqb_spec o 0) as [-> | ?]; [|done]. simpl.
  destruct (Time.IsZero (mkTime i 0)) eqn:Hz; simpl.
  - intros _. unfold Time.IsZero in Hz. simpl in Hz. apply Z.eqb_eq in Hz.
    subst i. reflexivity.
  - destruct (Time.Before _ _ || Time.After _ _) eqn:Hb; [done|]. intros _.
    apply orb_false_iff in Hb as [Hmin Hmax].
    unfold Time.Before, Time.After in Hmin, Hmax.
    apply Z.ltb_ge in Hmin, Hmax.
    rewrite (UnixNano_in_bounds (mkTime i 0)) by done.
    change (instant Signature.minAllowed) with 1 in Hmin.
    change (instant (mkTime i 0)) with i in *.
    destruct (Z.ltb_spec i 0); [lia|].
    destruct (Z.gtb_spec i 0); [|lia].
    reflexivity.
Qed.

Lemma magicOfByte_byteOfMagic m : -128 <= m <= 127 -> magicOfByte (byteOfMagic m) = m.
Proof.
  intros Hm. unfold magicOfByte, byteOfMagic.
  destruct (Z.ltb_spec (m mod 256) 128); Z.div_mod_to_equations; lia.
Qed.

Lemma readValue_spec v r :
  supported v -> readValue (valueTokens v ++ r) = (v, None, r).
Proof.
  destruct v; simpl; try done.
  intros Hm. unfold readValue. simpl. by rewrite magicOfByte_byteOfMagic.
Qed.

Lemma stringSlice_indexFrom_lookup i table x :
  x ∈ table ->
  exists j, stringSlice.indexFrom i table x = i + Z.of_nat j /\ table !! j = Some x.
Proof.
  revert i. induction table as [|y rest IH]; intros i Hin.
  - by apply elem_of_nil in Hin.
  - simpl. destruct (decide (y = x)) as [-> | Hne].
    + rewrite bool_decide_eq_true_2 by done. exists 0%nat. split; [lia | done].
    + rewrite bool_decide_eq_false_2 by done.
      apply elem_of_cons in Hin as [? | Hin]; [congruence|].
      destruct (IH (i + 1) Hin) as (j & Hidx & Hj).
      exists (S j). split; [lia | done].
Qed.

Lemma index_IndexOf table x :
  x ∈ table -> index table (stringSlice.IndexOf table x) = Returns x.
Proof.
  intros Hin. unfold stringSlice.IndexOf.
  destruct (stringSlice_indexFrom_lookup 0 table x Hin) as (j & -> & Hj).
  unfold index. pose proof (lookup_lt_Some _ _ _ Hj) as Hlt.
  replace ((0 + Z.of_nat j <? 0) || (Z.of_nat (length table) <=? 0 + Z.of_nat j))
    with false
    by (symmetry; apply orb_false_iff; split; [apply Z.ltb_ge | apply Z.leb_gt]; lia).
  replace (Z.to_nat (0 + Z.of_nat j)) with j by lia. by rewrite Hj.
Qed.

Lemma insert_next {A : Type} (done todo : list A) (x y : A) :
  <[length done := x]> (done ++ y :: todo) = (done ++ [x]) ++ todo.
Proof.
  rewrite insert_app_r_alt by lia. rewrite Nat.sub_diag. simpl.
  by rewrite <- app_assoc.
Qed.

Lemma readNames_spec l2 l1 r :
  readNames (length l2) (length l1) (l1 ++ replicate (length l2) "") (map TString l2 ++ r)
  = (l1 ++ l2, None, r).
Proof.
  revert l1. induction l2 as [|x l2 IH]; intros l1; simpl.
  - by rewrite app_nil_r.
  - rewrite insert_next.
    replace (S (length l1)) with (length (l1 ++ [x]))
      by (rewrite length_app; simpl; lia).
    rewrite IH. by rewrite <- app_assoc.
Qed.

Lemma readFields_spec table l2 l1 r :
  Forall (fun f => supported (Value f) /\ Name f ∈ table) l2 ->
  readFields (length l2) (length l1) table (l1 ++ replicate (length l2) zeroField)
    (flat_map (fieldTokens table) l2 ++ r)
  = Returns (l1 ++ l2, None, r).
Proof.
  intros Hall. revert l1. induction Hall as [|f l2 [Hv Hn] _ IH]; intros l1; simpl.
  - by rewrite app_nil_r.
  - rewrite index_IndexOf by done. simpl.
    rewrite <- app_assoc, readValue_spec by done.
    rewrite insert_next.
    replace (S (length l1)) with (length (l1 ++ [mkField (Name f) (Value f)]))
      by (rewrite length_app; simpl; lia).
    rewrite IH. rewrite <- app_assoc. by destruct f.
Qed.

Lemma make_length {A : Type} (zero : A) (n : nat) :
  make zero (Z.of_nat n) = Returns (replicate n zero).
Proof.
  unfold make. destruct (Z.ltb_spec (Z.of_nat n) 0); [lia|].
  by rewrite Nat2Z.id.
Qed.

Lemma readHistory_S count i table entries r :
  readHistory (S count) i table entries r
  = let '(sig, err, r) := Signature.DeserializeFromBufRW Signature.zero r in
    match err with
    | Some e => Returns (entries, Some e, r)
    | None =>
        let '(nFields, err, r) := bufrw.ReadInt r in
        match err with
        | Some e => Returns (entries, Some e, r)
        | None =>
            fs ← make zeroField nFields;
            '(fs, err, r) ← readFields (Z.to_nat nFields) 0 table fs r;
            match err with
            | Some e => Returns (entries, Some e, r)
            | None =>
                readHistory count (S i) table (<[i := mkHistory fs sig]> entries) r
            end
        end
    end.
Proof. reflexivity. Qed.

Lemma readHistory_spec table l2 l1 r :
  Forall
    (fun e => serializable (signature e)
              /\ Forall (fun f => supported (Value f) /\ Name f ∈ table) (fields e))
    l2 ->
  readHistory (length l2) (length l1) table (l1 ++ replicate (length l2) zeroHistory)
    (flat_map (entryTokens table) l2 ++ r)
  = Returns (l1 ++ l2, None, r).
Proof.
  intros Hall. revert l1. induction Hall as [|e l2 [Hsig Hfs] _ IH]; intros l1.
  - simpl. by rewrite app_nil_r.
  - change (length (e :: l2)) with (S (length l2)).
    change (flat_map (entryTokens table) (e :: l2))
      with (entryTokens table e ++ flat_map (entryTokens table) l2).
    unfold entryTokens at 1. rewrite <- !app_assoc.
    rewrite readHistory_S.
    rewrite DeserializeFromBufRW_spec by done.
    rewrite <- app_comm_cons. cbn [bufrw.ReadInt].
    rewrite make_length. cbn [mbind run_bind]. rewrite Nat2Z.id.
    pose proof (readFields_spec table (fields e) []
                  (flat_map (entryTokens table) l2 ++ r) Hfs) as Hread.
    simpl in Hread. rewrite Hread. cbn [mbind run_bind].
    cbn [replicate]. rewrite insert_next.
    replace (S (length l1)) with (length (l1 ++ [mkHistory (fields e) (signature e)]))
      by (rewrite length_app; simpl; lia).
    rewrite IH. rewrite <- app_assoc. by destruct e.
Qed.

Lemma allNames_elem entries e f :
  e ∈ entries -> f ∈ fields e -> Name f ∈ allNames entries.
Proof.
  intros He Hf. unfold allNames.
  apply list_elem_of_In, in_flat_map. exists e. split; [by apply list_elem_of_In|].
  apply list_elem_of_In. unfold names. by apply list_elem_of_fmap_2.
Qed.

Lemma DeserializeFrom_spec values receiver r :
  encodable values ->
  DeserializeFrom receiver (historyTokens values ++ r) = Returns (values, None, r).
Proof.
  intros Henc. unfold historyTokens, DeserializeFrom.
  set (table := firstOccurrences (allNames (history values))).
  rewrite <- !app_comm_cons. cbn [bufrw.ReadByteValue bufrw.ReadInt Z.eqb negb].
  simpl (negb (1 =? 1)). cbv iota.
  rewrite make_length. cbn [mbind run_bind]. rewrite Nat2Z.id.
  rewrite <- app_assoc.
  pose proof (readNames_spec table []) as Hnames. simpl in Hnames.
  rewrite Hnames. rewrite <- app_comm_cons. cbn [bufrw.ReadInt].
  rewrite make_length. cbn [mbind run_bind]. rewrite Nat2Z.id.
  pose proof (readHistory_spec table (history values) [] r) as Hhist.
  simpl in Hhist. rewrite Hhist; [by destruct values|].
  unfold encodable in Henc. rewrite Forall_forall in Henc. apply Forall_forall.
  intros e He. destruct (Henc e He) as [Hsig Hfs]. split; [done|].
  rewrite Forall_forall in Hfs. apply Forall_forall. intros f Hf. split; [by apply Hfs|].
  apply firstOccurrences_elem. by eapply allNames_elem.
Qed.

(** C3. For a history whose entries carry values of the twelve shapes and
    serializable signatures, [Serialize] succeeds, and [Deserialize] on the
    stream it wrote succeeds and gives back the same history: the same
    entries, signatures, field names and values in the same order. The
    stream holds each distinct field name once, in the order of first
    occurrence, and every field as the index of its name in that table,
    through which the name is found again. *)
Theorem Deserialize_Serialize (values receiver : AuditableValues) :
  encodable values ->
  let table := firstOccurrences (allNames (history values)) in
  Serialize values = (Some (historyTokens values), None)
  /\ Deserialize receiver (historyTokens values) = Returns (values, None)
  /\ collectNames (history values) = table
  /\ NoDup table
  /\ (forall name, name ∈ table <-> name ∈ allNames (history values))
  /\ (forall e f, e ∈ history values -> f ∈ fields e ->
        index table (stringSlice.IndexOf table (Name f)) = Returns (Name f)).
Proof.
  intros Henc table. split_and!.
  - by apply Serialize_spec.
  - unfold Deserialize.
    pose proof (DeserializeFrom_spec values receiver [] Henc) as Hread.
    rewrite app_nil_r in Hread. by rewrite Hread.
  - apply collectNames_spec.
  - apply firstOccurrences_NoDup.
  - intros name. apply firstOccurrences_elem.
  - intros e f He Hf. apply index_IndexOf, firstOccurrences_elem.
    by eapply allNames_elem.
Qed.

Lemma exampleShapes_encodable : encodable exampleShapes.
Proof.
  unfold encodable, exampleShapes. simpl history.
  repeat (constructor;
          [split;
           [split; [split; reflexivity | vm_compute; reflexivity]
           | simpl;
             repeat (constructor;
                     [simpl;
                      first [exact I
                            | unfold magicValueHistoryCreation, magicValueFieldRemoved;
                              lia]|]);
             constructor]
          |]).
  constructor.
Defined.

Lemma Deserialize_Serialize_witness :
  encodable exampleShapes
  /\ exists b,
       Serialize exampleShapes = (Some b, None)
       /\ Deserialize (mkValues []) b = Returns (exampleShapes, None).
Proof.
  split; [exact exampleShapes_encodable|].
  exists (historyTokens exampleShapes).
  pose proof (Deserialize_Serialize exampleShapes (mkValues [])
                exampleShapes_encodable) as Hall.
  cbv zeta in Hall. destruct Hall as (Hser & Hde & _).
  split; [exact Hser | exact Hde].
Defined.

(** ** States the engine cannot follow *)

(** A float that changes from the negative to the positive zero is not a
    change for [equals]: no old value is recorded and the rollback keeps the
    positive zero. The two values agree without being the same. *)
Example RollbackTo_negative_zero :
  let negativeZero := VFloat64 (2 ^ 63) in
  let positiveZero := VFloat64 0 in
  let old := liveObject [mkField "x" negativeZero; mkField "y" (VInt 1)] in
  let new := liveObject [mkField "x" positiveZero; mkField "y" (VInt 2)] in
  let values :=
    mkValues
      [mkHistory [mkField "" (VMagic magicValueHistoryCreation)] (exampleSig 1);
       mkHistory [mkField "y" (VInt 1)] (exampleSig 2)] in
  Audit exampleValues1 (Some old) new (exampleSig 2) = Returns (values, true, None)
  /\ RollbackTo values new (timestamp (exampleSig 1))
     = (mkStored (Some [mkField "x" positiveZero; mkField "y" (VInt 1)])
          (timestamp (exampleSig 1)) None None, None)
  /\ valueAgree negativeZero positiveZero
  /\ negativeZero <> positiveZero.
Proof.
  split_and!; [vm_compute; reflexivity | vm_compute; reflexivity | | discriminate].
  right. vm_compute. reflexivity.
Qed.

(** A field whose value is the marker of removal: when the field goes, the
    marker is recorded as its old value, and the rollback takes it for the
    order to remove the field. *)
Example RollbackTo_marker_value :
  let old := liveObject [mkField "k" (VMagic magicValueFieldRemoved)] in
  let new := liveObject [] in
  let values :=
    mkValues
      [mkHistory [mkField "" (VMagic magicValueHistoryCreation)] (exampleSig 1);
       mkHistory [mkField "k" (VMagic magicValueFieldRemoved)] (exampleSig 2)] in
  Audit exampleValues1 (Some old) new (exampleSig 2) = Returns (values, true, None)
  /\ RollbackTo values new (timestamp (exampleSig 1))
     = (mkStored (Some []) (timestamp (exampleSig 1)) None None, None).
Proof. split; vm_compute; reflexivity. Qed.

(** Two fields of one name: both are recorded when they go, and the
    rollback restores one field, with the value of the second. *)
Example RollbackTo_duplicate_names :
  let old := liveObject [mkField "a" (VInt 1); mkField "a" (VInt 2)] in
  let new := liveObject [] in
  let values :=
    mkValues
      [mkHistory [mkField "" (VMagic magicValueHistoryCreation)] (exampleSig 1);
       mkHistory [mkField "a" (VInt 1); mkField "a" (VInt 2)] (exampleSig 2)] in
  Audit exampleValues1 (Some old) new (exampleSig 2) = Returns (values, true, None)
  /\ RollbackTo values new (timestamp (exampleSig 1))
     = (mkStored (Some [mkField "a" (VInt 2)]) (timestamp (exampleSig 1)) None None,
        None).
Proof. split; vm_compute; reflexivity. Qed.

(** A state with a NaN audited against itself: [equals] holds the NaN
    different from itself, and an entry is appended. *)
Example Audit_NaN_against_itself :
  let state := liveObject [mkField "x" (VFloat64 9221120237041090560)] in
  equals (VFloat64 9221120237041090560) (VFloat64 9221120237041090560) = Returns false
  /\ Audit exampleValues1 (Some state) state (exampleSig 2)
     = Returns (addHistory exampleValues1 (exampleSig 2)
                  [mkField "x" (VFloat64 9221120237041090560)],
                true, None).
Proof. split; vm_compute; reflexivity. Qed.

(** A name the first entry mentions: [SignaturesForField] does not skip the
    first entry, and the creation signature comes twice. *)
Example SignaturesForField_creation_twice :
  SignaturesForField exampleValues3 ""
  = [exampleSig 1; exampleSig 1].
Proof. reflexivity. Qed.

(** * Further properties of the package *)

(** ** Auditors *)

Lemma Split_length s : length (Split s) = S (countSlash s).
Proof.
  induction s as [|c s IH]; [reflexivity|].
  simpl. destruct (Ascii.eqb c slash); simpl.
  - by rewrite IH.
  - destruct (Split s) as [|piece rest]; simpl in *; [discriminate|done].
Qed.

Lemma Split_one s p : Split s = [p] -> s = p /\ containsSlash p = false.
Proof.
  revert p. induction s as [|c s IH]; intros p Hs; simpl in *.
  - by inversion Hs.
  - destruct (Ascii.eqb c slash) eqn:Hc.
    + inversion Hs as [[Hp Hrest]].
      pose proof (Split_length s) as Hlen. rewrite Hrest in Hlen. discriminate.
    + pose proof (Split_length s) as Hlen.
      destruct (Split s) as [|piece rest] eqn:Hsplit; [discriminate|].
      inversion Hs; subst.
      destruct (IH piece eq_refl) as [-> Hno].
      split; [done|]. simpl. by rewrite Hc.
Qed.

Lemma Split_two s k i :
  Split s = [k; i] ->
  s = k +:+ String slash i /\ containsSlash k = false /\ containsSlash i = false.
Proof.
  revert k. induction s as [|c s IH]; intros k Hs; simpl in *; [discriminate|].
  destruct (Ascii.eqb c slash) eqn:Hc.
  - inversion Hs as [[Hk Hrest]]. apply Split_one in Hrest as [-> Hno].
    apply Ascii.eqb_eq in Hc as ->. done.
  - pose proof (Split_length s) as Hlen.
    destruct (Split s) as [|piece rest] eqn:Hsplit; [discriminate|].
    inversion Hs; subst.
    destruct (IH piece eq_refl) as (-> & Hk & Hi).
    split_and!; [done| |done]. simpl. by rewrite Hc.
Qed.

(** X1. An auditor that [NewAuditor] returns has the kind and the id it was
    made of; [Decode] of its encoding succeeds and gives the auditor back,
    and two such auditors of the same encoding are the same. *)
Theorem NewAuditor_Encode_Decode (k i : string) (a receiver : Auditor) :
  NewAuditor k i = Returns a ->
  Auditor.Kind a = k /\ Auditor.ID a = i
  /\ Auditor.Decode receiver (Auditor.Encode a) = (a, None)
  /\ (forall k' i' b,
        NewAuditor k' i' = Returns b -> Auditor.Encode b = Auditor.Encode a -> b = a).
Proof.
  assert (Hvalid : forall k i a, NewAuditor k i = Returns a ->
                     a = mkAuditor k i /\ validAuditor a).
  { clear. intros k i a. unfold NewAuditor, validAuditor.
    destruct (containsSlash k) eqn:Hk, (containsSlash i) eqn:Hi; simpl;
      intros Hnew; inversion Hnew; subst; done. }
  intros Hnew. destruct (Hvalid _ _ _ Hnew) as [-> Ha].
  split_and!; [done|done|by apply Decode_Encode|].
  intros k' i' b Hb Henc. destruct (Hvalid _ _ _ Hb) as [-> Hvb].
  pose proof (Decode_Encode _ Auditor.zero Hvb) as Hdec.
  rewrite Henc, (Decode_Encode _ Auditor.zero Ha) in Hdec. congruence.
Qed.

Lemma NewAuditor_Encode_Decode_witness :
  NewAuditor "kind1" "id1" = Returns (mkAuditor "kind1" "id1")
  /\ Auditor.Decode Auditor.zero "kind1/id1" = (mkAuditor "kind1" "id1", None).
Proof.
  split; [reflexivity|].
  exact (proj1 (proj2 (proj2
    (NewAuditor_Encode_Decode "kind1" "id1" (mkAuditor "kind1" "id1") Auditor.zero
       eq_refl)))).
Defined.

(** X2. [Decode] succeeds exactly on the strings that hold one slash: the
    auditor it sets has the text before the slash as its kind and the text
    after it as its id, so that [Encode] gives the string back and neither
    part holds a slash. On any other string it fails with the message
    "invalid encoded actor: %s" and leaves the receiver as it was. *)
Theorem Auditor_Decode_cases (a : Auditor) (src : string) :
  (countSlash src = 1%nat ->
   exists decoded,
     Auditor.Decode a src = (decoded, None)
     /\ Auditor.Encode decoded = src
     /\ containsSlash (Auditor.Kind decoded) = false
     /\ containsSlash (Auditor.ID decoded) = false)
  /\
  (countSlash src <> 1%nat ->
   Auditor.Decode a src
   = (a, Some (Errorf "invalid encoded actor: %s" [ArgString src]))).
Proof.
  pose proof (Split_length src) as Hlen.
  unfold Auditor.Decode. split; intros Hcount.
  - rewrite Hcount in Hlen.
    destruct (Split src) as [|k [|i [|? ?]]] eqn:Hsplit; try discriminate.
    apply Split_two in Hsplit as (-> & Hk & Hi).
    exists (mkAuditor k i). split_and!; done.
  - destruct (Split src) as [|k [|i [|? ?]]] eqn:Hsplit; try done.
    simpl in Hlen. exfalso. apply Hcount. lia.
Qed.

(** ** The codec of signatures *)

Lemma SerializeToBufRW_storable sig w :
  (Signature.SerializeToBufRW sig w).1 = None <-> storable (timestamp sig).
Proof.
  unfold Signature.SerializeToBufRW, storable, inBounds, Time.Before, Time.After.
  change (instant Signature.minAllowed) with 1.
  change (instant Signature.maxAllowed) with 7258118400000000000.
  destruct (Z.eqb_spec (Time.Zone (timestamp sig)) 0) as [Hzone | Hzone]; simpl;
    [|split; [done | intros [? _]; done]].
  destruct (Time.IsZero (timestamp sig)) eqn:Hz; simpl; [by intuition|].
  destruct (Z.ltb_spec (instant (timestamp sig)) 1);
    destruct (Z.ltb_spec 7258118400000000000 (instant (timestamp sig)));
    simpl; (split; [intros Hnone | intros [_ [? | ?]]]);
    try discriminate; try lia; try done.
  all: split; [done | right; lia].
Qed.

Lemma Serialize_storable sig :
  (Signature.Serialize sig).2 = None <-> storable (timestamp sig).
Proof.
  rewrite <- (SerializeToBufRW_storable sig []). unfold Signature.Serialize.
  destruct (Signature.SerializeToBufRW sig []) as [[e|] w]; simpl; split; done.
Qed.

(** X3. A signature whose auditor holds no slash and whose timestamp is in
    a zone of offset zero, and is zero or within the bounds, serializes, and
    [Deserialize] of the bytes gives the signature back; the result is
    [Equal] to it. *)
Theorem Signature_Deserialize_Serialize (sig receiver : Signature) :
  containsSlash (Auditor.Kind (Signature.Auditor sig)) = false ->
  containsSlash (Auditor.ID (Signature.Auditor sig)) = false ->
  Time.Zone (Signature.Timestamp sig) = 0 ->
  Time.IsZero (Signature.Timestamp sig) = true \/ inBounds (Signature.Timestamp sig) ->
  exists b,
    Signature.Serialize sig = (Some b, None)
    /\ Signature.Deserialize receiver b = (sig, None)
    /\ Signature.Equal (Signature.Deserialize receiver b).1 sig = true.
Proof.
  intros Hk Hi Hzone Ht.
  assert (Hser : serializable sig).
  { split; [by split|]. apply Serialize_storable. by split. }
  exists (signatureTokens sig).
  assert (Hdes : Signature.Deserialize receiver (signatureTokens sig) = (sig, None)).
  { unfold Signature.Deserialize.
    rewrite <- (app_nil_r (signatureTokens sig)).
    by rewrite DeserializeFromBufRW_spec. }
  split_and!.
  - unfold Signature.Serialize.
    rewrite SerializeToBufRW_spec by apply Hser. reflexivity.
  - exact Hdes.
  - rewrite Hdes. simpl. unfold Signature.Equal, Auditor.Equal, Time.Equal.
    rewrite !bool_decide_eq_true_2 by done. simpl. apply Z.eqb_refl.
Qed.

Lemma Signature_Deserialize_Serialize_witness :
  let sig := NewSignature (mkAuditor "kind" "id") (Time.Date 2010 1 2 3 4 5 123456789) in
  exists b,
    Signature.Serialize sig = (Some b, None)
    /\ Signature.Deserialize Signature.zero b = (sig, None)
    /\ Signature.Equal (Signature.Deserialize Signature.zero b).1 sig = true.
Proof.
  apply (Signature_Deserialize_Serialize
           (NewSignature (mkAuditor "kind" "id") (Time.Date 2010 1 2 3 4 5 123456789))
           Signature.zero).
  - reflexivity.
  - reflexivity.
  - reflexivity.
  - right. unfold inBounds. vm_compute. split; discriminate.
Defined.

(** X4. [DeserializeFromBufRW] sets the receiver only when it succeeds:
    on every error the receiver is as it was. It succeeds exactly on a
    stream that begins with the version 1, a string with one slash and an
    integer that is not negative; the signature then has the two parts of
    the string as its auditor and, as its timestamp, the zero time for the
    integer 0 and the UTC time that many nanoseconds after the Unix epoch
    otherwise, and the reader is left after the integer. *)
Theorem Signature_Deserialize_atomic (receiver : Signature) (r : bufrw.Reader) :
  (forall sig e r',
     Signature.DeserializeFromBufRW receiver r = (sig, Some e, r') -> sig = receiver)
  /\
  (forall sig r',
     Signature.DeserializeFromBufRW receiver r = (sig, None, r')
     <-> exists k i n,
           r = TInt 1 :: TString (k +:+ "/" +:+ i) :: TInt64 n :: r'
           /\ containsSlash k = false /\ containsSlash i = false /\ 0 <= n
           /\ sig = NewSignature (mkAuditor k i)
                      (if n =? 0 then Time.zero else Time.UnixUTC n)).
Proof.
  split.
  - intros sig e r'. unfold Signature.DeserializeFromBufRW.
    repeat case_match; intros Heq; by simplify_eq.
  - intros sig r'. split.
    + unfold Signature.DeserializeFromBufRW.
      destruct r as [|[| |version| | | | | | | | |] r]; simpl; try done.
      destruct (Z.eqb_spec version 1) as [-> | Hv]; simpl; [|done].
      destruct r as [|[| | | | |src| | | | | |] r]; simpl; try done.
      unfold Auditor.Decode.
      destruct (Split src) as [|k [|i [|? ?]]] eqn:Hsplit; try done.
      apply Split_two in Hsplit as (-> & Hk & Hi).
      destruct r as [|[| | |n| | | | | | | |] r]; simpl; try done.
      destruct (Z.ltb_spec n 0); [done|].
      intros [= <- <-]. exists k, i, n. split_and!; try done.
      destruct (Z.gtb_spec n 0), (Z.eqb_spec n 0); try lia; reflexivity.
    + intros (k & i & n & -> & Hk & Hi & Hn & ->).
      unfold Signature.DeserializeFromBufRW. cbn [bufrw.ReadInt bufrw.ReadString].
      simpl (negb (1 =? 1)). cbv iota.
      pose proof (Decode_Encode (mkAuditor k i) Auditor.zero (conj Hk Hi)) as Hdec.
      unfold Auditor.Encode in Hdec. simpl in Hdec. rewrite Hdec.
      cbn [bufrw.ReadInt64].
      destruct (Z.ltb_spec n 0); [lia|].
      destruct (Z.gtb_spec n 0), (Z.eqb_spec n 0); try lia; reflexivity.
Qed.

(** X5. [Deserialize] does not check the upper bound that [Serialize]
    enforces: a stream whose integer is beyond 2200-01-01T00:00:00Z is read
    without error, and the signature it gives fails to serialize with the
    message that its timestamp is out of bounds. *)
Theorem Signature_Deserialize_no_upper_bound (k i : string) (n : Z)
    (receiver : Signature) :
  containsSlash k = false -> containsSlash i = false ->
  instant Signature.maxAllowed < n ->
  let sig := NewSignature (mkAuditor k i) (Time.UnixUTC n) in
  Signature.Deserialize receiver [TInt 1; TString (k +:+ "/" +:+ i); TInt64 n]
  = (sig, None)
  /\ Signature.Serialize sig
     = (None, Some (Errorf "signature timestamp %s is out of bounds"
                      [ArgTime (Time.UnixUTC n)])).
Proof.
  intros Hk Hi Hn sig.
  change (instant Signature.maxAllowed) with 7258118400000000000 in Hn.
  split.
  - unfold Signature.Deserialize, Signature.DeserializeFromBufRW. simpl.
    pose proof (Decode_Encode (mkAuditor k i) Auditor.zero (conj Hk Hi)) as Hdec.
    unfold Auditor.Encode in Hdec. simpl in Hdec. rewrite Hdec.
    destruct (Z.ltb_spec n 0); [lia|]. destruct (Z.gtb_spec n 0); [|lia].
    reflexivity.
  - assert (Hzero : Time.IsZero (Time.UnixUTC n) = false).
    { unfold Time.IsZero. change (instant Time.zero) with (-62135596800000000000).
      simpl. apply Z.eqb_neq. lia. }
    assert (Hafter : Time.After (Time.UnixUTC n) Signature.maxAllowed = true).
    { unfold Time.After. apply Z.ltb_lt. simpl.
      by change (instant Signature.maxAllowed) with 7258118400000000000. }
    unfold Signature.Serialize, Signature.SerializeToBufRW, sig, NewSignature.
    cbn [timestamp auditor]. rewrite Hzero, Hafter, orb_true_r. reflexivity.
Qed.

Lemma Signature_Deserialize_no_upper_bound_witness :
  Signature.Deserialize Signature.zero
    [TInt 1; TString "kind/id"; TInt64 8000000000000000000]
  = (NewSignature (mkAuditor "kind" "id") (Time.UnixUTC 8000000000000000000), None)
  /\ Signature.Serialize
       (NewSignature (mkAuditor "kind" "id") (Time.UnixUTC 8000000000000000000))
     = (None, Some (Errorf "signature timestamp %s is out of bounds"
                      [ArgTime (Time.UnixUTC 8000000000000000000)])).
Proof.
  apply (Signature_Deserialize_no_upper_bound "kind" "id" 8000000000000000000
           Signature.zero); [reflexivity | reflexivity |].
  change (instant Signature.maxAllowed) with 7258118400000000000. lia.
Defined.

(** ** Slices of signatures *)

Lemma reverseFrom_spec (s done : list Signature) (count : nat) :
  (length done + count = length s)%nat ->
  SignatureSlice.reverseFrom s (done ++ replicate count Signature.zero)
    (length s) (length done) count
  = done ++ rev (take count s).
Proof.
  revert done. induction count as [|count IH]; intros done Hlen.
  - by rewrite ?take_0.
  - cbn [SignatureSlice.reverseFrom replicate].
    rewrite insert_next.
    replace (S (length done))
      with (length (done ++ [nth (length s - 1 - length done) s Signature.zero]))
      by (rewrite length_app; simpl; lia).
    rewrite IH by (rewrite length_app; simpl; lia).
    replace (length s - 1 - length done)%nat with count by lia.
    destruct (lookup_lt_is_Some_2 s count ltac:(lia)) as [x Hx].
    rewrite (take_S_r _ _ _ Hx), rev_app_distr. simpl.
    rewrite <- app_assoc. simpl.
    by rewrite (nth_lookup_Some _ _ _ _ Hx).
Qed.

Lemma Reversed_rev (s : list Signature) :
  SignatureSlice.Reversed (Some s) = Some (rev s).
Proof.
  unfold SignatureSlice.Reversed. f_equal.
  pose proof (reverseFrom_spec s [] (length s) eq_refl) as Hspec.
  simpl in Hspec. rewrite Hspec. by rewrite firstn_all.
Qed.

Lemma head_rev_signature (l : list auditHistory) :
  l <> [] ->
  head (rev (map signature l))
  = Some (signature (nth (length l - 1) l zeroHistory)).
Proof.
  destruct l as [|x l _] using rev_ind; [done|]. intros _.
  rewrite map_app, rev_app_distr, length_app. simpl.
  replace (length l + 1 - 1)%nat with (length l) by lia.
  by rewrite app_nth2, Nat.sub_diag by lia.
Qed.

(** X6. [Reversed] returns the signatures in the opposite order and a
    [nil] slice for a [nil] slice; reversing twice gives the slice back, and
    the timestamps of the reversed slice are the timestamps in the opposite
    order. The reversed signatures of a history that is not empty begin with
    the latest signature and end with the creation signature. *)
Theorem SignatureSlice_Reversed_spec (s : option (list Signature)) :
  SignatureSlice.Reversed s = @rev Signature <$> s
  /\ SignatureSlice.Reversed (SignatureSlice.Reversed s) = s
  /\ Timestamps (elems (SignatureSlice.Reversed s)) = rev (Timestamps (elems s))
  /\ (forall values,
        s = Some (Signatures values) ->
        IsZero values = false ->
        head (elems (SignatureSlice.Reversed s)) = Some (LatestSignature values)
        /\ last (elems (SignatureSlice.Reversed s)) = Some (CreationSignature values)).
Proof.
  assert (Hrev : SignatureSlice.Reversed s = @rev Signature <$> s).
  { destruct s as [s|]; [apply Reversed_rev | reflexivity]. }
  split_and!.
  - exact Hrev.
  - destruct s as [s|]; [|reflexivity].
    by rewrite !Reversed_rev, rev_involutive.
  - destruct s as [s|]; [|reflexivity].
    rewrite Reversed_rev. unfold Timestamps. simpl. by rewrite map_rev.
  - intros values -> Hnz. rewrite Reversed_rev.
    unfold IsZero in Hnz. unfold Signatures, LatestSignature, CreationSignature, IsZero.
    rewrite Hnz. cbn [elems default].
    destruct (history values) as [|first rest]; [done|].
    split.
    + apply head_rev_signature. done.
    + simpl. by rewrite last_snoc.
Qed.

(** ** Slices of strings and of fields *)

Lemma stringSlice_indexFrom_first i slice s :
  ((s ∉ slice) /\ stringSlice.indexFrom i slice s = -1)
  \/ exists j : nat,
       stringSlice.indexFrom i slice s = i + Z.of_nat j
       /\ slice !! j = Some s /\ s ∉ take j slice.
Proof.
  revert i. induction slice as [|x rest IH]; intros i; simpl.
  - left. split; [apply not_elem_of_nil | done].
  - destruct (decide (x = s)) as [-> | Hne].
    + rewrite bool_decide_eq_true_2 by done. right. exists 0%nat.
      split_and!; [lia | done | apply not_elem_of_nil].
    + rewrite bool_decide_eq_false_2 by done.
      destruct (IH (i + 1)) as [[Hnot Hidx] | (j & Hidx & Hj & Hbefore)].
      * left. split; [|done]. rewrite not_elem_of_cons. split; [congruence | done].
      * right. exists (S j). split_and!; [lia | done |].
        simpl. rewrite not_elem_of_cons. split; [congruence | done].
Qed.

(** X7. On a slice of strings [IndexOf] returns the index of the first
    element equal to the string, an index within the slice before which the
    string does not occur, and -1 exactly when the string is not in the
    slice; [Contains] returns true exactly when [IndexOf] does not return
    -1. *)
Theorem stringSlice_IndexOf_first (slice : list string) (s : string) :
  let i := stringSlice.IndexOf slice s in
  stringSlice.Contains slice s = negb (i =? -1)
  /\ (i = -1 <-> s ∉ slice)
  /\ (i <> -1 ->
      0 <= i < Z.of_nat (length slice)
      /\ slice !! Z.to_nat i = Some s
      /\ s ∉ take (Z.to_nat i) slice).
Proof.
  intros i. subst i. unfold stringSlice.IndexOf.
  rewrite stringSlice_Contains_spec.
  destruct (stringSlice_indexFrom_first 0 slice s)
    as [[Hnot ->] | (j & -> & Hj & Hbefore)].
  - split_and!; [by rewrite bool_decide_eq_false_2 | done | done].
  - assert (Hin : s ∈ slice) by (by eapply list_elem_of_lookup_2).
    pose proof (lookup_lt_Some _ _ _ Hj) as Hlt.
    replace (Z.to_nat (0 + Z.of_nat j)) with j by lia.
    split_and!.
    + rewrite bool_decide_eq_true_2 by done.
      symmetry. apply negb_true_iff, Z.eqb_neq. lia.
    + split; [intros; lia | intros Hnot; by destruct Hnot].
    + intros _. split_and!; [lia | lia | done | done].
Qed.

Lemma fieldSlice_indexFrom_first i s name :
  0 <= i ->
  ((name ∉ names s) /\ fieldSlice.indexFrom i s name = -1
   /\ fieldSlice.TryGet s name = (zeroField, false))
  \/ exists (j : nat) f,
       fieldSlice.indexFrom i s name = i + Z.of_nat j
       /\ s !! j = Some f /\ Name f = name
       /\ fieldSlice.TryGet s name = (f, true)
       /\ name ∉ names (take j s).
Proof.
  revert i. induction s as [|g rest IH]; intros i Hi;
    cbn [fieldSlice.indexFrom fieldSlice.TryGet].
  - left. split_and!; [apply not_elem_of_nil | done | done].
  - destruct (decide (Name g = name)) as [Hg | Hne].
    + rewrite !bool_decide_eq_true_2 by done. right. exists 0%nat, g.
      split_and!; [lia | done | done | done | apply not_elem_of_nil].
    + rewrite !bool_decide_eq_false_2 by done.
      destruct (IH (i + 1) ltac:(lia))
        as [(Hnot & Hidx & Hget) | (j & f & Hidx & Hj & Hname & Hget & Hbefore)].
      * left. split_and!; [|done|done].
        unfold names. rewrite fmap_cons, not_elem_of_cons. split; [congruence | done].
      * right. exists (S j), f. split_and!; [lia | done | done | done |].
        cbn [take]. unfold names. rewrite fmap_cons, not_elem_of_cons.
        split; [congruence | done].
Qed.

(** X8. On a slice of fields [IndexOf], [Contains] and [TryGet] agree on
    the first field of the name: when the name is absent [IndexOf] returns
    -1 and [TryGet] the zero field with false; otherwise [IndexOf] returns an
    index within the slice, [TryGet] returns the field at that index with
    true, and no field before it has the name. [Contains] is the boolean of
    [TryGet]. *)
Theorem fieldSlice_first_match (s : list Field) (name : string) :
  let i := fieldSlice.IndexOf s name in
  fieldSlice.Contains s name = (fieldSlice.TryGet s name).2
  /\ (name ∉ names s ->
      i = -1 /\ fieldSlice.TryGet s name = (zeroField, false))
  /\ (name ∈ names s ->
      0 <= i < Z.of_nat (length s)
      /\ exists f,
           s !! Z.to_nat i = Some f /\ Name f = name
           /\ fieldSlice.TryGet s name = (f, true)
           /\ name ∉ names (take (Z.to_nat i) s)).
Proof.
  intros i. subst i. unfold fieldSlice.Contains, fieldSlice.IndexOf.
  destruct (fieldSlice_indexFrom_first 0 s name ltac:(lia))
    as [(Hnot & -> & ->) | (j & f & -> & Hj & Hname & -> & Hbefore)].
  - split_and!; [done | done | done].
  - assert (Hin : name ∈ names s).
    { rewrite <- Hname. apply list_elem_of_fmap_2. by eapply list_elem_of_lookup_2. }
    pose proof (lookup_lt_Some _ _ _ Hj) as Hlt.
    replace (Z.to_nat (0 + Z.of_nat j)) with j by lia.
    split_and!.
    + simpl. apply negb_true_iff, Z.eqb_neq. lia.
    + done.
    + intros _. split; [lia|]. by exists f.
Qed.

Lemma TryGet_Set s k v k' :
  fieldSlice.TryGet (fieldSlice.Set_ s k v) k'
  = if bool_decide (k' = k) then (mkField k v, true) else fieldSlice.TryGet s k'.
Proof.
  induction s as [|f rest IH].
  - unfold fieldSlice.Set_. simpl.
    destruct (decide (k' = k)) as [-> | Hne].
    + by rewrite !bool_decide_eq_true_2.
    + rewrite !bool_decide_eq_false_2 by congruence. done.
  - rewrite Set_cons.
    destruct (decide (Name f = k)) as [Hf | Hf].
    + rewrite (bool_decide_eq_true_2 _ Hf). rewrite !TryGet_cons. simpl.
      destruct (decide (k' = k)) as [-> | Hne].
      * by rewrite !bool_decide_eq_true_2.
      * rewrite !bool_decide_eq_false_2 by congruence. done.
    + rewrite (bool_decide_eq_false_2 _ Hf). rewrite !TryGet_cons, IH.
      destruct (decide (Name f = k')) as [Hf' | Hf'].
      * rewrite (bool_decide_eq_true_2 _ Hf').
        rewrite bool_decide_eq_false_2 by congruence. done.
      * by rewrite (bool_decide_eq_false_2 _ Hf').
Qed.

Lemma length_Set s k v :
  length (fieldSlice.Set_ s k v)
  = if fieldSlice.Contains s k then length s else S (length s).
Proof.
  induction s as [|f rest IH]; [reflexivity|].
  rewrite Set_cons. unfold fieldSlice.Contains in *. rewrite IndexOf_cons.
  destruct (decide (Name f = k)) as [Hf | Hf].
  - by rewrite !(bool_decide_eq_true_2 _ Hf).
  - rewrite !(bool_decide_eq_false_2 _ Hf). simpl. rewrite IH.
    pose proof (IndexOf_range rest k).
    destruct (Z.eqb_spec (fieldSlice.IndexOf rest k) (-1)) as [Heq | Hne]; simpl;
      [done|].
    destruct (Z.eqb_spec (fieldSlice.IndexOf rest k + 1) (-1)); [lia | done].
Qed.

(** X9. After [Set(name, value)], [TryGet] finds the field of that name
    and value under the name and what it found before under every other
    name. [Set] overwrites the first field of the name in place and
    otherwise appends the field at the end, so the slice grows by one
    exactly when the name was absent; setting the same field twice is
    setting it once. *)
Theorem fieldSlice_Set_TryGet (s : list Field) (k : string) (v : value) :
  (forall k',
     fieldSlice.TryGet (fieldSlice.Set_ s k v) k'
     = if bool_decide (k' = k) then (mkField k v, true) else fieldSlice.TryGet s k')
  /\ length (fieldSlice.Set_ s k v)
     = (if fieldSlice.Contains s k then length s else S (length s))
  /\ names (fieldSlice.Set_ s k v)
     = (if fieldSlice.Contains s k then names s else names s ++ [k])
  /\ fieldSlice.Set_ (fieldSlice.Set_ s k v) k v = fieldSlice.Set_ s k v.
Proof.
  split_and!.
  - intros k'. apply TryGet_Set.
  - apply length_Set.
  - rewrite names_Set.
    destruct (fieldSlice.Contains s k) eqn:Hc.
    + apply Contains_spec in Hc. by rewrite bool_decide_eq_true_2.
    + apply Contains_false in Hc. by rewrite bool_decide_eq_false_2.
  - induction s as [|f rest IH].
    + unfold fieldSlice.Set_, fieldSlice.IndexOf. simpl.
      by rewrite bool_decide_eq_true_2.
    + rewrite Set_cons. destruct (decide (Name f = k)) as [Hf | Hf].
      * rewrite (bool_decide_eq_true_2 _ Hf). rewrite Set_cons. simpl.
        by rewrite bool_decide_eq_true_2.
      * rewrite (bool_decide_eq_false_2 _ Hf). rewrite Set_cons.
        rewrite (bool_decide_eq_false_2 _ Hf). by rewrite IH.
Qed.

Lemma Remove_split s1 f s2 :
  Name f ∉ names s1 ->
  fieldSlice.Remove (s1 ++ f :: s2) (Name f)
  = s1 ++ match last s2 with
          | Some l => l :: take (length s2 - 1) s2
          | None => []
          end.
Proof.
  induction s1 as [|g s1 IH]; intros Hnot.
  - simpl. rewrite Remove_cons_eq by done.
    destruct s2 as [|x s2 _] using rev_ind; [done|].
    rewrite last_snoc, length_app. simpl.
    replace (length s2 + 1 - 1)%nat with (length s2) by lia.
    rewrite app_nth2, Nat.sub_diag by lia.
    by destruct s2.
  - unfold names in Hnot. rewrite fmap_cons in Hnot.
    apply not_elem_of_cons in Hnot as [Hg Hnot].
    simpl. rewrite Remove_cons_ne by done. by rewrite IH.
Qed.

Lemma TryGet_perm s1 s2 k :
  NoDup (names s1) -> s1 ≡ₚ s2 -> fieldSlice.TryGet s1 k = fieldSlice.TryGet s2 k.
Proof.
  intros Hnd Hperm.
  assert (Hnd2 : NoDup (names s2)) by (unfold names in *; by rewrite <- Hperm).
  destruct (fieldSlice.TryGet s1 k) as [f [|]] eqn:H1.
  - destruct (TryGet_found _ _ _ H1) as (_ & Hname & Hin).
    rewrite Hperm in Hin. symmetry. rewrite <- Hname. by apply TryGet_elem.
  - destruct (TryGet_missing _ _ _ H1) as [Hnone ->].
    apply to_map_lookup_None in Hnone.
    unfold names in Hnone. rewrite Hperm in Hnone.
    destruct (fieldSlice.TryGet s2 k) as [g [|]] eqn:H2.
    + destruct (TryGet_found _ _ _ H2) as (_ & Hname & Hin).
      exfalso. apply Hnone. rewrite <- Hname. by apply list_elem_of_fmap_2.
    + by destruct (TryGet_missing _ _ _ H2) as [_ ->].
Qed.

(** X10. [Remove] leaves a slice without the name as it is. Otherwise it
    removes the first field of the name by moving the last field of the
    slice into its place: the fields before it keep their places, the slice
    is shorter by one, and the other fields are kept as a multiset but not
    in their order. When the names are unique, [TryGet] afterwards finds
    nothing under the name and what it found before under every other
    name. *)
Theorem fieldSlice_Remove_spec (s : list Field) (k : string) :
  (k ∉ names s -> fieldSlice.Remove s k = s)
  /\
  (forall s1 f s2,
     s = s1 ++ f :: s2 -> Name f = k -> k ∉ names s1 ->
     fieldSlice.Remove s k
     = s1 ++ match last s2 with
             | Some l => l :: take (length s2 - 1) s2
             | None => []
             end
     /\ length (fieldSlice.Remove s k) = (length s - 1)%nat
     /\ s ≡ₚ f :: fieldSlice.Remove s k)
  /\
  (NoDup (names s) ->
   forall k',
     fieldSlice.TryGet (fieldSlice.Remove s k) k'
     = if bool_decide (k' = k) then (zeroField, false) else fieldSlice.TryGet s k').
Proof.
  split_and!.
  - apply Remove_absent.
  - intros s1 f s2 -> <- Hnot.
    assert (Hperm : s1 ++ f :: s2 ≡ₚ f :: fieldSlice.Remove (s1 ++ f :: s2) (Name f)).
    { rewrite Remove_split by done.
      rewrite <- Permutation_middle. do 2 f_equiv.
      destruct s2 as [|x s2 _] using rev_ind; [done|].
      rewrite last_snoc, length_app. simpl.
      replace (length s2 + 1 - 1)%nat with (length s2) by lia.
      rewrite take_app_length. symmetry. apply Permutation_cons_append. }
    split_and!; [by apply Remove_split | | exact Hperm].
    apply Permutation_length in Hperm. simpl in Hperm. lia.
  - intros Hnd k'.
    destruct (decide (k ∈ names s)) as [Hin | Hnot].
    + pose proof (names_Remove_perm s k Hin) as Hperm.
      pose proof (NoDup_Remove s k Hnd) as HndR.
      assert (Hk : k ∉ names (fieldSlice.Remove s k)).
      { rewrite Hperm in Hnd. by apply NoDup_cons in Hnd as [? _]. }
      destruct (names_split s k Hin Hnd) as (s1 & f & s2 & -> & Hname & Hk1 & Hk2).
      subst k.
      assert (Hp : s1 ++ f :: s2 ≡ₚ f :: fieldSlice.Remove (s1 ++ f :: s2) (Name f)).
      { rewrite Remove_split by done.
        rewrite <- Permutation_middle. do 2 f_equiv.
        destruct s2 as [|x s2 _] using rev_ind; [done|].
        rewrite last_snoc, length_app. simpl.
        replace (length s2 + 1 - 1)%nat with (length s2) by lia.
        rewrite take_app_length. symmetry. apply Permutation_cons_append. }
      rewrite (TryGet_perm _ _ k' Hnd Hp). rewrite TryGet_cons.
      destruct (decide (k' = Name f)) as [-> | Hne].
      * rewrite !bool_decide_eq_true_2 by done.
        destruct (fieldSlice.TryGet _ (Name f)) as [g [|]] eqn:Hg.
        -- destruct (TryGet_found _ _ _ Hg) as (_ & Hname & Hgin).
           apply (list_elem_of_fmap_2 Name) in Hgin. rewrite Hname in Hgin. done.
        -- by destruct (TryGet_missing _ _ _ Hg) as [_ ->].
      * by rewrite !bool_decide_eq_false_2 by congruence.
    + rewrite Remove_absent by done.
      destruct (decide (k' = k)) as [-> | Hne].
      * rewrite bool_decide_eq_true_2 by done.
        destruct (fieldSlice.TryGet s k) as [g [|]] eqn:Hg.
        -- destruct (TryGet_found _ _ _ Hg) as (_ & Hname & Hgin).
           exfalso. apply Hnot. rewrite <- Hname. by apply list_elem_of_fmap_2.
        -- by destruct (TryGet_missing _ _ _ Hg) as [_ ->].
      * by rewrite bool_decide_eq_false_2.
Qed.

(** ** Comparing values *)

Lemma equals_panics v1 v2 :
  (exists msg, equals v1 v2 = Panics msg) <-> ~ comparable v1.
Proof.
  destruct v1; simpl; split;
    try (intros [msg Hmsg]; discriminate Hmsg);
    try (intros Hnot; by destruct Hnot);
    try (intros _; by eexists); try (intros _ Hf; exact Hf).
Qed.

Lemma sliceEquals_diag {A : Type} (eqb : A -> A -> bool) (v : list A) :
  sliceEquals eqb v v = true <-> Forall (fun x => eqb x x = true) v.
Proof.
  unfold sliceEquals. rewrite Nat.eqb_refl. simpl.
  induction v as [|x v IH]; simpl.
  - split; [constructor | done].
  - rewrite Forall_cons_iff, <- IH.
    destruct (eqb x x); simpl; [|split; [done | by intros [? _]]].
    split; [done | by intros [_ ?]].
Qed.

Lemma float64_eq_diag x : float64.eq x x = negb (float64.isNaN x).
Proof.
  unfold float64.eq. rewrite Z.eqb_refl.
  destruct (float64.isNaN x); reflexivity.
Qed.

Lemma equals_diag v : equals v v = Returns true <-> comparable v /\ noNaN v.
Proof.
  destruct v; simpl; try (split; [intros Heq; discriminate Heq | by intros [? _]]).
  - unfold eqb_of. rewrite bool_decide_eq_true_2 by done. by split.
  - unfold eqb_of. rewrite bool_decide_eq_true_2 by done. by split.
  - rewrite Z.eqb_refl. by split.
  - rewrite Z.eqb_refl. by split.
  - rewrite float64_eq_diag. destruct (float64.isNaN v); simpl; split; try done.
    by intros [_ ?].
  - split; [done|intros _]. f_equal. apply sliceEquals_diag.
    apply Forall_forall. intros x _. unfold eqb_of. by apply bool_decide_eq_true.
  - split; [done|intros _]. f_equal. apply sliceEquals_diag.
    apply Forall_forall. intros x _. unfold eqb_of. by apply bool_decide_eq_true.
  - split; [done|intros _]. f_equal. apply sliceEquals_diag.
    apply Forall_forall. intros x _. apply Z.eqb_refl.
  - split; [done|intros _]. f_equal. apply sliceEquals_diag.
    apply Forall_forall. intros x _. apply Z.eqb_refl.
  - split.
    + intros [= Heq]. split; [done|]. apply sliceEquals_diag in Heq.
      eapply Forall_impl; [exact Heq|]. intros x Hx. cbv beta in Hx.
      rewrite float64_eq_diag in Hx. by destruct (float64.isNaN x).
    + intros [_ Hall]. f_equal. apply sliceEquals_diag.
      eapply Forall_impl; [exact Hall|]. intros x Hx. cbv beta in Hx.
      rewrite float64_eq_diag. by rewrite Hx.
  - split; [done|intros _]. f_equal. apply sliceEquals_diag.
    apply Forall_forall. intros x _. apply Z.eqb_refl.
Qed.

(** X11. [equals] panics exactly when its first argument is a magic value
    or of an unsupported type, whatever the second. Where it returns true it
    is symmetric and transitive; a value is equal to itself exactly when it
    is comparable and holds no NaN; and two values that [equals] holds equal
    are the same value unless the second holds a float zero. *)
Theorem equals_partial_equivalence (v1 v2 v3 : value) :
  ((exists msg, equals v1 v2 = Panics msg) <-> ~ comparable v1)
  /\ (equals v1 v2 = Returns true -> equals v2 v1 = Returns true)
  /\ (equals v1 v2 = Returns true -> equals v2 v3 = Returns true ->
      equals v1 v3 = Returns true)
  /\ (equals v1 v1 = Returns true <-> comparable v1 /\ noNaN v1)
  /\ (equals v1 v2 = Returns true -> noFloatZero v2 -> v1 = v2).
Proof.
  split_and!.
  - apply equals_panics.
  - apply equals_sym.
  - apply equals_trans.
  - apply equals_diag.
  - intros Heq. apply valueAgree_exact. by right.
Qed.

Lemma addedOrUpdated_panics O N acc :
  (exists msg, addedOrUpdated O N acc = Panics msg) <-> Exists (uncomparableOld O) N.
Proof.
  revert acc. induction N as [|f rest IH]; intros acc.
  - simpl. split; [intros [msg Hmsg]; discriminate Hmsg | intros Hex; inversion Hex].
  - rewrite Exists_cons. cbn [addedOrUpdated].
    destruct (fieldSlice.TryGet O (Name f)) as [oldField [|]] eqn:Hget.
    + destruct (equals (Value oldField) (Value f)) as [same|msg] eqn:Heq;
        unfold mbind, run_bind.
      * assert (Hcmp : comparable (Value oldField)).
        { destruct (Value oldField); simpl in *; done. }
        assert (Hnot : ~ uncomparableOld O f).
        { intros (old & Hold & Hbad). rewrite Hget in Hold.
          injection Hold as <-. done. }
        destruct same; simpl; rewrite IH; tauto.
      * split; [intros _ | by eexists].
        left. exists oldField. split; [done|].
        apply (equals_panics _ (Value f)). by eexists.
    + assert (Hnot : ~ uncomparableOld O f).
      { intros (old & Hold & _). rewrite Hget in Hold. discriminate Hold. }
      rewrite IH. tauto.
Qed.

(** X12. With old fields that are not [nil], [getHistoryFields] panics
    exactly when some new field has the name of an old field whose value
    [equals] does not compare (a magic value, [nil] or a value of an
    unsupported type); an old value of that kind under a name the new fields
    dropped does no harm. When it does not panic it returns the reverse
    delta with a [nil] error. An [Audit] that reaches the diff with such
    fields panics. *)
Theorem getHistoryFields_panics (O : list Field) (N : option (list Field)) :
  ((exists msg, getHistoryFields (Some O) N = Panics msg)
   <-> Exists (uncomparableOld O) (elems N))
  /\ (~ Exists (uncomparableOld O) (elems N) ->
      getHistoryFields (Some O) N
      = Returns (specRemoved O (elems N) ++ changedOrAdded O (elems N), None))
  /\ (forall {Obj : Type} `{AuditableObject Obj}
        (values : AuditableValues) (oldObj newObj : Obj) (sig : Signature),
        timely values sig -> live oldObj (Some O) -> live newObj N ->
        Exists (uncomparableOld O) (elems N) ->
        exists msg, Audit values (Some oldObj) newObj sig = Panics msg).
Proof.
  assert (Hiff : (exists msg, getHistoryFields (Some O) N = Panics msg)
                 <-> Exists (uncomparableOld O) (elems N)).
  { rewrite <- (addedOrUpdated_panics O (elems N)
                  (List.filter
                     (fun field => negb (fieldSlice.Contains (elems N) (Name field))) O)).
    unfold getHistoryFields, mbind, run_bind.
    destruct (addedOrUpdated _ _ _) as [r|msg]; split; intros [m Hm];
      try discriminate Hm; by eexists. }
  split_and!.
  - exact Hiff.
  - intros Hnot.
    destruct (getHistoryFields (Some O) N) as [[delta err]|msg] eqn:Hget.
    + by apply getHistoryFields_returns in Hget as [-> ->].
    + exfalso. apply Hnot, Hiff. by eexists.
  - intros Obj HObj values oldObj newObj sig Htimely Hold Hnew Hex.
    apply Hiff in Hex as [msg Hmsg]. exists msg.
    rewrite Audit_auditFields.
    + rewrite (auditFields_live _ _ _ _ _ _ Hold Hnew), Hmsg. reflexivity.
    + destruct Htimely as [Hnil | Hafter]; [by left | right; split; [by eexists | done]].
Qed.

(** ** What an audit records *)

Lemma equalsTrue_true v1 v2 : equalsTrue v1 v2 = true <-> equals v1 v2 = Returns true.
Proof.
  unfold equalsTrue. destruct (equals v1 v2) as [[|]|]; split; done.
Qed.

Lemma names_specRemoved_iff O N k :
  k ∈ names (specRemoved O N) <-> k ∈ names O /\ (k ∉ names N).
Proof.
  split; [apply names_specRemoved|].
  intros [Hin Hnot]. induction O as [|f rest IH]; [by apply elem_of_nil in Hin|].
  unfold names in Hin. rewrite fmap_cons in Hin.
  change (specRemoved (f :: rest) N)
    with ((if bool_decide (Name f ∈ names N) then []
           else [mkField (Name f) (Value f)]) ++ specRemoved rest N).
  rewrite names_app. apply elem_of_app.
  apply elem_of_cons in Hin as [-> | Hin].
  - left. rewrite bool_decide_eq_false_2 by done. simpl. by left.
  - right. by apply IH.
Qed.

Lemma names_changedOrAdded_iff O N k :
  k ∈ names (changedOrAdded O N)
  <-> exists f, f ∈ N /\ Name f = k
        /\ (to_map O !! k = None
            \/ exists old, to_map O !! k = Some old /\ equalsTrue old (Value f) = false).
Proof.
  induction N as [|g rest IH].
  - split; [intros Hin; by apply elem_of_nil in Hin|].
    intros (f & Hin & _). by apply elem_of_nil in Hin.
  - change (changedOrAdded O (g :: rest))
      with ((match to_map O !! Name g with
             | Some old =>
                 if equalsTrue old (Value g) then [] else [mkField (Name g) old]
             | None => [fieldRemoved (Name g)]
             end) ++ changedOrAdded O rest).
    rewrite names_app, elem_of_app, IH. split.
    + intros [Hhere | (f & Hin & Hname & Hcase)].
      * exists g. split; [by left|].
        destruct (to_map O !! Name g) as [old|] eqn:Hold.
        -- destruct (equalsTrue old (Value g)) eqn:Heq;
             [by apply elem_of_nil in Hhere|].
           apply list_elem_of_singleton in Hhere. simpl in Hhere. subst k.
           split; [done|]. right. by exists old.
        -- apply list_elem_of_singleton in Hhere. simpl in Hhere. subst k.
           split; [done|]. by left.
      * exists f. split; [by right | done].
    + intros (f & Hin & Hname & Hcase).
      apply elem_of_cons in Hin as [-> | Hin].
      * left. subst k. destruct Hcase as [-> | (old & -> & ->)]; simpl; by left.
      * right. by exists f.
Qed.

Lemma delta_nil_unchanged O N :
  specRemoved O N ++ changedOrAdded O N = [] -> unchangedFields O N.
Proof.
  intros Hnil k. apply app_eq_nil in Hnil as [Hrem Hchg].
  destruct (to_map N !! k) as [v|] eqn:HN.
  - apply to_map_lookup_Some in HN as (f & Hin & Hname & Hv).
    assert (Hnot : k ∉ names (changedOrAdded O N))
      by (rewrite Hchg; apply not_elem_of_nil).
    rewrite names_changedOrAdded_iff in Hnot.
    destruct (to_map O !! k) as [old|] eqn:HO.
    + constructor. apply equalsTrue_true.
      destruct (equalsTrue old v) eqn:Heq; [done|].
      exfalso. apply Hnot. exists f. split_and!; [done | done |].
      right. exists old. by rewrite Hv.
    + exfalso. apply Hnot. exists f. split_and!; [done | done | by left].
  - apply to_map_lookup_None in HN.
    destruct (to_map O !! k) as [old|] eqn:HO; [|constructor].
    exfalso.
    assert (Hnot : k ∉ names (specRemoved O N))
      by (rewrite Hrem; apply not_elem_of_nil).
    apply Hnot, names_specRemoved_iff. split; [|done].
    apply dec_stable. intros Habs. apply to_map_lookup_None in Habs. congruence.
Qed.

Lemma unchanged_delta_nil O N :
  NoDup (names N) -> unchangedFields O N ->
  specRemoved O N ++ changedOrAdded O N = [].
Proof.
  intros Hnd Hsame. rewrite specRemoved_nil, changedOrAdded_nil; [done| |].
  - intros f Hf. specialize (Hsame (Name f)).
    rewrite (to_map_lookup_elem N f Hnd Hf) in Hsame.
    inversion Hsame as [old v Heq Hold Hv|]. exists old. split; [done|].
    by apply equalsTrue_true.
  - intros f Hf. specialize (Hsame (Name f)).
    apply dec_stable. intros Habs. apply to_map_lookup_None in Habs.
    rewrite Habs in Hsame. inversion Hsame as [|Hnone Hx].
    symmetry in Hnone. apply to_map_lookup_None in Hnone. apply Hnone.
    unfold names. by apply list_elem_of_fmap_2.
Qed.

(** X13. An [Audit] of two live objects that passes the checks on the
    history returns no error, and it reports no change only if the old and
    the new fields have the same names with values [equals] holds equal;
    when the names of the new fields are unique the converse holds too, so
    that [changed] is false exactly for unchanged fields. *)
Theorem Audit_changed_iff {Obj : Type} `{AuditableObject Obj}
    (values : AuditableValues) (oldObj newObj : Obj) (sig : Signature)
    (O : list Field) (nfs : option (list Field))
    (values' : AuditableValues) (changed : bool) (err : option error) :
  timely values sig ->
  live oldObj (Some O) -> live newObj nfs ->
  Audit values (Some oldObj) newObj sig = Returns (values', changed, err) ->
  err = None
  /\ (changed = false -> unchangedFields O (elems nfs))
  /\ (NoDup (names (elems nfs)) -> unchangedFields O (elems nfs) -> changed = false).
Proof.
  intros Htimely Hold Hnew Haudit.
  rewrite Audit_auditFields in Haudit.
  2:{ destruct Htimely as [Hnil | Hafter]; [by left | right; split; [by eexists | done]]. }
  rewrite (auditFields_live _ _ _ _ _ _ Hold Hnew) in Haudit.
  unfold mbind, run_bind in Haudit.
  destruct (getHistoryFields (Some O) nfs) as [[delta e]|] eqn:Hdelta; [|done].
  apply getHistoryFields_returns in Hdelta as [-> ->].
  destruct (specRemoved O (elems nfs) ++ changedOrAdded O (elems nfs))
    as [|x delta'] eqn:Hd; simpl in Haudit; simplify_eq.
  - split_and!; [done | | done]. intros _. by apply delta_nil_unchanged.
  - split_and!; [done | done |]. intros Hnd Hsame.
    rewrite (unchanged_delta_nil _ _ Hnd Hsame) in Hd. done.
Qed.

Lemma Audit_changed_iff_witness :
  Audit exampleValues3 (Some (liveObject exampleState2)) (liveObject exampleState2)
    (exampleSig 4)
  = Returns (exampleValues3, false, None)
  /\ unchangedFields exampleState2 exampleState2.
Proof.
  assert (Haudit : Audit exampleValues3 (Some (liveObject exampleState2))
                     (liveObject exampleState2) (exampleSig 4)
                   = Returns (exampleValues3, false, None)).
  { vm_compute. reflexivity. }
  split; [exact Haudit|].
  apply (Audit_changed_iff exampleValues3 (liveObject exampleState2)
           (liveObject exampleState2) (exampleSig 4) exampleState2
           (Some exampleState2) exampleValues3 false None).
  - right. reflexivity.
  - exists Time.zero. split; reflexivity.
  - exists Time.zero. split; reflexivity.
  - exact Haudit.
  - reflexivity.
Defined.

(** X14. An [Audit] with no old object on an empty history, or with a live
    old object that reports a [nil] slice, appends the creation entry, one
    field of the empty name holding the creation marker, whatever the fields
    of the new object are, and returns [changed = true]. On the empty
    history the result is the history of that one entry: its creation
    signature, its latest signature and the latest signature of every field
    are the given one, and rolling the object back to a time not before it
    changes no field. *)
Theorem Audit_creation {Obj : Type} `{AuditableObject Obj}
    (values : AuditableValues) (oldObj : option Obj) (newObj : Obj)
    (sig : Signature) (fso : option (list Field)) :
  timely values sig ->
  live newObj fso ->
  (oldObj = None /\ history values = [])
  \/ (exists old, oldObj = Some old /\ live old None) ->
  let marker := mkField "" (VMagic magicValueHistoryCreation) in
  Audit values oldObj newObj sig = Returns (addHistory values sig [marker], true, None)
  /\ (history values = [] ->
      let created := addHistory values sig [marker] in
      created = mkValues [mkHistory [marker] sig]
      /\ CreationSignature created = sig
      /\ LatestSignature created = sig
      /\ (forall k, LatestSignatureForField created k = sig)
      /\ (forall t, Time.Before t (timestamp sig) = false ->
            RollbackTo created newObj t = SetFields newObj (elems fso) t)).
Proof.
  intros Htimely Hlive Hold marker. split.
  - rewrite Audit_auditFields.
    + destruct Hlive as (tz & Hreads & Hz). unfold reads in Hreads.
      unfold auditFields.
      destruct Hold as [[-> _] | (old & -> & (tz' & Hreads' & Hz'))].
      * by rewrite Hreads, Hz.
      * unfold reads in Hreads'. by rewrite Hreads', Hz', Hreads, Hz.
    + destruct Hold as [[-> Hnil] | (old & -> & _)]; [by left|].
      destruct Htimely as [Hnil | Hafter]; [by left | right; split; [by eexists | done]].
  - intros Hnil created. subst created. unfold addHistory. rewrite Hnil. simpl app.
    split_and!; try reflexivity.
    intros t Hbefore.
    exact (RollbackTo_live (mkHistory [marker] sig) [] newObj fso t Hlive Hbefore).
Qed.

Lemma Audit_creation_witness :
  Audit (mkValues []) None (liveObject exampleState0) (exampleSig 1)
  = Returns (exampleValues1, true, None).
Proof.
  apply (Audit_creation (mkValues []) None (liveObject exampleState0) (exampleSig 1)
           (Some exampleState0)).
  - by left.
  - exists Time.zero. split; reflexivity.
  - by left.
Defined.

(** X15. When the checks on the history pass, an error of [GetFields] is
    returned by [Audit] as it is, with [changed = false] and the history
    unchanged: the error of the old object whatever the new object does, the
    error of the new object when the old object is absent on an empty
    history or is live. *)
Theorem Audit_object_errors {Obj : Type} `{AuditableObject Obj}
    (values : AuditableValues) (oldObj : option Obj) (newObj : Obj)
    (sig : Signature) (e : error) :
  timely values sig ->
  (forall old fs t,
     oldObj = Some old -> GetFields old = (fs, t, Some e) ->
     Audit values oldObj newObj sig = Returns (values, false, Some e))
  /\
  (forall fs t,
     (oldObj = None /\ history values = [])
     \/ (exists old ofs, oldObj = Some old /\ live old ofs) ->
     GetFields newObj = (fs, t, Some e) ->
     Audit values oldObj newObj sig = Returns (values, false, Some e)).
Proof.
  intros Htimely. split.
  - intros old fs t -> Hget.
    rewrite Audit_auditFields.
    + unfold auditFields. by rewrite Hget.
    + destruct Htimely as [Hnil | Hafter]; [by left | right; split; [by eexists | done]].
  - intros fs t Hold Hget.
    rewrite Audit_auditFields.
    + unfold auditFields.
      destruct Hold as [[-> _] | (old & ofs & -> & (tz & Hreads & Hz))].
      * by rewrite Hget.
      * unfold reads in Hreads. rewrite Hreads, Hz. simpl. by rewrite Hget.
    + destruct Hold as [[-> Hnil] | (old & ofs & -> & _)]; [by left|].
      destruct Htimely as [Hnil | Hafter]; [by left | right; split; [by eexists | done]].
Qed.

Lemma Audit_object_errors_witness :
  let broken := mkStored (Some exampleState2) Time.zero (Some (Foreign "no fields")) None in
  timely exampleValues2 (exampleSig 3)
  /\ Audit exampleValues2 (Some broken) broken (exampleSig 3)
     = Returns (exampleValues2, false, Some (Foreign "no fields"))
  /\ Audit exampleValues2 (Some (liveObject exampleState1)) broken (exampleSig 3)
     = Returns (exampleValues2, false, Some (Foreign "no fields")).
Proof.
  intros broken.
  assert (Htimely : timely exampleValues2 (exampleSig 3)) by (right; reflexivity).
  split; [exact Htimely|].
  split.
  - exact (proj1 (Audit_object_errors exampleValues2 (Some broken) broken
                    (exampleSig 3) (Foreign "no fields") Htimely)
             broken _ _ eq_refl eq_refl).
  - apply (proj2 (Audit_object_errors exampleValues2 (Some (liveObject exampleState1))
                    broken (exampleSig 3) (Foreign "no fields") Htimely)
             (Some exampleState2) Time.zero); [|reflexivity].
    right. exists (liveObject exampleState1), (Some exampleState1).
    split; [reflexivity|]. exists Time.zero. split; reflexivity.
Defined.

(** ** The signatures of a history *)

Lemma Audit_changed_timely {Obj : Type} `{AuditableObject Obj}
    values (oldObj : option Obj) newObj sig values' err :
  Audit values oldObj newObj sig = Returns (values', true, err) ->
  timely values sig.
Proof.
  unfold Audit, timely. intros Haudit.
  destruct (history values) as [|h rest] eqn:Hh; [by left|]. right.
  rewrite LatestSignature_nth by (rewrite Hh; done). rewrite Hh.
  revert Haudit. cbn [length Nat.ltb Nat.leb andb].
  destruct (negb (bool_decide (is_Some oldObj))); [done|].
  destruct (Time.After _ _); [done|]. done.
Qed.

(** X16. Whenever [Audit] returns, [Signatures()] is what it was, with the
    given signature added at the end exactly when [changed] is true. Then
    there is no error, the history is not zero and [LatestSignature()] is the
    given signature. [CreationSignature()] never changes once the history is
    not empty, and is the given signature after the first change. *)
Theorem Audit_signatures {Obj : Type} `{AuditableObject Obj}
    (values : AuditableValues) (oldObj : option Obj) (newObj : Obj)
    (sig : Signature) (values' : AuditableValues) (changed : bool)
    (err : option error) :
  Audit values oldObj newObj sig = Returns (values', changed, err) ->
  Signatures values' = Signatures values ++ (if changed then [sig] else [])
  /\ (changed = true ->
      err = None /\ IsZero values' = false /\ LatestSignature values' = sig)
  /\ (IsZero values = false -> CreationSignature values' = CreationSignature values)
  /\ (IsZero values = true -> changed = true -> CreationSignature values' = sig).
Proof.
  intros Haudit.
  destruct (Audit_cases _ _ _ _ _ _ _ Haudit)
    as [[-> ->] | (delta & Hdelta & -> & -> & ->)].
  - split_and!; [by rewrite app_nil_r | done | done | done].
  - split_and!.
    + unfold Signatures, addHistory. simpl. by rewrite map_app.
    + intros _. split_and!; [done | | apply LatestSignature_addHistory].
      unfold IsZero, addHistory. simpl. rewrite length_app. simpl.
      apply Nat.eqb_neq. lia.
    + unfold IsZero. intros Hnz. apply CreationSignature_addHistory.
      destruct (history values); [done | done].
    + unfold IsZero. intros Hz _.
      destruct values as [[|h rest]]; [reflexivity | done].
Qed.

Lemma Audit_signatures_witness :
  Signatures exampleValues3 = Signatures exampleValues2 ++ [exampleSig 3]
  /\ LatestSignature exampleValues3 = exampleSig 3
  /\ CreationSignature exampleValues3 = CreationSignature exampleValues2.
Proof.
  assert (Haudit : Audit exampleValues2 (Some (liveObject exampleState1))
                     (liveObject exampleState2) (exampleSig 3)
                   = Returns (exampleValues3, true, None)).
  { vm_compute. reflexivity. }
  pose proof (Audit_signatures _ _ _ _ _ _ _ Haudit) as (Hsigs & Hchanged & Hcreation & _).
  split_and!.
  - exact Hsigs.
  - exact (proj2 (proj2 (Hchanged eq_refl))).
  - exact (Hcreation eq_refl).
Defined.

Lemma Timestamps_addHistory values sig delta :
  Timestamps (Signatures (addHistory values sig delta))
  = Timestamps (Signatures values) ++ [timestamp sig].
Proof. unfold Timestamps, Signatures, addHistory. simpl. by rewrite !map_app. Qed.

Lemma LatestSignature_last values :
  history values <> [] ->
  last (Timestamps (Signatures values)) = Some (timestamp (LatestSignature values)).
Proof.
  intros Hne. rewrite LatestSignature_nth by done.
  unfold Timestamps, Signatures.
  destruct (history values) as [|x l _] using rev_ind; [done|].
  rewrite !map_app, length_app. simpl. rewrite last_snoc.
  replace (length l + 1 - 1)%nat with (length l) by lia.
  by rewrite app_nth2, Nat.sub_diag by lia.
Qed.

Lemma ascending_latest values t :
  ascending values -> t ∈ Timestamps (Signatures values) ->
  t = timestamp (LatestSignature values)
  \/ Time.Before t (timestamp (LatestSignature values)) = true.
Proof.
  intros Hasc Hin.
  assert (Hne : history values <> []).
  { intros Hnil. unfold Timestamps, Signatures in Hin. rewrite Hnil in Hin.
    by apply elem_of_nil in Hin. }
  pose proof (LatestSignature_last values Hne) as Hlast.
  unfold ascending in Hasc.
  destruct (Timestamps (Signatures values)) as [|x l _] using rev_ind; [done|].
  rewrite last_snoc in Hlast. injection Hlast as <-.
  apply elem_of_app in Hin as [Hin | Hin].
  - right. eapply (StronglySorted_app_1_elem_of _ _ _ _ _ Hasc Hin). by left.
  - left. by apply list_elem_of_singleton in Hin.
Qed.

(** X17. [Audit] keeps the signatures of the history in strictly ascending
    order of their timestamps: if [Signatures()] is in that order before the
    call, it is so after every call that returns. *)
Theorem Audit_keeps_ascending {Obj : Type} `{AuditableObject Obj}
    (values : AuditableValues) (oldObj : option Obj) (newObj : Obj)
    (sig : Signature) (values' : AuditableValues) (changed : bool)
    (err : option error) :
  ascending values ->
  Audit values oldObj newObj sig = Returns (values', changed, err) ->
  ascending values'.
Proof.
  intros Hasc Haudit.
  destruct (Audit_cases _ _ _ _ _ _ _ Haudit)
    as [[-> ->] | (delta & Hdelta & -> & -> & ->)]; [done|].
  apply Audit_changed_timely in Haudit.
  unfold ascending. rewrite Timestamps_addHistory.
  apply StronglySorted_app_2; [|exact Hasc|repeat constructor].
  intros t u Ht Hu. apply list_elem_of_singleton in Hu as ->.
  destruct Haudit as [Hnil | Hafter].
  - unfold Timestamps, Signatures in Ht. rewrite Hnil in Ht.
    by apply elem_of_nil in Ht.
  - destruct (ascending_latest values t Hasc Ht) as [-> | Hbefore];
      revert Hafter; [|revert Hbefore]; time_order.
Qed.

Lemma Audit_keeps_ascending_witness :
  ascending exampleValues2 /\ ascending exampleValues3.
Proof.
  assert (Hasc : ascending exampleValues2).
  { unfold ascending. repeat constructor. }
  split; [exact Hasc|].
  apply (Audit_keeps_ascending exampleValues2 (Some (liveObject exampleState1))
           (liveObject exampleState2) (exampleSig 3) exampleValues3 true None Hasc).
  vm_compute. reflexivity.
Defined.

Lemma mentions_spec fs k : mentions fs k = true <-> k ∈ names fs.
Proof.
  induction fs as [|f rest IH]; cbn [mentions].
  - split; [done | intros Hin; by apply elem_of_nil in Hin].
  - unfold names in *. rewrite fmap_cons, elem_of_cons.
    destruct (decide (Name f = k)) as [Hf | Hf].
    + rewrite bool_decide_eq_true_2 by done. split; [by left | done].
    + rewrite bool_decide_eq_false_2 by done. rewrite IH.
      split; [by right | intros [? | ?]; [congruence | done]].
Qed.

Lemma latestFrom_spec first rest k i :
  (i <= length rest)%nat ->
  latestFrom (mkValues (first :: rest)) k i
  = default (signature first)
      (last (map signature (List.filter (fun h => mentions (fields h) k) (take i rest)))).
Proof.
  induction i as [|i IH]; intros Hi.
  - reflexivity.
  - cbn [latestFrom history nth]. rewrite IH by lia.
    destruct (lookup_lt_is_Some_2 rest i ltac:(lia)) as [h Hh].
    rewrite (take_S_r _ _ _ Hh), List.filter_app, map_app.
    rewrite (nth_lookup_Some _ _ _ _ Hh). simpl.
    destruct (mentions (fields h) k); simpl.
    + by rewrite last_snoc.
    + by rewrite app_nil_r.
Qed.

Lemma LatestSignatureForField_spec values k :
  LatestSignatureForField values k
  = default (CreationSignature values)
      (last (map signature
               (List.filter (fun h => mentions (fields h) k) (tail (history values))))).
Proof.
  unfold LatestSignatureForField. destruct values as [[|first rest]]; [reflexivity|].
  cbn [history length tail]. replace (S (length rest) - 1)%nat with (length rest) by lia.
  rewrite latestFrom_spec by lia. by rewrite firstn_all.
Qed.

(** X18. [LatestSignatureForField(k)] is the signature of the last entry
    after the first one that mentions [k], and the creation signature when
    there is none; it is always the last of [SignaturesForField(k)]. *)
Theorem LatestSignatureForField_last (values : AuditableValues) (k : string) :
  LatestSignatureForField values k
  = default (CreationSignature values)
      (last (map signature
               (List.filter (fun h => mentions (fields h) k) (tail (history values)))))
  /\ last (SignaturesForField values k) = Some (LatestSignatureForField values k).
Proof.
  split; [apply LatestSignatureForField_spec|].
  rewrite LatestSignatureForField_spec.
  unfold SignaturesForField. rewrite SignaturesForField_fold.
  destruct values as [[|first rest]]; [reflexivity|].
  cbn [history tail List.filter].
  change (CreationSignature (mkValues (first :: rest))) with (signature first).
  destruct (mentions (fields first) k); cbn [map app];
    generalize (map signature (List.filter (fun h => mentions (fields h) k) rest));
    intros l.
  - destruct l as [|x l _] using rev_ind; [reflexivity|].
    change (signature first :: signature first :: l ++ [x])
      with ([signature first; signature first] ++ l ++ [x]).
    by rewrite !app_assoc, !last_snoc.
  - destruct l as [|x l _] using rev_ind; [reflexivity|].
    change (signature first :: l ++ [x]) with ([signature first] ++ l ++ [x]).
    by rewrite !app_assoc, !last_snoc.
Qed.

Lemma LatestSignatureForField_addHistory values sig delta k :
  history values <> [] ->
  LatestSignatureForField (addHistory values sig delta) k
  = if mentions delta k then sig else LatestSignatureForField values k.
Proof.
  intros Hne. rewrite !LatestSignatureForField_spec.
  rewrite CreationSignature_addHistory by done.
  unfold addHistory. cbn [history].
  destruct (history values) as [|first rest]; [done|].
  cbn [app tail]. rewrite List.filter_app, map_app. simpl.
  destruct (mentions delta k); simpl.
  - by rewrite last_snoc.
  - by rewrite app_nil_r.
Qed.

Lemma mentions_delta O N k :
  mentions (specRemoved O N ++ changedOrAdded O N) k = true <-> touched O N k.
Proof.
  rewrite mentions_spec, names_app, elem_of_app.
  rewrite names_specRemoved_iff, names_changedOrAdded_iff. unfold touched.
  split.
  - intros [Hrem | (f & Hin & Hname & [Hnone | (old & Hold & Hne)])].
    + by left.
    + right. left. split; [|by apply to_map_lookup_None].
      rewrite <- Hname. by apply list_elem_of_fmap_2.
    + right. right. by exists f, old.
  - intros [Hrem | [[Hin Hnot] | (f & old & Hin & Hname & Hold & Hne)]].
    + by left.
    + right. unfold names in Hin. apply list_elem_of_fmap in Hin as (f & -> & Hin).
      exists f. split_and!; [done | done |]. left. by apply to_map_lookup_None.
    + right. exists f. split_and!; [done | done |]. right. by exists old.
Qed.

Lemma SignaturesForField_addHistory values sig delta k :
  history values <> [] ->
  SignaturesForField (addHistory values sig delta) k
  = SignaturesForField values k ++ (if mentions delta k then [sig] else []).
Proof.
  intros Hne. unfold SignaturesForField. rewrite !SignaturesForField_fold.
  rewrite CreationSignature_addHistory by done.
  unfold addHistory. cbn [history].
  rewrite List.filter_app, map_app. cbn [List.filter fields].
  destruct (mentions delta k); cbn [map signature]; by rewrite <- app_assoc.
Qed.

(** X19. After an update [Audit] of two live objects that returns no
    error, a field the step touches (a field that is dropped, added, or
    whose value changed for [equals]) has the given signature as its latest
    signature and as one more signature at the end of its signatures, and
    [changed] is true; the latest signature and the signatures of every
    other field are what they were. *)
Theorem Audit_LatestSignatureForField {Obj : Type} `{AuditableObject Obj}
    (values : AuditableValues) (oldObj newObj : Obj) (sig : Signature)
    (O : list Field) (nfs : option (list Field))
    (values' : AuditableValues) (changed : bool) (k : string) :
  history values <> [] ->
  live oldObj (Some O) -> live newObj nfs ->
  Audit values (Some oldObj) newObj sig = Returns (values', changed, None) ->
  (touched O (elems nfs) k ->
   changed = true
   /\ LatestSignatureForField values' k = sig
   /\ SignaturesForField values' k = SignaturesForField values k ++ [sig])
  /\ (~ touched O (elems nfs) k ->
      LatestSignatureForField values' k = LatestSignatureForField values k
      /\ SignaturesForField values' k = SignaturesForField values k).
Proof.
  intros Hne Hold Hnew Haudit.
  destruct (Audit_update_returns _ _ _ _ _ _ _ _ Hne Hold Hnew Haudit)
    as [_ [(Hdelta & -> & ->) | (Hdelta & -> & ->)]].
  - split; [|done]. intros Htouched. apply mentions_delta in Htouched.
    rewrite Hdelta in Htouched. done.
  - rewrite LatestSignatureForField_addHistory, SignaturesForField_addHistory by done.
    split; intros Htouched.
    + apply mentions_delta in Htouched. by rewrite Htouched.
    + destruct (mentions _ k) eqn:Hm.
      * apply mentions_delta in Hm. done.
      * by rewrite app_nil_r.
Qed.

Lemma Audit_LatestSignatureForField_witness :
  history exampleValues2 <> []
  /\ live (liveObject exampleState1) (Some exampleState1)
  /\ live (liveObject exampleState2) (Some exampleState2)
  /\ touched exampleState1 exampleState2 "ValueC"
  /\ LatestSignatureForField exampleValues3 "ValueC" = exampleSig 3.
Proof.
  assert (Hne : history exampleValues2 <> []) by done.
  assert (Hold : live (liveObject exampleState1) (Some exampleState1)).
  { exists Time.zero. split; reflexivity. }
  assert (Hnew : live (liveObject exampleState2) (Some exampleState2)).
  { exists Time.zero. split; reflexivity. }
  assert (Haudit : Audit exampleValues2 (Some (liveObject exampleState1))
                     (liveObject exampleState2) (exampleSig 3)
                   = Returns (exampleValues3, true, None)).
  { vm_compute. reflexivity. }
  assert (Htouched : touched exampleState1 exampleState2 "ValueC").
  { right. left. split.
    - apply (bool_decide_unpack _). vm_compute. exact I.
    - apply (bool_decide_unpack _). vm_compute. exact I. }
  split_and!; [exact Hne | exact Hold | exact Hnew | exact Htouched |].
  exact (proj1 (proj2 (proj1 (Audit_LatestSignatureForField _ _ _ _ _ _ _ _ "ValueC"
                                Hne Hold Hnew Haudit) Htouched))).
Defined.

(** ** Rolling back *)



Lemma RollbackTo_reads {Obj : Type} `{AuditableObject Obj}
    first rest (obj : Obj) fso tR t :
  reads obj fso tR ->
  Time.Before t (entryTime first) = false ->
  negb (Time.IsZero tR) && Time.Before tR t = false ->
  RollbackTo (mkValues (first :: rest)) obj t
  = SetFields obj
      (fold_left (undoStep (negb (Time.IsZero tR)) tR t) (rev rest) (elems fso)) t.
Proof.
  intros Hreads Hbefore Hok. unfold RollbackTo. simpl history.
  simpl length. simpl nth. unfold entryTime in Hbefore. rewrite Hbefore.
  unfold reads in Hreads. rewrite Hreads, Hok.
  replace (S (length rest) - 1)%nat with (length rest) by lia.
  pose proof (rollbackFrom_fold first rest [] (negb (Time.IsZero tR)) tR t (elems fso))
    as Hfold.
  rewrite app_nil_r in Hfold. by rewrite Hfold.
Qed.

(** X21. [RollbackTo] never undoes the first entry of the history: the
    result does not depend on the fields that entry holds, and on a history
    of one entry a live object is handed its own fields. *)
Theorem RollbackTo_never_undoes_first_entry {Obj : Type} `{AuditableObject Obj}
    (fs fs' : list Field) (sig : Signature) (rest : list auditHistory)
    (obj : Obj) (t : Time) :
  RollbackTo (mkValues (mkHistory fs sig :: rest)) obj t
  = RollbackTo (mkValues (mkHistory fs' sig :: rest)) obj t
  /\ (forall fso,
        live obj fso -> Time.Before t (timestamp sig) = false ->
        RollbackTo (mkValues [mkHistory fs sig]) obj t = SetFields obj (elems fso) t).
Proof.
  split.
  - unfold RollbackTo. cbn [history length nth signature].
    replace (S (length rest) - 1)%nat with (length rest) by lia.
    destruct (Time.Before t (timestamp sig)); [done|].
    destruct (GetFields obj) as [[fso tR] [e|]]; [done|].
    destruct (negb (Time.IsZero tR) && Time.Before tR t); [done|].
    pose proof (rollbackFrom_fold (mkHistory fs sig) rest []) as Hfold.
    pose proof (rollbackFrom_fold (mkHistory fs' sig) rest []) as Hfold'.
    rewrite app_nil_r in Hfold, Hfold'. by rewrite Hfold, Hfold'.
  - intros fso Hlive Hbefore.
    by rewrite (RollbackTo_live (mkHistory fs sig) [] obj fso t Hlive Hbefore).
Qed.

Lemma undoStep_below entries t t' cur :
  Forall (fun h => Time.After (entryTime h) t = false) entries ->
  fold_left (undoStep true t t') entries cur
  = fold_left (undoStep false Time.zero t') entries cur.
Proof.
  intros Hall. revert cur.
  induction Hall as [|h rest Hh _ IH]; intros cur; simpl; [done|].
  rewrite IH. f_equal. unfold undoStep. unfold entryTime in Hh. by rewrite Hh.
Qed.

Lemma rollback_twice_fold rest t t' cur :
  StronglySorted (fun a b => Time.Before a b = true) (map entryTime rest) ->
  Time.Before t t' = false ->
  fold_left (undoStep true t t') (rev rest)
    (fold_left (undoStep false Time.zero t) (rev rest) cur)
  = fold_left (undoStep false Time.zero t') (rev rest) cur.
Proof.
  intros Hsorted Hle. revert cur.
  induction rest as [|h rest IH] using rev_ind; intros cur; [reflexivity|].
  rewrite map_app in Hsorted. apply StronglySorted_app in Hsorted as (Hlt & Hrest & _).
  rewrite rev_unit.
  destruct (Time.After (entryTime h) t) eqn:Hafter.
  - cbn [fold_left].
    assert (HA : undoStep false Time.zero t cur h = undoFields (fields h) cur).
    { unfold undoStep. unfold entryTime in Hafter. by rewrite Hafter. }
    assert (HC : undoStep false Time.zero t' cur h = undoFields (fields h) cur).
    { unfold undoStep. simpl.
      replace (Time.After (timestamp (signature h)) t') with true; [done|].
      symmetry. revert Hafter Hle. time_order. }
    assert (HB : forall X, undoStep true t t' X h = X).
    { intros X. unfold undoStep. unfold entryTime in Hafter. by rewrite Hafter. }
    rewrite HA, HC, HB. apply IH. exact Hrest.
  - assert (Hall : Forall (fun e => Time.After (entryTime e) t = false) (h :: rev rest)).
    { constructor; [done|]. apply Forall_forall. intros e He.
      assert (Hbefore : Time.Before (entryTime e) (entryTime h) = true).
      { apply Hlt; [|by left]. apply list_elem_of_fmap_2.
        apply list_elem_of_In. apply in_rev. by apply list_elem_of_In. }
      revert Hbefore Hafter. time_order. }
    rewrite (undoStep_skip_all _ _ _ Hall).
    by apply undoStep_below.
Qed.

(** X22. On a history in ascending order, rolling a live object back to a
    time [t] and then rolling the result, an object that reports the fields
    it was given and the rollback timestamp [t], back to a time [t'] not
    after [t] hands [SetFields] the same fields as rolling the live object
    back to [t'] at once. *)
Theorem RollbackTo_twice {Obj : Type} `{AuditableObject Obj}
    (values : AuditableValues) (obj obj1 : Obj)
    (fso fso1 : option (list Field)) (t t' : Time) :
  ascending values ->
  history values <> [] ->
  Time.IsZero t = false ->
  Time.Before t' (timestamp (CreationSignature values)) = false ->
  Time.Before t t' = false ->
  live obj fso ->
  reads obj1 fso1 t -> elems fso1 = rollbackAll values t (elems fso) ->
  RollbackTo values obj t = SetFields obj (rollbackAll values t (elems fso)) t
  /\ RollbackTo values obj1 t' = SetFields obj1 (rollbackAll values t' (elems fso)) t'
  /\ RollbackTo values obj t' = SetFields obj (rollbackAll values t' (elems fso)) t'.
Proof.
  intros Hasc Hne Hnz Hcreation Hle Hlive Hreads1 Hfs1.
  destruct values as [[|first rest]]; [done|]. clear Hne.
  change (timestamp (CreationSignature (mkValues (first :: rest))))
    with (entryTime first) in Hcreation.
  unfold rollbackAll in *. cbn [history tail] in *.
  assert (Hcreation' : Time.Before t (entryTime first) = false).
  { revert Hcreation Hle. time_order. }
  split_and!.
  - by apply RollbackTo_live.
  - rewrite (RollbackTo_reads _ _ _ _ _ _ Hreads1 Hcreation)
      by (rewrite Hnz, Hle; done).
    rewrite Hnz, Hfs1. simpl negb. f_equal.
    apply rollback_twice_fold; [|done].
    unfold ascending, Timestamps, Signatures in Hasc. simpl in Hasc.
    apply StronglySorted_inv in Hasc as [Hasc _].
    by rewrite map_map in Hasc.
  - by apply RollbackTo_live.
Qed.

Lemma RollbackTo_twice_witness :
  let t := timestamp (exampleSig 2) in
  let t' := timestamp (exampleSig 1) in
  let obj := liveObject exampleState2 in
  let fs1 := [mkField "ValueD" (VString "d2"); mkField "ValueB" (VString "b2");
              mkField "ValueA" (VString "a1")] in
  let obj1 := mkStored (Some fs1) t None None in
  RollbackTo exampleValues3 obj t = (obj1, None)
  /\ RollbackTo exampleValues3 obj1 t' = RollbackTo exampleValues3 obj t'.
Proof.
  intros t t' obj fs1 obj1.
  assert (Hasc : ascending exampleValues3) by (unfold ascending; repeat constructor).
  assert (Hlive : live obj (Some exampleState2)).
  { exists Time.zero. split; reflexivity. }
  assert (Hfs1 : elems (Some fs1) = rollbackAll exampleValues3 t exampleState2).
  { vm_compute. reflexivity. }
  destruct (RollbackTo_twice exampleValues3 obj obj1 (Some exampleState2)
              (Some fs1) t t' Hasc ltac:(done) eq_refl eq_refl eq_refl
              Hlive eq_refl Hfs1) as (H1 & H2 & H3).
  split.
  - rewrite H1. simpl elems. rewrite <- Hfs1. reflexivity.
  - rewrite H2, H3. reflexivity.
Defined.

Lemma Remove_elem s k f : f ∈ fieldSlice.Remove s k -> f ∈ s.
Proof.
  induction s as [|g rest IH]; [done|].
  destruct (decide (Name g = k)) as [Hg | Hg].
  - rewrite (Remove_cons_eq_perm g rest k Hg). by right.
  - rewrite Remove_cons_ne by done.
    intros [-> | Hin]%elem_of_cons; [by left | right; by apply IH].
Qed.

Lemma Set_elem s k v f : f ∈ fieldSlice.Set_ s k v -> f ∈ s \/ f = mkField k v.
Proof.
  induction s as [|g rest IH].
  - unfold fieldSlice.Set_. simpl. intros Hin%list_elem_of_singleton. by right.
  - rewrite Set_cons. destruct (decide (Name g = k)) as [Hg | Hg].
    + rewrite (bool_decide_eq_true_2 _ Hg).
      intros [-> | Hin]%elem_of_cons; [by right | left; by right].
    + rewrite (bool_decide_eq_false_2 _ Hg).
      intros [-> | Hin]%elem_of_cons; [left; by left|].
      destruct (IH Hin) as [? | ?]; [left; by right | by right].
Qed.

Lemma undoFields_unmarked entry cur : unmarked cur -> unmarked (undoFields entry cur).
Proof.
  unfold undoFields. revert cur.
  induction entry as [|f rest IH]; intros cur Hcur; simpl; [done|].
  apply IH. unfold unmarked in *. rewrite Forall_forall in Hcur. apply Forall_forall.
  destruct (isFieldRemoved (Value f)) eqn:Hf; intros g Hg.
  - apply Hcur. by eapply Remove_elem.
  - apply Set_elem in Hg as [Hg | ->]; [by apply Hcur | done].
Qed.

Lemma undoStep_invariant b tR t entries cur :
  NoDup (names cur) ->
  NoDup (names (fold_left (undoStep b tR t) entries cur))
  /\ (unmarked cur -> unmarked (fold_left (undoStep b tR t) entries cur)).
Proof.
  revert cur. induction entries as [|h rest IH]; intros cur Hnd; simpl; [done|].
  assert (Hstep : NoDup (names (undoStep b tR t cur h))
                  /\ (unmarked cur -> unmarked (undoStep b tR t cur h))).
  { unfold undoStep. repeat case_match; try done.
    split; [by apply undoFields_map | apply undoFields_unmarked]. }
  destruct Hstep as [Hnd' Hun'].
  destruct (IH _ Hnd') as [Hnd'' Hun'']. split; [done | auto].
Qed.

(** X23. When the fields of the object have unique names, the fields
    [RollbackTo] hands to [SetFields] have unique names too; and they hold
    no marker of removal if the fields of the object hold none. *)
Theorem RollbackTo_fields_invariant {Obj : Type} `{AuditableObject Obj}
    (values : AuditableValues) (obj : Obj) (t : Time)
    (fso : option (list Field)) (tRollback : Time) :
  reads obj fso tRollback ->
  NoDup (names (elems fso)) ->
  history values <> [] ->
  Time.Before t (timestamp (CreationSignature values)) = false ->
  negb (Time.IsZero tRollback) && Time.Before tRollback t = false ->
  exists fs,
    RollbackTo values obj t = SetFields obj fs t
    /\ NoDup (names fs)
    /\ (unmarked (elems fso) -> unmarked fs).
Proof.
  intros Hreads Hnd Hne Hbefore Hok.
  destruct values as [[|first rest]]; [done|].
  change (timestamp (CreationSignature (mkValues (first :: rest))))
    with (entryTime first) in Hbefore.
  eexists. split; [by apply (RollbackTo_reads _ _ _ _ _ _ Hreads Hbefore Hok)|].
  by apply undoStep_invariant.
Qed.

Lemma RollbackTo_fields_invariant_witness :
  exists fs,
    RollbackTo exampleValues3 (liveObject exampleState2) (timestamp (exampleSig 1))
    = SetFields (liveObject exampleState2) fs (timestamp (exampleSig 1))
    /\ NoDup (names fs).
Proof.
  assert (Hreads : reads (liveObject exampleState2) (Some exampleState2) Time.zero)
    by reflexivity.
  assert (Hnd : NoDup (names exampleState2)).
  { apply (bool_decide_unpack _). vm_compute. exact I. }
  destruct (RollbackTo_fields_invariant exampleValues3 (liveObject exampleState2)
              (timestamp (exampleSig 1)) (Some exampleState2) Time.zero Hreads Hnd
              ltac:(done) eq_refl eq_refl)
    as (fs & Heq & Hnd' & _).
  exists fs. by split.
Defined.

(** ** The codec of the history *)

Lemma writeValue_typed w v : (writeValue w v).1 = None <-> typed v.
Proof. destruct v; simpl; split; done. Qed.

Lemma writeFields_typed table w fs :
  (writeFields table w fs).1 = None <-> Forall (fun f => typed (Value f)) fs.
Proof.
  revert w. induction fs as [|f rest IH]; intros w; cbn [writeFields].
  - split; [constructor | done].
  - rewrite Forall_cons_iff,
      <- (writeValue_typed
            (bufrw.write w (TInt (stringSlice.IndexOf table (Name f))))).
    destruct (writeValue _ (Value f)) as [[e|] w'] eqn:Hw; simpl.
    + split; [done | by intros [? _]].
    + rewrite IH. split; [done | by intros [_ ?]].
Qed.

Lemma writeHistory_storable table w entries :
  (writeHistory table w entries).1 = None
  <-> Forall
        (fun e => storable (timestamp (signature e))
                  /\ Forall (fun f => typed (Value f)) (fields e))
        entries.
Proof.
  revert w. induction entries as [|obj rest IH]; intros w; cbn [writeHistory].
  - split; [constructor | done].
  - rewrite Forall_cons_iff, <- (SerializeToBufRW_storable (signature obj) w).
    destruct (Signature.SerializeToBufRW (signature obj) w) as [[e|] w'] eqn:Hsig; simpl.
    + split; [done | by intros [[? _] _]].
    + rewrite <- (writeFields_typed table
                    (bufrw.write w' (TInt (Z.of_nat (length (fields obj)))))).
      destruct (writeFields _ _ (fields obj)) as [[e|] w''] eqn:Hfs; simpl.
      * split; [done | by intros [[_ ?] _]].
      * rewrite IH. split; [done | by intros [_ ?]].
Qed.

(** X24. [Serialize] of a history succeeds exactly when the timestamp of
    every signature is in a zone of offset zero and is zero or within the
    bounds, and every value is of one of the twelve types; it returns bytes
    exactly when it returns no error. *)
Theorem Serialize_succeeds_iff (values : AuditableValues) :
  ((Serialize values).2 = None
   <-> Forall
         (fun e => storable (timestamp (signature e))
                   /\ Forall (fun f => typed (Value f)) (fields e))
         (history values))
  /\ ((Serialize values).2 = None <-> is_Some (Serialize values).1).
Proof.
  unfold Serialize, SerializeTo.
  match goal with
  | |- context [writeHistory ?table ?w ?entries] =>
      pose proof (writeHistory_storable table w entries) as Hiff;
      destruct (writeHistory table w entries) as [[e|] b]
  end; simpl in *.
  - split; [by rewrite <- Hiff|]. split; [done | by intros [? ?]].
  - split; [by rewrite <- Hiff|]. split; [by eexists | done].
Qed.

Lemma SerializeTo_spec values w :
  encodable values -> SerializeTo values w = (None, w ++ historyTokens values).
Proof.
  intros Henc. unfold SerializeTo, historyTokens.
  rewrite collectNames_spec, write_strings.
  rewrite writeHistory_spec by exact Henc.
  unfold bufrw.write. simpl. by rewrite <- !app_assoc.
Qed.

(** X25. [SerializeTo] appends the stream of the history to the writer
    and [DeserializeFrom] takes one history from the reader and leaves the
    rest: two histories written one after the other are read back one after
    the other. *)
Theorem SerializeTo_DeserializeFrom_sequence
    (first second receiver receiver' : AuditableValues) (w : bufrw.Writer) :
  encodable first -> encodable second ->
  exists w1 w2,
    SerializeTo first w = (None, w1)
    /\ SerializeTo second w1 = (None, w2)
    /\ w2 = w ++ historyTokens first ++ historyTokens second
    /\ (w = [] ->
        exists r1,
          DeserializeFrom receiver w2 = Returns (first, None, r1)
          /\ DeserializeFrom receiver' r1 = Returns (second, None, [])).
Proof.
  intros Hfirst Hsecond.
  exists (w ++ historyTokens first), (w ++ historyTokens first ++ historyTokens second).
  split_and!.
  - by apply SerializeTo_spec.
  - rewrite SerializeTo_spec by done. by rewrite <- app_assoc.
  - reflexivity.
  - intros ->. exists (historyTokens second). split.
    + by apply DeserializeFrom_spec.
    + rewrite <- (app_nil_r (historyTokens second)) at 1.
      by apply DeserializeFrom_spec.
Qed.

Lemma SerializeTo_DeserializeFrom_sequence_witness :
  exists w1 w2 r1,
    SerializeTo exampleShapes [] = (None, w1)
    /\ SerializeTo exampleShapes w1 = (None, w2)
    /\ DeserializeFrom (mkValues []) w2 = Returns (exampleShapes, None, r1)
    /\ DeserializeFrom (mkValues []) r1 = Returns (exampleShapes, None, []).
Proof.
  destruct (SerializeTo_DeserializeFrom_sequence exampleShapes exampleShapes
              (mkValues []) (mkValues []) [] exampleShapes_encodable
              exampleShapes_encodable)
    as (w1 & w2 & H1 & H2 & _ & Hread).
  destruct (Hread eq_refl) as (r1 & Hr1 & Hr2).
  exists w1, w2, r1. split_and!; assumption.
Defined.

(** X26. [DeserializeFrom] does not ask for the table of names that
    [SerializeTo] writes: with any table that holds the names of the fields,
    in any order and with names repeated or not used, the stream of the
    history whose fields index that table is read back as the same
    history. *)
Theorem DeserializeFrom_any_table
    (values receiver : AuditableValues) (table : list string) (r : bufrw.Reader) :
  encodable values ->
  (forall name, name ∈ allNames (history values) -> name ∈ table) ->
  DeserializeFrom receiver
    (TByte 1
     :: TInt (Z.of_nat (length table))
     :: map TString table
     ++ TInt (Z.of_nat (length (history values)))
     :: flat_map (entryTokens table) (history values) ++ r)
  = Returns (values, None, r).
Proof.
  intros Henc Htable. unfold DeserializeFrom.
  cbn [bufrw.ReadByteValue bufrw.ReadInt Z.eqb negb].
  simpl (negb (1 =? 1)). cbv iota.
  rewrite make_length. cbn [mbind run_bind]. rewrite Nat2Z.id.
  pose proof (readNames_spec table []) as Hnames. simpl in Hnames.
  rewrite Hnames. cbn [bufrw.ReadInt].
  rewrite make_length. cbn [mbind run_bind]. rewrite Nat2Z.id.
  pose proof (readHistory_spec table (history values) [] r) as Hhist.
  simpl in Hhist. rewrite Hhist; [by destruct values|].
  unfold encodable in Henc. rewrite Forall_forall in Henc. apply Forall_forall.
  intros e He. destruct (Henc e He) as [Hsig Hfs]. split; [done|].
  rewrite Forall_forall in Hfs. apply Forall_forall. intros f Hf. split; [by apply Hfs|].
  apply Htable. by eapply allNames_elem.
Qed.

Lemma DeserializeFrom_any_table_witness :
  DeserializeFrom (mkValues [])
    [TByte 1; TInt 3; TString "unused"; TString ""; TString ""; TInt 1;
     TInt 1; TString "/"; TInt64 946771260000000000; TInt 1; TInt 1; TByte 0; TByte 0]
  = Returns (exampleValues1, None, []).
Proof.
  apply (DeserializeFrom_any_table exampleValues1 (mkValues []) ["unused"; ""; ""] []).
  - unfold encodable, exampleValues1. simpl history.
    constructor; [|constructor].
    split; [split; [split; reflexivity | vm_compute; reflexivity]|].
    constructor; [|constructor].
    simpl. unfold magicValueHistoryCreation. lia.
  - intros name Hin. simpl in Hin. apply list_elem_of_singleton in Hin as ->.
    apply (bool_decide_unpack _). vm_compute. exact I.
Defined.




Lemma make_negative {A : Type} (zero : A) (n : Z) :
  n < 0 -> make zero n = Panics "runtime error: makeslice: len out of range".
Proof. intros Hn. unfold make. by destruct (Z.ltb_spec n 0); [|lia]. Qed.

(** X28. A negative count in the stream makes [DeserializeFrom] panic
    where it makes the slice, instead of returning an error: the count of
    the names, the count of the entries of the history, and the count of the
    fields of an entry. *)
Theorem DeserializeFrom_negative_count
    (receiver : AuditableValues) (n : Z) (r : bufrw.Reader) :
  n < 0 ->
  DeserializeFrom receiver (TByte 1 :: TInt n :: r)
  = Panics "runtime error: makeslice: len out of range"
  /\ (forall table,
        DeserializeFrom receiver
          (TByte 1 :: TInt (Z.of_nat (length table)) :: map TString table ++ TInt n :: r)
        = Panics "runtime error: makeslice: len out of range")
  /\ (forall table sig count,
        serializable sig ->
        DeserializeFrom receiver
          (TByte 1 :: TInt (Z.of_nat (length table)) :: map TString table
           ++ TInt (Z.of_nat (S count)) :: signatureTokens sig ++ TInt n :: r)
        = Panics "runtime error: makeslice: len out of range").
Proof.
  intros Hn. split_and!.
  - unfold DeserializeFrom. cbn [bufrw.ReadByteValue bufrw.ReadInt].
    simpl (negb (1 =? 1)). cbv iota. by rewrite make_negative.
  - intros table. unfold DeserializeFrom. cbn [bufrw.ReadByteValue bufrw.ReadInt].
    simpl (negb (1 =? 1)). cbv iota.
    rewrite make_length. cbn [mbind run_bind]. rewrite Nat2Z.id.
    pose proof (readNames_spec table [] (TInt n :: r)) as Hnames. simpl in Hnames.
    rewrite Hnames. cbn [bufrw.ReadInt]. by rewrite make_negative.
  - intros table sig count Hsig.
    unfold DeserializeFrom. cbn [bufrw.ReadByteValue bufrw.ReadInt].
    simpl (negb (1 =? 1)). cbv iota.
    rewrite make_length. cbn [mbind run_bind]. rewrite Nat2Z.id.
    pose proof (readNames_spec table []
                  (TInt (Z.of_nat (S count)) :: signatureTokens sig ++ TInt n :: r))
      as Hnames.
    cbn [length app] in Hnames. rewrite Hnames. cbn [bufrw.ReadInt].
    rewrite make_length. cbn [mbind run_bind]. rewrite Nat2Z.id.
    rewrite readHistory_S, DeserializeFromBufRW_spec by done.
    cbn [bufrw.ReadInt]. by rewrite make_negative.
Qed.

Lemma DeserializeFrom_negative_count_witness :
  DeserializeFrom (mkValues []) [TByte 1; TInt (-1)]
  = Panics "runtime error: makeslice: len out of range".
Proof.
  apply (DeserializeFrom_negative_count (mkValues []) (-1) []). lia.
Defined.
